(** * Sensitive-information detector: a shallow embedding and its properties

    The development follows [sensitive_info_detector.py].  A Python [str] is a
    sequence of Unicode code points, offsets are integers, and the detector's
    regular expressions are run by a backtracking matcher that follows the
    search order of Python's [re] (leftmost match, ordered alternation, greedy
    counted repetition).  Exceptions are values of an error type. *)

From stdpp Require Import gmap strings list fin_maps sorting.
From Stdlib Require Import ZArith Lia Ascii DecimalString.

Local Open Scope Z_scope.

(** ** Python strings *)

(** A [str] is the list of its code points. *)
Abbreviation str := (list Z).

(** Source literals are written as UTF-8 byte strings and decoded here. *)
Fixpoint utf8_decode (bs : list Z) : str :=
  match bs with
  | [] => []
  | b0 :: t0 =>
    if b0 <? 128 then b0 :: utf8_decode t0
    else match t0 with
      | [] => []
      | b1 :: t1 =>
        if b0 <? 224 then ((b0 - 192) * 64 + (b1 - 128)) :: utf8_decode t1
        else match t1 with
          | [] => []
          | b2 :: t2 =>
            if b0 <? 240
            then ((b0 - 224) * 4096 + (b1 - 128) * 64 + (b2 - 128)) :: utf8_decode t2
            else match t2 with
              | [] => []
              | b3 :: t3 =>
                ((b0 - 240) * 262144 + (b1 - 128) * 4096 + (b2 - 128) * 64 + (b3 - 128))
                  :: utf8_decode t3
              end
          end
      end
  end.

Fixpoint bytes_of (s : string) : list Z :=
  match s with
  | EmptyString => []
  | String a s' => Z.of_nat (nat_of_ascii a) :: bytes_of s'
  end.

Definition u (s : string) : str := utf8_decode (bytes_of s).

(** [s[i:j]] for offsets that are not negative (the only ones the detector
    computes: every slice bound is a match offset, a constant, or clamped by
    [max(0, _)]). *)
Definition slice (s : str) (i j : Z) : str :=
  take (Z.to_nat (j - i)) (drop (Z.to_nat i) s).

Definition len (s : str) : Z := Z.of_nat (length s).

(** [s.startswith(p)] *)
Fixpoint startswith (s p : str) : bool :=
  match p, s with
  | [], _ => true
  | c :: p', d :: s' => (c =? d) && startswith s' p'
  | _ :: _, [] => false
  end.

(** [s.replace(c, '')] for a one-character [c] *)
Definition remove_char (c : Z) (s : str) : str := filter (λ d, d ≠ c) s.

(** ** The Unicode classes the program consults (Unicode 14, CPython 3.11) *)

Module Unicode.

Definition in_ranges (rs : list (Z * Z)) (c : Z) : bool :=
  existsb (λ r, (fst r <=? c) && (c <=? snd r)) rs.

(** The zero digit of every run of ten decimal digits (category Nd). *)
Definition decimal_zeros : list Z :=
[
 48; 1632; 1776; 1984; 2406; 2534; 2662; 2790; 2918; 3046; 3174; 3302;
 3430; 3558; 3664; 3792; 3872; 4160; 4240; 6112; 6160; 6470; 6608; 6784;
 6800; 6992; 7088; 7232; 7248; 42528; 43216; 43264; 43472; 43504; 43600; 44016;
 65296; 66720; 68912; 69734; 69872; 69942; 70096; 70384; 70736; 70864; 71248; 71360;
 71472; 71904; 72016; 72784; 73040; 73120; 92768; 92864; 93008; 120782; 120792; 120802;
 120812; 120822; 123200; 123632; 125264; 130032
].

(** [str.isdecimal], the class [\d] of [re], and the characters [int]
    accepts as digits. *)
Definition isdecimal (c : Z) : bool :=
  existsb (λ z, (z <=? c) && (c <=? z + 9)) decimal_zeros.

(** The value [int] gives a decimal digit. *)
Definition decimal_value (c : Z) : option Z :=
  (λ z, c - z) <$> find (λ z, (z <=? c) && (c <=? z + 9)) decimal_zeros.

(** Characters of numeric type Digit that are not decimal digits. *)
Definition other_digits : list (Z * Z) :=
[
 (178, 179); (185, 185); (4969, 4977); (6618, 6618); (8304, 8304); (8308, 8313);
 (8320, 8329); (9312, 9320); (9332, 9340); (9352, 9360); (9450, 9450); (9461, 9469);
 (9471, 9471); (10102, 10110); (10112, 10120); (10122, 10130); (68160, 68163); (69216, 69224);
 (69714, 69722); (127232, 127242)
].

(** [str.isdigit] *)
Definition isdigit (c : Z) : bool := isdecimal c || in_ranges other_digits c.

(** [str.isspace], the class [\s] of [re], and what [str.strip] removes. *)
Definition isspace (c : Z) : bool :=
  in_ranges
    [
 (9, 13); (28, 32); (133, 133); (160, 160); (5760, 5760); (8192, 8202);
 (8232, 8233); (8239, 8239); (8287, 8287); (12288, 12288)
    ] c.

(** Alphanumeric characters and the underscore: the class [\w] of [re]. *)
Definition word_ranges : list (Z * Z) :=
[
 (48, 57); (65, 90); (95, 95); (97, 122); (170, 170); (178, 179);
 (181, 181); (185, 186); (188, 190); (192, 214); (216, 246); (248, 705);
 (710, 721); (736, 740); (748, 748); (750, 750); (880, 884); (886, 887);
 (890, 893); (895, 895); (902, 902); (904, 906); (908, 908); (910, 929);
 (931, 1013); (1015, 1153); (1162, 1327); (1329, 1366); (1369, 1369); (1376, 1416);
 (1488, 1514); (1519, 1522); (1568, 1610); (1632, 1641); (1646, 1647); (1649, 1747);
 (1749, 1749); (1765, 1766); (1774, 1788); (1791, 1791); (1808, 1808); (1810, 1839);
 (1869, 1957); (1969, 1969); (1984, 2026); (2036, 2037); (2042, 2042); (2048, 2069);
 (2074, 2074); (2084, 2084); (2088, 2088); (2112, 2136); (2144, 2154); (2160, 2183);
 (2185, 2190); (2208, 2249); (2308, 2361); (2365, 2365); (2384, 2384); (2392, 2401);
 (2406, 2415); (2417, 2432); (2437, 2444); (2447, 2448); (2451, 2472); (2474, 2480);
 (2482, 2482); (2486, 2489); (2493, 2493); (2510, 2510); (2524, 2525); (2527, 2529);
 (2534, 2545); (2548, 2553); (2556, 2556); (2565, 2570); (2575, 2576); (2579, 2600);
 (2602, 2608); (2610, 2611); (2613, 2614); (2616, 2617); (2649, 2652); (2654, 2654);
 (2662, 2671); (2674, 2676); (2693, 2701); (2703, 2705); (2707, 2728); (2730, 2736);
 (2738, 2739); (2741, 2745); (2749, 2749); (2768, 2768); (2784, 2785); (2790, 2799);
 (2809, 2809); (2821, 2828); (2831, 2832); (2835, 2856); (2858, 2864); (2866, 2867);
 (2869, 2873); (2877, 2877); (2908, 2909); (2911, 2913); (2918, 2927); (2929, 2935);
 (2947, 2947); (2949, 2954); (2958, 2960); (2962, 2965); (2969, 2970); (2972, 2972);
 (2974, 2975); (2979, 2980); (2984, 2986); (2990, 3001); (3024, 3024); (3046, 3058);
 (3077, 3084); (3086, 3088); (3090, 3112); (3114, 3129); (3133, 3133); (3160, 3162);
 (3165, 3165); (3168, 3169); (3174, 3183); (3192, 3198); (3200, 3200); (3205, 3212);
 (3214, 3216); (3218, 3240); (3242, 3251); (3253, 3257); (3261, 3261); (3293, 3294);
 (3296, 3297); (3302, 3311); (3313, 3314); (3332, 3340); (3342, 3344); (3346, 3386);
 (3389, 3389); (3406, 3406); (3412, 3414); (3416, 3425); (3430, 3448); (3450, 3455);
 (3461, 3478); (3482, 3505); (3507, 3515); (3517, 3517); (3520, 3526); (3558, 3567);
 (3585, 3632); (3634, 3635); (3648, 3654); (3664, 3673); (3713, 3714); (3716, 3716);
 (3718, 3722); (3724, 3747); (3749, 3749); (3751, 3760); (3762, 3763); (3773, 3773);
 (3776, 3780); (3782, 3782); (3792, 3801); (3804, 3807); (3840, 3840); (3872, 3891);
 (3904, 3911); (3913, 3948); (3976, 3980); (4096, 4138); (4159, 4169); (4176, 4181);
 (4186, 4189); (4193, 4193); (4197, 4198); (4206, 4208); (4213, 4225); (4238, 4238);
 (4240, 4249); (4256, 4293); (4295, 4295); (4301, 4301); (4304, 4346); (4348, 4680);
 (4682, 4685); (4688, 4694); (4696, 4696); (4698, 4701); (4704, 4744); (4746, 4749);
 (4752, 4784); (4786, 4789); (4792, 4798); (4800, 4800); (4802, 4805); (4808, 4822);
 (4824, 4880); (4882, 4885); (4888, 4954); (4969, 4988); (4992, 5007); (5024, 5109);
 (5112, 5117); (5121, 5740); (5743, 5759); (5761, 5786); (5792, 5866); (5870, 5880);
 (5888, 5905); (5919, 5937); (5952, 5969); (5984, 5996); (5998, 6000); (6016, 6067);
 (6103, 6103); (6108, 6108); (6112, 6121); (6128, 6137); (6160, 6169); (6176, 6264);
 (6272, 6276); (6279, 6312); (6314, 6314); (6320, 6389); (6400, 6430); (6470, 6509);
 (6512, 6516); (6528, 6571); (6576, 6601); (6608, 6618); (6656, 6678); (6688, 6740);
 (6784, 6793); (6800, 6809); (6823, 6823); (6917, 6963); (6981, 6988); (6992, 7001);
 (7043, 7072); (7086, 7141); (7168, 7203); (7232, 7241); (7245, 7293); (7296, 7304);
 (7312, 7354); (7357, 7359); (7401, 7404); (7406, 7411); (7413, 7414); (7418, 7418);
 (7424, 7615); (7680, 7957); (7960, 7965); (7968, 8005); (8008, 8013); (8016, 8023);
 (8025, 8025); (8027, 8027); (8029, 8029); (8031, 8061); (8064, 8116); (8118, 8124);
 (8126, 8126); (8130, 8132); (8134, 8140); (8144, 8147); (8150, 8155); (8160, 8172);
 (8178, 8180); (8182, 8188); (8304, 8305); (8308, 8313); (8319, 8329); (8336, 8348);
 (8450, 8450); (8455, 8455); (8458, 8467); (8469, 8469); (8473, 8477); (8484, 8484);
 (8486, 8486); (8488, 8488); (8490, 8493); (8495, 8505); (8508, 8511); (8517, 8521);
 (8526, 8526); (8528, 8585); (9312, 9371); (9450, 9471); (10102, 10131); (11264, 11492);
 (11499, 11502); (11506, 11507); (11517, 11517); (11520, 11557); (11559, 11559); (11565, 11565);
 (11568, 11623); (11631, 11631); (11648, 11670); (11680, 11686); (11688, 11694); (11696, 11702);
 (11704, 11710); (11712, 11718); (11720, 11726); (11728, 11734); (11736, 11742); (11823, 11823);
 (12293, 12295); (12321, 12329); (12337, 12341); (12344, 12348); (12353, 12438); (12445, 12447);
 (12449, 12538); (12540, 12543); (12549, 12591); (12593, 12686); (12690, 12693); (12704, 12735);
 (12784, 12799); (12832, 12841); (12872, 12879); (12881, 12895); (12928, 12937); (12977, 12991);
 (13312, 19903); (19968, 42124); (42192, 42237); (42240, 42508); (42512, 42539); (42560, 42606);
 (42623, 42653); (42656, 42735); (42775, 42783); (42786, 42888); (42891, 42954); (42960, 42961);
 (42963, 42963); (42965, 42969); (42994, 43009); (43011, 43013); (43015, 43018); (43020, 43042);
 (43056, 43061); (43072, 43123); (43138, 43187); (43216, 43225); (43250, 43255); (43259, 43259);
 (43261, 43262); (43264, 43301); (43312, 43334); (43360, 43388); (43396, 43442); (43471, 43481);
 (43488, 43492); (43494, 43518); (43520, 43560); (43584, 43586); (43588, 43595); (43600, 43609);
 (43616, 43638); (43642, 43642); (43646, 43695); (43697, 43697); (43701, 43702); (43705, 43709);
 (43712, 43712); (43714, 43714); (43739, 43741); (43744, 43754); (43762, 43764); (43777, 43782);
 (43785, 43790); (43793, 43798); (43808, 43814); (43816, 43822); (43824, 43866); (43868, 43881);
 (43888, 44002); (44016, 44025); (44032, 55203); (55216, 55238); (55243, 55291); (63744, 64109);
 (64112, 64217); (64256, 64262); (64275, 64279); (64285, 64285); (64287, 64296); (64298, 64310);
 (64312, 64316); (64318, 64318); (64320, 64321); (64323, 64324); (64326, 64433); (64467, 64829);
 (64848, 64911); (64914, 64967); (65008, 65019); (65136, 65140); (65142, 65276); (65296, 65305);
 (65313, 65338); (65345, 65370); (65382, 65470); (65474, 65479); (65482, 65487); (65490, 65495);
 (65498, 65500); (65536, 65547); (65549, 65574); (65576, 65594); (65596, 65597); (65599, 65613);
 (65616, 65629); (65664, 65786); (65799, 65843); (65856, 65912); (65930, 65931); (66176, 66204);
 (66208, 66256); (66273, 66299); (66304, 66339); (66349, 66378); (66384, 66421); (66432, 66461);
 (66464, 66499); (66504, 66511); (66513, 66517); (66560, 66717); (66720, 66729); (66736, 66771);
 (66776, 66811); (66816, 66855); (66864, 66915); (66928, 66938); (66940, 66954); (66956, 66962);
 (66964, 66965); (66967, 66977); (66979, 66993); (66995, 67001); (67003, 67004); (67072, 67382);
 (67392, 67413); (67424, 67431); (67456, 67461); (67463, 67504); (67506, 67514); (67584, 67589);
 (67592, 67592); (67594, 67637); (67639, 67640); (67644, 67644); (67647, 67669); (67672, 67702);
 (67705, 67742); (67751, 67759); (67808, 67826); (67828, 67829); (67835, 67867); (67872, 67897);
 (67968, 68023); (68028, 68047); (68050, 68096); (68112, 68115); (68117, 68119); (68121, 68149);
 (68160, 68168); (68192, 68222); (68224, 68255); (68288, 68295); (68297, 68324); (68331, 68335);
 (68352, 68405); (68416, 68437); (68440, 68466); (68472, 68497); (68521, 68527); (68608, 68680);
 (68736, 68786); (68800, 68850); (68858, 68899); (68912, 68921); (69216, 69246); (69248, 69289);
 (69296, 69297); (69376, 69415); (69424, 69445); (69457, 69460); (69488, 69505); (69552, 69579);
 (69600, 69622); (69635, 69687); (69714, 69743); (69745, 69746); (69749, 69749); (69763, 69807);
 (69840, 69864); (69872, 69881); (69891, 69926); (69942, 69951); (69956, 69956); (69959, 69959);
 (69968, 70002); (70006, 70006); (70019, 70066); (70081, 70084); (70096, 70106); (70108, 70108);
 (70113, 70132); (70144, 70161); (70163, 70187); (70272, 70278); (70280, 70280); (70282, 70285);
 (70287, 70301); (70303, 70312); (70320, 70366); (70384, 70393); (70405, 70412); (70415, 70416);
 (70419, 70440); (70442, 70448); (70450, 70451); (70453, 70457); (70461, 70461); (70480, 70480);
 (70493, 70497); (70656, 70708); (70727, 70730); (70736, 70745); (70751, 70753); (70784, 70831);
 (70852, 70853); (70855, 70855); (70864, 70873); (71040, 71086); (71128, 71131); (71168, 71215);
 (71236, 71236); (71248, 71257); (71296, 71338); (71352, 71352); (71360, 71369); (71424, 71450);
 (71472, 71483); (71488, 71494); (71680, 71723); (71840, 71922); (71935, 71942); (71945, 71945);
 (71948, 71955); (71957, 71958); (71960, 71983); (71999, 71999); (72001, 72001); (72016, 72025);
 (72096, 72103); (72106, 72144); (72161, 72161); (72163, 72163); (72192, 72192); (72203, 72242);
 (72250, 72250); (72272, 72272); (72284, 72329); (72349, 72349); (72368, 72440); (72704, 72712);
 (72714, 72750); (72768, 72768); (72784, 72812); (72818, 72847); (72960, 72966); (72968, 72969);
 (72971, 73008); (73030, 73030); (73040, 73049); (73056, 73061); (73063, 73064); (73066, 73097);
 (73112, 73112); (73120, 73129); (73440, 73458); (73648, 73648); (73664, 73684); (73728, 74649);
 (74752, 74862); (74880, 75075); (77712, 77808); (77824, 78894); (82944, 83526); (92160, 92728);
 (92736, 92766); (92768, 92777); (92784, 92862); (92864, 92873); (92880, 92909); (92928, 92975);
 (92992, 92995); (93008, 93017); (93019, 93025); (93027, 93047); (93053, 93071); (93760, 93846);
 (93952, 94026); (94032, 94032); (94099, 94111); (94176, 94177); (94179, 94179); (94208, 100343);
 (100352, 101589); (101632, 101640); (110576, 110579); (110581, 110587); (110589, 110590); (110592, 110882);
 (110928, 110930); (110948, 110951); (110960, 111355); (113664, 113770); (113776, 113788); (113792, 113800);
 (113808, 113817); (119520, 119539); (119648, 119672); (119808, 119892); (119894, 119964); (119966, 119967);
 (119970, 119970); (119973, 119974); (119977, 119980); (119982, 119993); (119995, 119995); (119997, 120003);
 (120005, 120069); (120071, 120074); (120077, 120084); (120086, 120092); (120094, 120121); (120123, 120126);
 (120128, 120132); (120134, 120134); (120138, 120144); (120146, 120485); (120488, 120512); (120514, 120538);
 (120540, 120570); (120572, 120596); (120598, 120628); (120630, 120654); (120656, 120686); (120688, 120712);
 (120714, 120744); (120746, 120770); (120772, 120779); (120782, 120831); (122624, 122654); (123136, 123180);
 (123191, 123197); (123200, 123209); (123214, 123214); (123536, 123565); (123584, 123627); (123632, 123641);
 (124896, 124902); (124904, 124907); (124909, 124910); (124912, 124926); (124928, 125124); (125127, 125135);
 (125184, 125251); (125259, 125259); (125264, 125273); (126065, 126123); (126125, 126127); (126129, 126132);
 (126209, 126253); (126255, 126269); (126464, 126467); (126469, 126495); (126497, 126498); (126500, 126500);
 (126503, 126503); (126505, 126514); (126516, 126519); (126521, 126521); (126523, 126523); (126530, 126530);
 (126535, 126535); (126537, 126537); (126539, 126539); (126541, 126543); (126545, 126546); (126548, 126548);
 (126551, 126551); (126553, 126553); (126555, 126555); (126557, 126557); (126559, 126559); (126561, 126562);
 (126564, 126564); (126567, 126570); (126572, 126578); (126580, 126583); (126585, 126588); (126590, 126590);
 (126592, 126601); (126603, 126619); (126625, 126627); (126629, 126633); (126635, 126651); (127232, 127244);
 (130032, 130041); (131072, 173791); (173824, 177976); (177984, 178205); (178208, 183969); (183984, 191456);
 (194560, 195101); (196608, 201546)
].

Definition isword (c : Z) : bool := in_ranges word_ranges c.

(** Case folding as [re.IGNORECASE] applies it, on the letters that have an
    ASCII letter in their case class: A-Z, U+0130, U+0131, U+017F and
    U+212A.  Every other code point is left alone; that is exact for
    patterns whose cased characters are ASCII letters. *)
Definition casefold (c : Z) : Z :=
  if (65 <=? c) && (c <=? 90) then c + 32
  else if (c =? 304) || (c =? 305) then 105
  else if c =? 383 then 115
  else if c =? 8490 then 107
  else c.

Definition ascii_upper (c : Z) : Z :=
  if (97 <=? c) && (c <=? 122) then c - 32 else c.

(** [str.lower] on the same letters: U+0130 lowers to two code points,
    U+212A to [k], U+0131 and U+017F are lower case already. *)
Definition lower_char (c : Z) : str :=
  if (65 <=? c) && (c <=? 90) then [c + 32]
  else if c =? 304 then [105; 775]
  else if c =? 8490 then [107]
  else [c].

Definition lower (s : str) : str := concat (map lower_char s).

End Unicode.

(** [s.strip()] *)
Fixpoint lstrip (s : str) : str :=
  match s with
  | c :: s' => if Unicode.isspace c then lstrip s' else s
  | [] => []
  end.

Definition strip (s : str) : str := reverse (lstrip (reverse (lstrip s))).

(** ** Regular expressions, as Python's [re] runs them *)

Module Re.

(** The constructs the program's patterns use.  [Char p] is a literal or a
    character set given by its membership test, [Repeat lo hi r] the greedy
    [r{lo,hi}] ([hi = None] for an open bound), [Group r] the capture
    group (no pattern of the program has more than one), [NotBehind p] and
    [NotAhead p] the one-character assertions [(?<!p)] and [(?!p)]. *)
Inductive regex :=
| Empty
| Char (p : Z → bool)
| Cat (r1 r2 : regex)
| Alt (r1 r2 : regex)
| Repeat (lo : nat) (hi : option nat) (r : regex)
| Group (r : regex)
| NotBehind (p : Z → bool)
| NotAhead (p : Z → bool)
| WordBoundary
| Bol
| Eol.

(** A position in the subject: the characters before it, nearest first,
    the characters after it, its offset, and the span of group 1 if the
    group has matched on the way here. *)
Record cursor := Cursor {
  behind : str;
  ahead : str;
  pos : Z;
  span1 : option (Z * Z)
}.

Definition advance (c : Z) (rest : str) (s : cursor) : cursor :=
  Cursor (c :: behind s) rest (pos s + 1) (span1 s).

Definition set_span1 (sp : Z * Z) (s : cursor) : cursor :=
  Cursor (behind s) (ahead s) (pos s) (Some sp).

(** The test of one character; [icase] is the flag [re.IGNORECASE]. *)
Definition char_test (icase : bool) (p : Z → bool) (c : Z) : bool :=
  p c || (icase && (p (Unicode.casefold c)
                    || p (Unicode.ascii_upper (Unicode.casefold c)))).

Definition word_at (l : str) : bool :=
  match l with
  | c :: _ => Unicode.isword c
  | [] => false
  end.

(** The greedy loop of a counted repetition: [n] iterations are done and
    [fuel] more are allowed; one more is tried first, and the loop stops
    here (if [lo] is reached) when that fails. *)
Fixpoint repeat_loop {A} (body : (cursor → option A) → cursor → option A)
    (lo : nat) (k : cursor → option A) (fuel n : nat) (s : cursor) : option A :=
  let stop := if (lo <=? n)%nat then k s else None in
  match fuel with
  | O => stop
  | S fuel' =>
      match body (repeat_loop body lo k fuel' (S n)) s with
      | Some x => Some x
      | None => stop
      end
  end.

(** The backtracking matcher, in continuation-passing style: [k] is what
    remains to be matched, and [None] makes the caller try its next
    choice.  An open repetition is tried at most once per remaining
    character (an iteration that consumes nothing is not repeated). *)
Fixpoint run {A} (icase : bool) (r : regex) (k : cursor → option A)
    (s : cursor) : option A :=
  match r with
  | Empty => k s
  | Char p =>
      match ahead s with
      | c :: rest => if char_test icase p c then k (advance c rest s) else None
      | [] => None
      end
  | Cat r1 r2 => run icase r1 (run icase r2 k) s
  | Alt r1 r2 =>
      match run icase r1 k s with
      | Some x => Some x
      | None => run icase r2 k s
      end
  | Repeat lo hi r =>
      repeat_loop (run icase r) lo k
        (match hi with Some h => h | None => length (ahead s) end) O s
  | Group r => run icase r (λ s', k (set_span1 (pos s, pos s') s')) s
  | NotBehind p =>
      match behind s with
      | c :: _ => if char_test icase p c then None else k s
      | [] => k s
      end
  | NotAhead p =>
      match ahead s with
      | c :: _ => if char_test icase p c then None else k s
      | [] => k s
      end
  | WordBoundary =>
      if xorb (word_at (behind s)) (word_at (ahead s)) then k s else None
  | Bol => match behind s with [] => k s | _ :: _ => None end
  | Eol =>
      match ahead s with
      | [] => k s
      | [c] => if c =? 10 then k s else None
      | _ => None
      end
  end.

(** The number of capture groups of a pattern: [match.groups()] is an
    empty tuple, hence false, exactly when there is none. *)
Fixpoint ngroups (r : regex) : nat :=
  match r with
  | Cat r1 r2 | Alt r1 r2 => (ngroups r1 + ngroups r2)%nat
  | Repeat _ _ r => ngroups r
  | Group r => S (ngroups r)
  | _ => O
  end.

(** A match object. *)
Record re_match := ReMatch {
  m_string : str;
  m_start : Z;
  m_end : Z;
  m_span1 : option (Z * Z);
  m_ngroups : nat
}.

(** [match.group()] *)
Definition group (m : re_match) : str := slice (m_string m) (m_start m) (m_end m).

(** [match.groups()], as a truth value *)
Definition groups (m : re_match) : bool := (0 <? m_ngroups m)%nat.

(** A match of [r] that starts at the cursor. *)
Definition match_here (icase : bool) (r : regex) (string : str)
    (s : cursor) : option re_match :=
  run icase r
    (λ s', Some (ReMatch string (pos s) (pos s') (span1 s') (ngroups r))) s.

(** [re.match(r, string)] *)
Definition re_match_ (icase : bool) (r : regex) (string : str) : option re_match :=
  match_here icase r string (Cursor [] string 0 None).

Fixpoint search_at (icase : bool) (r : regex) (string : str)
    (before : str) (at_ : Z) (after : str) : option re_match :=
  match match_here icase r string (Cursor before after at_ None) with
  | Some m => Some m
  | None =>
      match after with
      | [] => None
      | c :: rest => search_at icase r string (c :: before) (at_ + 1) rest
      end
  end.

(** [re.search(r, string)] *)
Definition search (icase : bool) (r : regex) (string : str) : option re_match :=
  search_at icase r string [] 0 string.

(** The scan of [re.finditer]: [skip] counts the characters of the last
    match still to be stepped over before the next attempt.  The program's
    patterns match no empty string, so an attempt never restarts where the
    last match ended without progress. *)
Fixpoint finditer_at (icase : bool) (r : regex) (string : str)
    (before : str) (at_ : Z) (after : str) (skip : nat) : list re_match :=
  match skip with
  | S skip' =>
      match after with
      | [] => []
      | c :: rest => finditer_at icase r string (c :: before) (at_ + 1) rest skip'
      end
  | O =>
      match match_here icase r string (Cursor before after at_ None) with
      | Some m =>
          m :: match after with
               | [] => []
               | c :: rest =>
                   finditer_at icase r string (c :: before) (at_ + 1) rest
                     (Z.to_nat (m_end m - at_) - 1)
               end
      | None =>
          match after with
          | [] => []
          | c :: rest => finditer_at icase r string (c :: before) (at_ + 1) rest O
          end
      end
  end.

(** [re.finditer(r, string, flags)] *)
Definition finditer (icase : bool) (r : regex) (string : str) : list re_match :=
  finditer_at icase r string [] 0 string O.

(** *** Pattern syntax *)

Definition lit (c : Z) : regex := Char (Z.eqb c).

(** A literal string. *)
Fixpoint text (s : str) : regex :=
  match s with
  | [] => Empty
  | c :: s' => Cat (lit c) (text s')
  end.

Definition lits (s : string) : regex := text (u s).

(** The pattern that matches nothing: the end of a list of alternatives. *)
Definition never : regex := Char (λ _, false).

(** [a|b|...] *)
Fixpoint alts (rs : list regex) : regex :=
  match rs with
  | [] => never
  | r :: rs' => Alt r (alts rs')
  end.

(** [w1|w2|...] for literal words *)
Definition words (ws : list string) : regex := alts (map lits ws).

(** [r1 r2 ...] *)
Fixpoint cat (rs : list regex) : regex :=
  match rs with
  | [] => Empty
  | r :: rs' => Cat r (cat rs')
  end.

Definition opt (r : regex) : regex := Repeat 0 (Some 1%nat) r.
Definition star (r : regex) : regex := Repeat 0 None r.
Definition plus (r : regex) : regex := Repeat 1 None r.
Definition times (lo hi : nat) (r : regex) : regex := Repeat lo (Some hi) r.

(** Membership tests of character sets. *)
Definition between (a b : string) (c : Z) : bool :=
  match u a, u b with
  | [x], [y] => (x <=? c) && (c <=? y)
  | _, _ => false
  end.

Definition one_of (cs : string) (c : Z) : bool := existsb (Z.eqb c) (u cs).

Definition digit : Z → bool := Unicode.isdecimal.
Definition space : Z → bool := Unicode.isspace.

Definition union (ps : list (Z → bool)) (c : Z) : bool := existsb (λ p, p c) ps.

End Re.

(** ** Exceptions *)

(** Every exception the module raises is a [ValueError]; the constructor
    records which one. *)
Inductive exception :=
| ValueError_type_id (type_id : string)   (* an identifier that is not a key of [patterns] *)
| ValueError_threshold                    (* a threshold outside 0..100 *)
| ValueError_int (literal : str).         (* [int] of a string that is no decimal number *)

Inductive result (A : Type) :=
| Ok (a : A)
| Raise (e : exception).
Arguments Ok {A} a.
Arguments Raise {A} e.

#[global] Instance result_bind : MBind result :=
  λ A B f x, match x with
             | Ok a => f a
             | Raise e => Raise e
             end.

(** [int(s)] for the strings the validators pass to it: one character of a
    card number, or a run of characters that [\d] or [str.isdigit] has
    accepted.  On those, [int] succeeds exactly when every character is a
    decimal digit. *)
Definition int (s : str) : result Z :=
  match s, mapM Unicode.decimal_value s with
  | _ :: _, Some ds => Ok (fold_left (λ acc d, acc * 10 + d) ds 0)
  | _, _ => Raise (ValueError_int s)
  end.

(** [range(start, stop, step)] for a negative step. *)
Definition range_down (start stop step : Z) : list Z :=
  map (λ k, start + Z.of_nat k * step)
      (seq 0 (Z.to_nat ((start - stop + (- step) - 1) / (- step)))).

(** [ [f(x) for x in l] ] where [f] may raise. *)
Fixpoint comprehension {A B} (f : A → result B) (l : list A) : result (list B) :=
  match l with
  | [] => Ok []
  | x :: l' => y ← f x; ys ← comprehension f l'; Ok (y :: ys)
  end.

(** ** The detector *)

Import Re.

(** *** The patterns of [self.patterns] *)

(** [(?:\+?86)?(?<!\d)1[3-9]\d{9}(?!\d)] *)
Definition phone_pattern : regex :=
  cat [ opt (cat [opt (lits "+"); lits "86"]);
        NotBehind digit;
        lits "1"; Char (between "3" "9"); times 9 9 (Char digit);
        NotAhead digit ].

(** [(?:0\d{2,3}[-\s])?] followed by [[2-9]\d{6,7}] *)
Definition landline_body : regex :=
  cat [ opt (cat [lits "0"; times 2 3 (Char digit); Char (union [one_of "-"; space])]);
        Char (between "2" "9"); times 6 7 (Char digit) ].

(** [(?<!\d)(?:0\d{2,3}[-\s])?(?:[2-9]\d{6,7})(?!\d)] *)
Definition landline_pattern : regex :=
  cat [NotBehind digit; landline_body; NotAhead digit].

(** [[1-9]\d{5}(?:19|20)\d{2}(?:0[1-9]|1[0-2])(?:0[1-9]|[12]\d|3[01])\d{3}[\dXx]] *)
Definition id_card_body : regex :=
  cat [ Char (between "1" "9"); times 5 5 (Char digit);
        alts [lits "19"; lits "20"]; times 2 2 (Char digit);
        alts [ cat [lits "0"; Char (between "1" "9")];
               cat [lits "1"; Char (between "0" "2")] ];
        alts [ cat [lits "0"; Char (between "1" "9")];
               cat [Char (one_of "12"); Char digit];
               cat [lits "3"; Char (one_of "01")] ];
        times 3 3 (Char digit);
        Char (union [digit; one_of "Xx"]) ].

Definition id_card_pattern : regex :=
  cat [NotBehind digit; id_card_body; NotAhead digit].

(** [[一-龥]] and [[一-龥\d]] *)
Definition cjk (c : Z) : bool := (19968 <=? c) && (c <=? 40869).
Definition cjk_or_digit : Z → bool := union [cjk; digit].

Definition address_pattern : regex :=
  cat [ words [ "北京"; "上海"; "天津"; "重庆"; "广州"; "深圳"; "杭州"; "南京"; "武汉";
                "成都"; "西安"; "沈阳"; "大连"; "青岛"; "济南"; "郑州"; "长沙"; "福州";
                "厦门"; "哈尔滨"; "长春"; "太原"; "石家庄"; "呼和浩特"; "南宁"; "银川";
                "乌鲁木齐"; "拉萨"; "西宁"; "兰州"; "贵阳"; "昆明"; "南昌"; "合肥";
                "海口"; "三亚"; "香港"; "澳门"; "台北" ];
        opt (words ["市"; "省"; "特别行政区"]);
        times 1 3 (Char cjk);
        words ["区"; "县"; "市"];
        times 2 10 (Char cjk);
        words ["路"; "街"; "道"; "巷"; "胡同"];
        times 1 10 (Char cjk_or_digit);
        opt (lits "号");
        opt (cat [times 1 10 (Char cjk_or_digit); words ["号楼"; "单元"; "室"; "号"]]) ].

Definition letter : Z → bool := union [between "a" "z"; between "A" "Z"].

(** [[a-zA-Z0-9._%+-]+@[a-zA-Z0-9.-]+\.[a-zA-Z]{2,}] *)
Definition email_pattern : regex :=
  cat [ plus (Char (union [letter; between "0" "9"; one_of "._%+-"]));
        lits "@";
        plus (Char (union [letter; between "0" "9"; one_of ".-"]));
        lits ".";
        Repeat 2 None (Char letter) ].

(** [(?:密码|password|pwd)[：:]\s*([a-zA-Z0-9@#$%^&*]{6,20})] *)
Definition password_pattern : regex :=
  cat [ words ["密码"; "password"; "pwd"];
        Char (one_of "：:");
        star (Char space);
        Group (times 6 20 (Char (union [letter; between "0" "9"; one_of "@#$%^&*"]))) ].

(** [(?<!\d)(?:\d{4}[\s-]?){3,4}\d{0,4}(?!\d)] *)
Definition credit_card_pattern : regex :=
  cat [ NotBehind digit;
        times 3 4 (cat [times 4 4 (Char digit); opt (Char (union [space; one_of "-"]))]);
        times 0 4 (Char digit);
        NotAhead digit ].

(** [25[0-5]|2[0-4][0-9]|[01]?[0-9][0-9]?] *)
Definition octet : regex :=
  alts [ cat [lits "25"; Char (between "0" "5")];
         cat [lits "2"; Char (between "0" "4"); Char (between "0" "9")];
         cat [opt (Char (one_of "01")); Char (between "0" "9"); opt (Char (between "0" "9"))] ].

(** [\b(?:(?:octet)\.){3}(?:octet)\b] *)
Definition ip_address_pattern : regex :=
  cat [WordBoundary; times 3 3 (cat [octet; lits "."]); octet; WordBoundary].

(** *** Context windows *)

(** [_get_context_text]: the text from [context_size] characters before the
    match to [context_size] characters after it. *)
Definition _get_context_text (text : str) (start end_ context_size : Z) : str :=
  let context_start := Z.max 0 (start - context_size) in
  let context_end := Z.min (len text) (end_ + context_size) in
  slice text context_start context_end.

(** [_get_context]: the same window with the match between brackets. *)
Definition _get_context (text : str) (start end_ context_size : Z) : str :=
  let context_start := Z.max 0 (start - context_size) in
  let context_end := Z.min (len text) (end_ + context_size) in
  let prefix := slice text context_start start in
  let match_ := slice text start end_ in
  let suffix := slice text end_ context_end in
  prefix ++ u "【" ++ match_ ++ u "】" ++ suffix.

(** [re.search(r'(w1|w2|...)', context)], as a truth value *)
Definition has_keyword (ws : list string) (context : str) : bool :=
  match search false (Group (words ws)) context with
  | Some _ => true
  | None => false
  end.

(** [re.match(r, s)] with no flag, as a truth value *)
Definition matches (r : regex) (s : str) : bool :=
  match re_match_ false r s with
  | Some _ => true
  | None => false
  end.

(** *** The validators *)

Definition _validate_phone (m : re_match) (text : str) : result Z :=
  let phone := group m in
  let digits_only := filter (λ c, Unicode.isdigit c = true) phone in
  let digits_only :=
    if (11 <? len digits_only) && startswith digits_only (u "86")
    then slice digits_only 2 (len digits_only)
    else digits_only in
  if negb (matches (cat [Bol; lits "1"; Char (between "3" "9");
                         times 9 9 (Char digit); Eol]) digits_only)
  then Ok 0
  else
    let context := _get_context_text text (m_start m) (m_end m) 20 in
    if has_keyword ["手机"; "电话"; "联系"; "拨打"; "号码"] context then Ok 100
    else if bool_decide (digits_only ∈ [u "12345678910"; u "13800138000"; u "13912345678"])
    then Ok 0
    else Ok 80.

Definition _validate_landline (m : re_match) (text : str) : result Z :=
  let landline := group m in
  if negb (matches (cat [Bol; landline_body; Eol]) landline) then Ok 0
  else
    let context := _get_context_text text (m_start m) (m_end m) 20 in
    if has_keyword ["电话"; "座机"; "分机"; "传真"; "客服"] context then Ok 100
    else Ok 70.

Definition _validate_id_card (m : re_match) (text : str) : result Z :=
  let id_card := group m in
  if negb (matches (cat [Bol; id_card_body; Eol]) id_card) then Ok 0
  else
    let context := _get_context_text text (m_start m) (m_end m) 20 in
    if has_keyword ["身份证"; "证件"; "号码"; "身份"; "证号"] context then Ok 100
    else
      year ← int (slice id_card 6 10);
      month ← int (slice id_card 10 12);
      day ← int (slice id_card 12 14);
      if (year <? 1900) || (2100 <? year) || (month <? 1) || (12 <? month)
         || (day <? 1) || (31 <? day)
      then Ok 0
      else Ok 90.

Definition _validate_address (m : re_match) (text : str) : result Z :=
  let address := group m in
  let context := _get_context_text text (m_start m) (m_end m) 20 in
  if has_keyword ["地址"; "住址"; "家庭"; "位于"; "住在"] context then Ok 100
  else if len address <? 10 then Ok 0
  else Ok 80.

Definition _validate_email (m : re_match) (text : str) : result Z :=
  let email := group m in
  if negb (matches (cat [Bol; email_pattern; Eol]) email) then Ok 0
  else
    let context := _get_context_text text (m_start m) (m_end m) 20 in
    if has_keyword ["邮箱"; "邮件"; "电子邮件"; "Email"; "联系"] context then Ok 100
    else if matches (cat [Bol; Group (words ["test"; "example"; "sample"]); lits "@"])
                    (Unicode.lower email)
    then Ok 30
    else Ok 80.

Definition _validate_password (m : re_match) (text : str) : result Z :=
  let context := _get_context_text text (m_start m) (m_end m) 20 in
  if has_keyword ["密码"; "口令"; "password"; "pwd"] context then Ok 100
  else Ok 90.

(** One round of the loop of the Luhn check: the digit at index [i] is
    doubled, and 9 is taken off a result above 9. *)
Definition luhn_step (digits : list Z) (i : Z) : list Z :=
  let d := default 0 (digits !! Z.to_nat i) * 2 in
  let d := if 9 <? d then d - 9 else d in
  <[Z.to_nat i := d]> digits.

(** The loop: [for i in range(len(digits)-2, -1, -2)], from the last digit
    but one leftwards, every second digit. *)
Definition luhn_double (digits : list Z) : list Z :=
  foldl luhn_step digits (range_down (len digits - 2) (-1) (-2)).

Definition sum (l : list Z) : Z := foldl Z.add 0 l.

Definition _validate_credit_card (m : re_match) (text : str) : result Z :=
  let card := remove_char 45 (remove_char 32 (group m)) in
  if negb (matches (cat [Bol; times 16 19 (Char digit); Eol]) card) then Ok 0
  else
    let context := _get_context_text text (m_start m) (m_end m) 20 in
    if has_keyword ["银行卡"; "信用卡"; "储蓄卡"; "卡号"; "账号"] context then Ok 100
    else
      digits ← comprehension (λ d, int [d]) card;
      let digits := luhn_double digits in
      if negb (sum digits `mod` 10 =? 0) then Ok 0
      else Ok 80.

(** [s.split('.')] *)
Fixpoint split_dot (s : str) : list str :=
  match s with
  | [] => [[]]
  | c :: s' =>
      if c =? 46 then [] :: split_dot s'
      else match split_dot s' with
           | p :: ps => (c :: p) :: ps
           | [] => [[c]]
           end
  end.

(** [part.isdigit()]: false on the empty string. *)
Definition isdigit (s : str) : bool :=
  negb (bool_decide (s = [])) && forallb Unicode.isdigit s.

(** The loop over the four parts: the first part that is not a number of at
    most 255 ends it. *)
Fixpoint octets_ok (parts : list str) : result bool :=
  match parts with
  | [] => Ok true
  | part :: parts' =>
      if negb (isdigit part) then Ok false
      else n ← int part; if 255 <? n then Ok false else octets_ok parts'
  end.

Definition _validate_ip_address (m : re_match) (text : str) : result Z :=
  let ip := group m in
  let parts := split_dot ip in
  if negb (length parts =? 4)%nat then Ok 0
  else
    ok ← octets_ok parts;
    if negb ok then Ok 0
    else
      let context := _get_context_text text (m_start m) (m_end m) 20 in
      if has_keyword ["IP"; "地址"; "服务器"; "网络"; "主机"] context then Ok 100
      else if bool_decide (ip ∈ [u "127.0.0.1"; u "0.0.0.0"; u "255.255.255.255"])
      then Ok 50
      else Ok 70.

(** *** The registry and the detector's state *)

Record pattern_info := PatternInfo {
  name : str;
  pattern : regex;
  description : str;
  validator : option (re_match → str → result Z)
}.

(** [self.patterns], in the order of the dictionary. *)
Definition patterns : list (string * pattern_info) :=
  [ ("phone", PatternInfo (u "手机号码") phone_pattern
       (u "11位数字，以1开头，第二位是3-9，可能带有+86前缀") (Some _validate_phone));
    ("landline", PatternInfo (u "座机号码") landline_pattern
       (u "区号(可选)+7-8位数字") (Some _validate_landline));
    ("id_card", PatternInfo (u "身份证号") id_card_pattern
       (u "18位数字，最后一位可能是X") (Some _validate_id_card));
    ("address", PatternInfo (u "家庭住址") address_pattern
       (u "包含省市区县、路街道等信息的地址") (Some _validate_address));
    ("email", PatternInfo (u "电子邮箱") email_pattern
       (u "标准电子邮箱格式") (Some _validate_email));
    ("password", PatternInfo (u "密码") password_pattern
       (u "密码标识后跟随的6-20位字符") (Some _validate_password));
    ("credit_card", PatternInfo (u "银行卡号") credit_card_pattern
       (u "16-19位数字，可能有空格分隔") (Some _validate_credit_card));
    ("ip_address", PatternInfo (u "IP地址") ip_address_pattern
       (u "标准IPv4地址格式") (Some _validate_ip_address)) ].

(** [self.patterns[type_id]], [None] when [type_id not in self.patterns] *)
Fixpoint lookup_pattern (type_id : string) (l : list (string * pattern_info))
    : option pattern_info :=
  match l with
  | [] => None
  | (k, info) :: l' => if String.eqb type_id k then Some info else lookup_pattern type_id l'
  end.

Record detector := Detector {
  enabled_types : gset string;
  confidence_threshold : Z
}.

(** [__init__] *)
Definition init : detector :=
  Detector (list_to_set (map fst patterns)) 50.

(** [get_available_info_types] *)
Definition get_available_info_types : list (string * str * str) :=
  map (λ p, (fst p, name (snd p), description (snd p))) patterns.

(** The loop that checks requested identifiers: the first one that is not
    registered raises. *)
Fixpoint check_type_ids (type_ids : list string) : result unit :=
  match type_ids with
  | [] => Ok ()
  | type_id :: rest =>
      match lookup_pattern type_id patterns with
      | None => Raise (ValueError_type_id type_id)
      | Some _ => check_type_ids rest
      end
  end.

Definition set_enabled_types (self : detector) (type_ids : list string) : result detector :=
  _ ← check_type_ids type_ids;
  Ok (Detector (list_to_set type_ids) (confidence_threshold self)).

Definition set_confidence_threshold (self : detector) (threshold : Z) : result detector :=
  if (threshold <? 0) || (100 <? threshold) then Raise ValueError_threshold
  else Ok (Detector (enabled_types self) threshold).

(** *** Detection *)

(** One reported match: the dictionary with the keys [value], [start], [end],
    [context] and [confidence]. *)
Record entry := Entry {
  value : str;
  start : Z;
  end_ : Z;
  context : str;
  confidence : Z
}.

(** [results[type_id].append(e)] on a [defaultdict(list)] *)
Definition append (type_id : string) (e : entry)
    (results : gmap string (list entry)) : gmap string (list entry) :=
  <[type_id := default [] (results !! type_id) ++ [e]]> results.

(** The entry built for an accepted match.  For [password] the value and the
    offsets are those of group 1; the group is not optional in the pattern,
    so a match always has it (see [password_match_shape]), and the model treats a
    match without it like one of the other types. *)
Definition make_entry (type_id : string) (m : re_match) (text : str)
    (confidence : Z) : entry :=
  match String.eqb type_id "password" && groups m, m_span1 m with
  | true, Some (start1, end1) =>
      Entry (slice (m_string m) start1 end1) start1 end1
            (_get_context text start1 end1 20) confidence
  | _, _ =>
      Entry (group m) (m_start m) (m_end m)
            (_get_context text (m_start m) (m_end m) 20) confidence
  end.

(** The loop over the matches of one type. *)
Fixpoint scan_matches (self : detector) (type_id : string)
    (validator : option (re_match → str → result Z)) (text : str)
    (ms : list re_match) (results : gmap string (list entry))
    : result (gmap string (list entry)) :=
  match ms with
  | [] => Ok results
  | m :: ms' =>
      confidence ← match validator with
                   | Some v => v m text
                   | None => Ok 100
                   end;
      if confidence <? confidence_threshold self
      then scan_matches self type_id validator text ms' results
      else scan_matches self type_id validator text ms'
             (append type_id (make_entry type_id m text confidence) results)
  end.

(** The loop over the requested types. *)
Fixpoint scan_types (self : detector) (text : str) (type_ids : list string)
    (results : gmap string (list entry)) : result (gmap string (list entry)) :=
  match type_ids with
  | [] => Ok results
  | type_id :: rest =>
      match lookup_pattern type_id patterns with
      | None => scan_types self text rest results
      | Some info =>
          results ← scan_matches self type_id (validator info) text
                       (finditer true (pattern info) text) results;
          scan_types self text rest results
      end
  end.

(** [detect_sensitive_info(text, info_types)]; a missing argument is [None]. *)
Definition detect_sensitive_info (self : detector) (text : option str)
    (info_types : option (list string)) : result (gmap string (list entry)) :=
  match text with
  | None => Ok ∅
  | Some text =>
      if bool_decide (strip text = []) then Ok ∅
      else
        type_ids ← match info_types with
                   | None => Ok (elements (enabled_types self))
                   | Some info_types =>
                       _ ← check_type_ids info_types; Ok info_types
                   end;
        scan_types self text type_ids ∅
  end.

(** *** The report *)

(** [str(n)] for an integer. *)
Definition str_of_int (n : Z) : str := u (NilZero.string_of_int (Z.to_int n)).

(** ["\n".join(lines)] *)
Fixpoint join_lines (lines : list str) : str :=
  match lines with
  | [] => []
  | [l] => l
  | l :: rest => l ++ 10 :: join_lines rest
  end.

(** The three lines [format_results] writes for the match number [i]. *)
Definition format_match (i : Z) (e : entry) : list str :=
  let confidence_str :=
    if confidence e <? 100
    then u "置信度: " ++ str_of_int (confidence e) ++ u "%"
    else [] in
  [ str_of_int i ++ u ". 值: " ++ value e ++ u " " ++ confidence_str;
    u "   上下文: " ++ context e;
    [] ].

(** [for i, match in enumerate(matches, i)] *)
Fixpoint format_matches (i : Z) (matches : list entry) : list str :=
  match matches with
  | [] => []
  | e :: rest => format_match i e ++ format_matches (i + 1) rest
  end.

(** The loop over [results.items()], the dictionary as the list of its
    items in their order; [None] is the [KeyError] of
    [self.patterns[type_id]]. *)
Fixpoint format_items (items : list (string * list entry)) : option (list str) :=
  match items with
  | [] => Some []
  | (type_id, matches) :: rest =>
      match matches with
      | [] => format_items rest
      | _ :: _ =>
          match lookup_pattern type_id patterns with
          | None => None
          | Some info =>
              lines ← format_items rest;
              Some ((u "## " ++ name info ++ u "（" ++ str_of_int (Z.of_nat (length matches))
                       ++ u "项）")
                    :: format_matches 1 matches ++ lines)
          end
      end
  end.

(** [format_results(results)] *)
Definition format_results (results : list (string * list entry)) : option str :=
  match results with
  | [] => Some (u "未检测到敏感信息。")
  | _ :: _ =>
      lines ← format_items results;
      Some (join_lines ((u "检测到以下敏感信息：" ++ [10]) :: lines))
  end.

(** ** The type selection of the command line ([cli_main.py]) *)

(** [cli_main.main]: [available_types = [t['id'] for t in
    detector.get_available_info_types()]]. *)
Definition available_types : list string :=
  map (λ t, fst (fst t)) get_available_info_types.

(** The loop over [args.types]: the first identifier that is [not in
    available_types], at which the program prints an error and exits. *)
Fixpoint first_invalid (types available : list string) : option string :=
  match types with
  | [] => None
  | type_id :: rest =>
      if bool_decide (type_id ∈ available) then first_invalid rest available
      else Some type_id
  end.

(** The selection of [main]: [inl type_id] is the exit with status 1 at an
    invalid identifier, [inr selected_types] the list passed to
    [detect_sensitive_info].  A missing [--types] is [None]; like an empty
    list, it is false in [if args.types]. *)
Definition select_types (types : option (list string)) : string + list string :=
  match types with
  | Some (type_id :: rest) =>
      match first_invalid (type_id :: rest) available_types with
      | Some bad => inl bad
      | None => inr (type_id :: rest)
      end
  | _ => inr available_types
  end.

(** ** What a match means *)

(** [iter R n s s']: [n] steps of [R] lead from [s] to [s']. *)
Fixpoint iter (R : cursor → cursor → Prop) (n : nat) (s s' : cursor) : Prop :=
  match n with
  | O => s' = s
  | S n' => ∃ m, R s m ∧ iter R n' m s'
  end.

Definition assert_not (icase : bool) (p : Z → bool) (l : str) : Prop :=
  match l with
  | c :: _ => char_test icase p c = false
  | [] => True
  end.

(** [denote icase r s s']: the pattern [r] can match from the cursor [s] to
    the cursor [s'].  This is the relation the matcher searches, without the
    order of the search. *)
Fixpoint denote (icase : bool) (r : regex) (s s' : cursor) : Prop :=
  match r with
  | Empty => s' = s
  | Char p =>
      ∃ c rest, ahead s = c :: rest ∧ char_test icase p c = true
                ∧ s' = advance c rest s
  | Cat r1 r2 => ∃ m, denote icase r1 s m ∧ denote icase r2 m s'
  | Alt r1 r2 => denote icase r1 s s' ∨ denote icase r2 s s'
  | Repeat lo hi r =>
      ∃ n, (lo ≤ n)%nat ∧ (∀ h, hi = Some h → (n ≤ h)%nat)
           ∧ iter (denote icase r) n s s'
  | Group r => ∃ m, denote icase r s m ∧ s' = set_span1 (pos s, pos m) m
  | NotBehind p => s' = s ∧ assert_not icase p (behind s)
  | NotAhead p => s' = s ∧ assert_not icase p (ahead s)
  | WordBoundary => s' = s ∧ xorb (word_at (behind s)) (word_at (ahead s)) = true
  | Bol => s' = s ∧ behind s = []
  | Eol => s' = s ∧ (ahead s = [] ∨ ahead s = [10])
  end.

(** The least number of characters a match of [r] consumes. *)
Fixpoint min_len (r : regex) : nat :=
  match r with
  | Char _ => 1
  | Cat r1 r2 => min_len r1 + min_len r2
  | Alt r1 r2 => min_len r1 `min` min_len r2
  | Repeat lo _ r => lo * min_len r
  | Group r => min_len r
  | _ => 0
  end.

(** The cursor at offset [i] of [string]. *)
Definition cursor_at (string : str) (i : nat) : cursor :=
  Cursor (reverse (take i string)) (drop i string) (Z.of_nat i) None.

(** [m] is a match of [r] somewhere in [string]. *)
Definition is_match (icase : bool) (r : regex) (string : str) (m : re_match) : Prop :=
  ∃ i s', (i ≤ length string)%nat
          ∧ denote icase r (cursor_at string i) s'
          ∧ m = ReMatch string (Z.of_nat i) (pos s') (span1 s') (ngroups r).

(** ** What a result holds *)

(** [w] occurs in [s]. *)
Definition contains (s w : str) : Prop := ∃ a b, s = a ++ w ++ b.

(** The number of matches a result holds for a type: a type that is not a
    key has none. *)
Definition matches_of (results : gmap string (list entry)) (type_id : string)
    : list entry :=
  default [] (results !! type_id).

(** [consumed s w s']: the cursor moved from [s] to [s'] over the word [w]. *)
Definition consumed (s : cursor) (w : str) (s' : cursor) : Prop :=
  ahead s = w ++ ahead s' ∧ behind s' = reverse w ++ behind s
  ∧ pos s' = pos s + len w.

(** A cursor that sits at offset [i] of [string]. *)
Definition sits_at (string : str) (i : nat) (s : cursor) : Prop :=
  behind s = reverse (take i string) ∧ ahead s = drop i string
  ∧ pos s = Z.of_nat i.

(** The confidence the loop gives a match. *)
Definition confidence_of (validator : option (re_match → str → result Z))
    (m : re_match) (text : str) : result Z :=
  match validator with
  | Some v => v m text
  | None => Ok 100
  end.

(** [reported t text type_id e]: the entry [e] is what the loop builds for a
    match of the pattern of [type_id] in [text] whose confidence is at least
    [t]. *)
Definition reported (t : Z) (text : str) (type_id : string) (e : entry) : Prop :=
  ∃ info m c,
    lookup_pattern type_id patterns = Some info
    ∧ m ∈ finditer true (pattern info) text
    ∧ confidence_of (validator info) m text = Ok c
    ∧ t ≤ c
    ∧ e = make_entry type_id m text c.

(** Two runs of the loops that differ in the threshold only: they raise the
    same exception or both return, the run with the higher threshold holding
    at most as many entries for every type. *)
Definition fewer (r1 r2 : result (gmap string (list entry))) : Prop :=
  match r1, r2 with
  | Ok a, Ok b =>
      ∀ type_id, (length (matches_of b type_id) ≤ length (matches_of a type_id))%nat
  | Raise e1, Raise e2 => e1 = e2
  | _, _ => False
  end.

(** [w in s] *)
Fixpoint occurs (w s : str) : bool :=
  startswith s w
  || match s with
     | [] => false
     | _ :: s' => occurs w s'
     end.

(** One of the keywords occurs in [s]. *)
Definition mentions (kws : list string) (s : str) : bool :=
  existsb (λ kw, occurs (u kw) s) kws.

(** A code point that is no ASCII letter. *)
Definition no_letter (x : Z) : Prop := ¬ (65 ≤ x ≤ 90) ∧ ¬ (97 ≤ x ≤ 122).

(** A code point that [casefold] leaves alone and that is the image of
    itself only among ASCII capitals: a small letter or a caseless
    character. *)
Definition folded (x : Z) : Prop :=
  ¬ (65 ≤ x ≤ 90) ∧ x ≠ 304 ∧ x ≠ 305 ∧ x ≠ 383 ∧ x ≠ 8490.

(** A character the password pattern accepts in a credential, with
    [re.IGNORECASE]: [[a-zA-Z0-9@#$%^&*]]. *)
Definition credential_char (c : Z) : Prop :=
  char_test true (union [letter; between "0" "9"; one_of "@#$%^&*"]) c = true.

(** ** The checksum of the specification *)




(** ** What the loops compute, and what patterns can match *)

(** The entries the loop over the matches of one type keeps, in the order of
    the matches, or the exception of the first validator that raises. *)
Fixpoint kept (t : Z) (type_id : string)
    (validator : option (re_match → str → result Z)) (text : str)
    (ms : list re_match) : result (list entry) :=
  match ms with
  | [] => Ok []
  | m :: ms' =>
      c ← confidence_of validator m text;
      es ← kept t type_id validator text ms';
      Ok (if c <? t then es else make_entry type_id m text c :: es)
  end.

(** What one request for [type_id] adds to the result: nothing for an
    identifier that is not registered. *)
Definition found (t : Z) (text : str) (type_id : string) : result (list entry) :=
  match lookup_pattern type_id patterns with
  | None => Ok []
  | Some info =>
      kept t type_id (validator info) text (finditer true (pattern info) text)
  end.

(** [results[type_id].extend(es)] on the [defaultdict]. *)
Definition extend (type_id : string) (es : list entry)
    (results : gmap string (list entry)) : gmap string (list entry) :=
  foldl (λ r e, append type_id e r) results es.

(** The number of times [k] is requested. *)
Definition times_requested (k : string) (type_ids : list string) : nat :=
  length (filter (λ x, x = k) type_ids).

(** A result without an empty list: a key is there only with entries. *)
Definition no_empty_list (results : gmap string (list entry)) : Prop :=
  ∀ k l, results !! k = Some l → l ≠ [].

(** The identifiers a call scans. *)
Definition requested (self : detector) (info_types : option (list string))
    : list string :=
  match info_types with
  | None => elements (enabled_types self)
  | Some info_types => info_types
  end.

(** The scores a validator can return, read off its [return] statements. *)
Definition scores (type_id : string) : list Z :=
  if String.eqb type_id "phone" then [0; 100; 80]
  else if String.eqb type_id "landline" then [0; 100; 70]
  else if String.eqb type_id "id_card" then [0; 100; 90]
  else if String.eqb type_id "address" then [100; 0; 80]
  else if String.eqb type_id "email" then [0; 100; 30; 80]
  else if String.eqb type_id "password" then [100; 90]
  else if String.eqb type_id "credit_card" then [0; 100; 80]
  else if String.eqb type_id "ip_address" then [0; 100; 50; 70]
  else [].

(** Every open repetition of [r] consumes a character in each round. *)
Fixpoint productive (r : regex) : Prop :=
  match r with
  | Cat r1 r2 | Alt r1 r2 => productive r1 ∧ productive r2
  | Repeat _ hi r => productive r ∧ (hi = None → (1 ≤ min_len r)%nat)
  | Group r => productive r
  | _ => True
  end.

(** Every character test of [r] implies [Q]. *)
Fixpoint leaves (icase : bool) (Q : Z → Prop) (r : regex) : Prop :=
  match r with
  | Char p => ∀ c, char_test icase p c = true → Q c
  | Cat r1 r2 | Alt r1 r2 => leaves icase Q r1 ∧ leaves icase Q r2
  | Repeat _ _ r | Group r => leaves icase Q r
  | _ => True
  end.

(** Every character set of [r] holds the same characters with and without
    [re.IGNORECASE]. *)
Fixpoint case_closed (r : regex) : Prop :=
  match r with
  | Char p => ∀ c, char_test true p c = true → p c = true
  | Cat r1 r2 | Alt r1 r2 => case_closed r1 ∧ case_closed r2
  | Repeat _ _ r | Group r => case_closed r
  | _ => True
  end.

(** [r] looks at nothing but the characters it consumes. *)
Fixpoint anchor_free (r : regex) : Prop :=
  match r with
  | Empty | Char _ => True
  | Cat r1 r2 | Alt r1 r2 => anchor_free r1 ∧ anchor_free r2
  | Repeat _ _ r | Group r => anchor_free r
  | _ => False
  end.

(** A word the octet pattern matches: one to three ASCII digits that
    [int] reads as a number up to 255. *)
Definition octet_word (w : str) : Prop :=
  w ≠ [] ∧ Forall (λ c, 48 ≤ c ≤ 57) w ∧ ∃ n, int w = Ok n ∧ n ≤ 255.

(** The detectors the constructor and the two setters produce. *)
Inductive configured : detector → Prop :=
| configured_init : configured init
| configured_types self type_ids self' :
    configured self → set_enabled_types self type_ids = Ok self' → configured self'
| configured_threshold self threshold self' :
    configured self → set_confidence_threshold self threshold = Ok self' →
    configured self'.

(** Every match of [r] consumes a character that satisfies [Q]. *)
Fixpoint needs (icase : bool) (Q : Z → Prop) (r : regex) : Prop :=
  match r with
  | Char p => ∀ c, char_test icase p c = true → Q c
  | Cat r1 r2 => needs icase Q r1 ∨ needs icase Q r2
  | Alt r1 r2 => needs icase Q r1 ∧ needs icase Q r2
  | Repeat lo _ r => (1 ≤ lo)%nat ∧ needs icase Q r
  | Group r => needs icase Q r
  | _ => False
  end.

(** A mobile number as the phone pattern reads it: [1], a digit from 3 to
    9, and nine digits. *)
Definition phone_number (w : str) : Prop :=
  ∃ c2 rest, w = 49 :: c2 :: rest ∧ 51 ≤ c2 ≤ 57 ∧ length rest = 9%nat
             ∧ Forall (λ c, Unicode.isdecimal c = true) rest.




(** ** Proof steps *)

(** Decode the literals of the goal. *)
Ltac eval_u :=
  repeat match goal with
         | |- context [u ?s] =>
             let t := eval vm_compute in (u s) in change (u s) with t
         end.

(** Case analysis on the integer comparisons in sight. *)
Ltac case_bools :=
  repeat match goal with
         | |- context [Z.leb ?a ?b] => destruct (Z.leb_spec a b)
         | |- context [Z.eqb ?a ?b] => destruct (Z.eqb_spec a b)
         | H : context [Z.leb ?a ?b] |- _ => destruct (Z.leb_spec a b)
         | H : context [Z.eqb ?a ?b] |- _ => destruct (Z.eqb_spec a b)
         end; simpl in *.

(** ** The matcher finds only matches *)

Section soundness.
Context {A : Type}.

Lemma repeat_loop_sound (body : (cursor → option A) → cursor → option A)
    (R : cursor → cursor → Prop) lo k :
  (∀ k s x, body k s = Some x → ∃ s', R s s' ∧ k s' = Some x) →
  ∀ fuel n s x,
    repeat_loop body lo k fuel n s = Some x →
    ∃ j s', iter R j s s' ∧ (lo ≤ n + j)%nat ∧ (j ≤ fuel)%nat ∧ k s' = Some x.
Proof.
  intros Hbody. induction fuel as [|fuel IH]; intros n s x; simpl.
  - destruct (Nat.leb_spec lo n); [|done]. intros Hk.
    exists O, s. simpl. split_and!; [done | lia | lia | done].
  - destruct (body _ s) as [y|] eqn:Hb.
    + intros [= ->]. apply Hbody in Hb as (m & Hm & Hloop).
      apply IH in Hloop as (j & s' & Hit & Hlo & Hj & Hk).
      exists (S j), s'. simpl. split_and!; [eauto | lia | lia | done].
    + destruct (Nat.leb_spec lo n); [|done]. intros Hk.
      exists O, s. simpl. split_and!; [done | lia | lia | done].
Qed.
End soundness.

Lemma run_sound {A} icase r : ∀ (k : cursor → option A) s x,
  run icase r k s = Some x → ∃ s', denote icase r s s' ∧ k s' = Some x.
Proof.
  induction r as [|p|r1 IH1 r2 IH2|r1 IH1 r2 IH2|lo hi r IH|r IH|p|p| | |];
    intros k s x; simpl.
  - eauto.
  - destruct (ahead s) as [|c rest] eqn:Ha; [done|].
    destruct (char_test icase p c) eqn:Hp; [|done]. eauto 10.
  - intros H. apply IH1 in H as (m & H1 & H). apply IH2 in H as (s' & H2 & H).
    eauto.
  - destruct (run icase r1 k s) eqn:H1.
    + intros [= ->]. apply IH1 in H1 as (s' & ? & ?). eauto.
    + intros H2. apply IH2 in H2 as (s' & ? & ?). eauto.
  - intros H.
    apply (repeat_loop_sound _ (denote icase r)) in H as (j & s' & Hit & Hlo & Hj & Hk);
      [|exact IH].
    exists s'. split; [|done]. exists j. split_and!; [lia | | done].
    intros h ->. lia.
  - intros H. apply IH in H as (m & ? & ?). eauto.
  - unfold assert_not. destruct (behind s) as [|c ?]; [by eauto|].
    destruct (char_test icase p c) eqn:Hp; [done|]. by eauto.
  - unfold assert_not. destruct (ahead s) as [|c ?]; [by eauto|].
    destruct (char_test icase p c) eqn:Hp; [done|]. by eauto.
  - destruct (xorb _ _) eqn:Hx; [|done]. eauto.
  - destruct (behind s) eqn:Hb; [|done]. eauto.
  - destruct (ahead s) as [|c [|? ?]] eqn:Ha; [by eauto| |done].
    destruct (Z.eqb_spec c 10) as [->|]; [|done]. eauto.
Qed.

(** ** Where a match lies in the subject *)

Lemma consumed_nil s : consumed s [] s.
Proof. unfold consumed, len. simpl. split_and!; [done | done | lia]. Qed.

Lemma consumed_app s1 w1 s2 w2 s3 :
  consumed s1 w1 s2 → consumed s2 w2 s3 → consumed s1 (w1 ++ w2) s3.
Proof.
  unfold consumed, len. intros (Ha1 & Hb1 & Hp1) (Ha2 & Hb2 & Hp2).
  rewrite Ha1, Ha2, Hb2, Hb1, reverse_app, length_app, Hp2, Hp1.
  rewrite <- !(assoc_L (++)). split_and!; [done | done | lia].
Qed.

Lemma consumed_advance s c rest :
  ahead s = c :: rest → consumed s [c] (advance c rest s).
Proof. unfold consumed, len. simpl. intros ->. split_and!; [done | done | lia]. Qed.

Lemma consumed_set_span1 s w s' sp :
  consumed s w s' → consumed s w (set_span1 sp s').
Proof. done. Qed.

Lemma iter_consumes (R : cursor → cursor → Prop) :
  (∀ s s', R s s' → ∃ w, consumed s w s') →
  ∀ n s s', iter R n s s' → ∃ w, consumed s w s'.
Proof.
  intros HR. induction n as [|n IH]; intros s s'; simpl.
  - intros ->. exists []. apply consumed_nil.
  - intros (m & Hm & Hit). apply HR in Hm as [w1 H1]. apply IH in Hit as [w2 H2].
    exists (w1 ++ w2). by eapply consumed_app.
Qed.

Lemma denote_consumes icase r : ∀ s s',
  denote icase r s s' → ∃ w, consumed s w s'.
Proof.
  induction r as [|p|r1 IH1 r2 IH2|r1 IH1 r2 IH2|lo hi r IH|r IH|p|p| | |];
    intros s s'; simpl.
  - intros ->. exists []. apply consumed_nil.
  - intros (c & rest & Ha & _ & ->). exists [c]. by apply consumed_advance.
  - intros (m & H1 & H2). apply IH1 in H1 as [w1 H1]. apply IH2 in H2 as [w2 H2].
    exists (w1 ++ w2). by eapply consumed_app.
  - intros [H|H]; [by apply IH1 | by apply IH2].
  - intros (n & _ & _ & Hit). by eapply iter_consumes.
  - intros (m & H & ->). apply IH in H as [w H]. by exists w.
  - intros [-> _]. exists []. apply consumed_nil.
  - intros [-> _]. exists []. apply consumed_nil.
  - intros [-> _]. exists []. apply consumed_nil.
  - intros [-> _]. exists []. apply consumed_nil.
  - intros [-> _]. exists []. apply consumed_nil.
Qed.

Lemma sits_at_cursor_at string i : sits_at string i (cursor_at string i).
Proof. done. Qed.

Lemma drop_cons_inv {X} (l : list X) i c rest :
  drop i l = c :: rest →
  take (S i) l = take i l ++ [c] ∧ drop (S i) l = rest ∧ (i < length l)%nat.
Proof.
  intros Hd.
  assert (l !! i = Some c) as Hl.
  { rewrite <- (Nat.add_0_r i), <- lookup_drop, Hd. done. }
  split_and!.
  - by apply take_S_r.
  - rewrite (drop_S _ _ _ Hl) in Hd. by injection Hd.
  - by eapply lookup_lt_Some.
Qed.

Lemma consumed_sits_at string i s w s' :
  (i ≤ length string)%nat → sits_at string i s → consumed s w s' →
  sits_at string (i + length w) s' ∧ drop i string = w ++ drop (i + length w) string
  ∧ (i + length w ≤ length string)%nat.
Proof.
  intros Hi (Hb & Ha & Hp) (Ha' & Hb' & Hp').
  assert (drop i string = w ++ ahead s') as Hd by congruence.
  assert (ahead s' = drop (i + length w) string) as Hs'.
  { rewrite <- drop_drop, Hd, drop_app_length. done. }
  assert (i + length w ≤ length string)%nat as Hle.
  { apply (f_equal length) in Hd. rewrite length_drop, length_app in Hd. lia. }
  split_and!; [|congruence|done].
  unfold sits_at. split_and!.
  - rewrite Hb', Hb, <- reverse_app. f_equal.
    by rewrite <- take_take_drop, Hd, take_app_length.
  - done.
  - unfold len in Hp'. lia.
Qed.

(** ** What [re.match], [re.search] and [re.finditer] return *)

Lemma match_here_sound icase r string s m :
  match_here icase r string s = Some m →
  ∃ s', denote icase r s s'
        ∧ m = ReMatch string (pos s) (pos s') (span1 s') (ngroups r).
Proof.
  unfold match_here. intros H. apply run_sound in H as (s' & Hd & [= <-]). eauto.
Qed.

Lemma match_here_is_match icase r string i m :
  (i ≤ length string)%nat →
  match_here icase r string (cursor_at string i) = Some m →
  is_match icase r string m.
Proof.
  intros Hi H. apply match_here_sound in H as (s' & Hd & ->).
  exists i, s'. done.
Qed.

Lemma re_match_sound icase r string m :
  re_match_ icase r string = Some m →
  ∃ s', denote icase r (cursor_at string 0) s'
        ∧ m = ReMatch string 0 (pos s') (span1 s') (ngroups r).
Proof.
  unfold re_match_. intros H.
  change (Cursor [] string 0 None) with (cursor_at string 0) in H.
  by apply match_here_sound in H.
Qed.

Lemma search_at_sound icase r string m : ∀ after i,
  (i ≤ length string)%nat → after = drop i string →
  search_at icase r string (reverse (take i string)) (Z.of_nat i) after = Some m →
  is_match icase r string m.
Proof.
  induction after as [|c rest IH]; intros i Hi Hafter; simpl.
  - rewrite Hafter. fold (cursor_at string i).
    destruct (match_here _ _ _ _) eqn:Hm; [|done].
    intros [= <-]. by apply (match_here_is_match _ _ _ i).
  - rewrite Hafter. fold (cursor_at string i).
    destruct (match_here _ _ _ _) eqn:Hm.
    { intros [= <-]. by apply (match_here_is_match _ _ _ i). }
    symmetry in Hafter. apply drop_cons_inv in Hafter as (Ht & Hd & Hlt).
    replace (c :: reverse (take i string)) with (reverse (take (S i) string))
      by (by rewrite Ht, reverse_snoc).
    replace (Z.of_nat i + 1) with (Z.of_nat (S i)) by lia.
    apply IH; [lia | done].
Qed.

Lemma search_sound icase r string m :
  search icase r string = Some m → is_match icase r string m.
Proof.
  unfold search. intros H. apply (search_at_sound _ _ _ _ string O); [lia|done|done].
Qed.

Lemma finditer_at_sound icase r string m : ∀ after i skip,
  (i ≤ length string)%nat → after = drop i string →
  m ∈ finditer_at icase r string (reverse (take i string)) (Z.of_nat i) after skip →
  is_match icase r string m.
Proof.
  assert (∀ c rest i, drop i string = c :: rest →
            c :: reverse (take i string) = reverse (take (S i) string)
            ∧ Z.of_nat i + 1 = Z.of_nat (S i) ∧ rest = drop (S i) string
            ∧ (S i ≤ length string)%nat) as Hstep.
  { intros c rest i Hd. apply drop_cons_inv in Hd as (Ht & Hd & Hlt).
    rewrite Ht, reverse_snoc. split_and!; [done | lia | done | lia]. }
  induction after as [|c rest IH]; intros i skip Hi Hafter.
  - destruct skip as [|skip]; simpl; [|intros Hnil; by apply elem_of_nil in Hnil].
    rewrite Hafter. fold (cursor_at string i).
    destruct (match_here _ _ _ _) eqn:Hm; [|intros Hnil; by apply elem_of_nil in Hnil].
    intros ->%list_elem_of_singleton. by apply (match_here_is_match _ _ _ i).
  - symmetry in Hafter. pose proof (Hstep _ _ _ Hafter) as (Hb & Hz & Hr & Hle).
    destruct skip as [|skip]; simpl; rewrite Hb, Hz.
    + rewrite <- Hafter. fold (cursor_at string i).
      destruct (match_here _ _ _ _) eqn:Hm.
      * intros [->|Hin]%elem_of_cons; [by apply (match_here_is_match _ _ _ i)|].
        by eapply IH.
      * by apply IH.
    + by apply IH.
Qed.

Lemma finditer_sound icase r string m :
  m ∈ finditer icase r string → is_match icase r string m.
Proof.
  unfold finditer. apply (finditer_at_sound _ _ _ _ string O); [lia|done].
Qed.

(** ** Matches consume characters *)

Lemma iter_min_len (R : cursor → cursor → Prop) (k : nat) :
  (∀ s s', R s s' → (length (ahead s') + k ≤ length (ahead s))%nat) →
  ∀ n s s', iter R n s s' → (length (ahead s') + n * k ≤ length (ahead s))%nat.
Proof.
  intros HR. induction n as [|n IH]; intros s s'; simpl.
  - intros ->. lia.
  - intros (m & Hm & Hit). apply HR in Hm. apply IH in Hit. lia.
Qed.

Lemma denote_min_len icase r : ∀ s s',
  denote icase r s s' → (length (ahead s') + min_len r ≤ length (ahead s))%nat.
Proof.
  induction r as [|p|r1 IH1 r2 IH2|r1 IH1 r2 IH2|lo hi r IH|r IH|p|p| | |];
    intros s s'; simpl.
  - intros ->. lia.
  - intros (c & rest & Ha & _ & ->). rewrite Ha. simpl. lia.
  - intros (m & H1 & H2). apply IH1 in H1. apply IH2 in H2. lia.
  - destruct (Nat.min_spec (min_len r1) (min_len r2)) as [[Hle ->]|[Hle ->]];
      (intros [H|H]; [apply IH1 in H|apply IH2 in H]; lia).
  - intros (n & Hlo & _ & Hit). apply (iter_min_len _ _ IH) in Hit. nia.
  - intros (m & H & ->). apply IH in H. simpl. lia.
  - intros [-> _]. lia.
  - intros [-> _]. lia.
  - intros [-> _]. lia.
  - intros [-> _]. lia.
  - intros [-> _]. lia.
Qed.

(** No pattern of the registry matches the empty string, so the scan of
    [finditer_at] always moves on after a match. *)
Lemma registry_matches_not_empty :
  Forall (λ p, (6 ≤ min_len (pattern (snd p)))%nat) patterns.
Proof.
  unfold patterns.
  repeat (apply Forall_cons; split; [vm_compute; lia|]). by apply Forall_nil.
Qed.

Lemma lookup_pattern_elem type_id l info :
  lookup_pattern type_id l = Some info → ∃ k, (k, info) ∈ l.
Proof.
  induction l as [|[k i] l IH]; [done|].
  unfold lookup_pattern; fold lookup_pattern.
  destruct (String.eqb type_id k).
  - intros [= ->]. exists k. by apply elem_of_cons; left.
  - intros [k' Hin]%IH. exists k'. by apply elem_of_cons; right.
Qed.

Lemma finditer_not_empty type_id info text m :
  lookup_pattern type_id patterns = Some info →
  m ∈ finditer true (pattern info) text → m_start m + 6 ≤ m_end m.
Proof.
  intros [k Hinfo]%lookup_pattern_elem (i & s' & Hi & Hd & ->)%finditer_sound.
  pose proof (proj1 (Forall_forall _ _) registry_matches_not_empty _ Hinfo) as Hmin.
  apply denote_consumes in Hd as Hc. destruct Hc as (w & Ha & _ & Hp).
  apply denote_min_len in Hd. rewrite Ha, length_app in Hd.
  cbn [m_start m_end cursor_at pos snd] in *. unfold len in Hp. lia.
Qed.

(** ** The bound of an open repetition *)

(** The matcher calls its continuation only at cursors that lie at least
    [min_len r] characters further. *)
Lemma repeat_loop_ext {A} (body : (cursor → option A) → cursor → option A)
    (step : nat) lo :
  (∀ k k' s,
     (∀ s', (length (ahead s') + step ≤ length (ahead s))%nat → k s' = k' s') →
     body k s = body k' s) →
  ∀ fuel n (k k' : cursor → option A) s,
    (∀ s', (length (ahead s') + (lo - n) * step ≤ length (ahead s))%nat →
           k s' = k' s') →
    repeat_loop body lo k fuel n s = repeat_loop body lo k' fuel n s.
Proof.
  intros Hbody. induction fuel as [|fuel IH]; intros n k k' s Hk; simpl.
  - destruct (Nat.leb_spec lo n); [|done]. apply Hk.
    replace (lo - n)%nat with O by lia. lia.
  - rewrite (Hbody (repeat_loop body lo k fuel (S n))
                   (repeat_loop body lo k' fuel (S n))).
    + destruct (body _ s); [done|].
      destruct (Nat.leb_spec lo n); [|done]. apply Hk.
      replace (lo - n)%nat with O by lia. lia.
    + intros s1 Hs1. apply IH. intros s' Hs'. apply Hk.
      destruct (Nat.le_gt_cases lo n).
      * replace (lo - n)%nat with O by lia.
        replace (lo - S n)%nat with O in Hs' by lia. lia.
      * replace (lo - n)%nat with (S (lo - S n)) by lia. lia.
Qed.

Lemma run_ext {A} icase r : ∀ (k k' : cursor → option A) s,
  (∀ s', (length (ahead s') + min_len r ≤ length (ahead s))%nat → k s' = k' s') →
  run icase r k s = run icase r k' s.
Proof.
  induction r as [|p|r1 IH1 r2 IH2|r1 IH1 r2 IH2|lo hi r IH|r IH|p|p| | |];
    intros k k' s Hk; cbn [min_len] in Hk; simpl.
  - apply Hk. lia.
  - destruct (ahead s) as [|c rest] eqn:Ha; [done|].
    destruct (char_test icase p c); [|done]. apply Hk. simpl. lia.
  - apply IH1. intros s1 Hs1. apply IH2. intros s' Hs'. apply Hk. lia.
  - destruct (Nat.min_spec (min_len r1) (min_len r2)) as [[Hle Hmin]|[Hle Hmin]];
      rewrite Hmin in Hk.
    + rewrite (IH1 k k') by (intros; apply Hk; lia).
      rewrite (IH2 k k') by (intros; apply Hk; lia). done.
    + rewrite (IH1 k k') by (intros; apply Hk; lia).
      rewrite (IH2 k k') by (intros; apply Hk; lia). done.
  - apply (repeat_loop_ext _ (min_len r)); [exact IH|].
    intros s' Hs'. apply Hk. rewrite Nat.sub_0_r in Hs'. lia.
  - apply IH. intros s' Hs'. apply Hk. simpl. lia.
  - rewrite (Hk s) by lia. done.
  - rewrite (Hk s) by lia. done.
  - rewrite (Hk s) by lia. done.
  - rewrite (Hk s) by lia. done.
  - rewrite (Hk s) by lia. done.
Qed.

(** A match succeeds through its continuation only. *)
Lemma run_fail {A} icase r s : run icase r (λ _, @None A) s = None.
Proof.
  destruct (run icase r (λ _, None) s) eqn:H; [|done].
  by apply run_sound in H as (s' & _ & ?).
Qed.

(** The fuel of an open repetition, one round per character left, never
    cuts a repetition short when a round consumes a character: more fuel
    gives the same result. *)
Lemma repeat_loop_fuel {A} icase r lo (k : cursor → option A) :
  (1 ≤ min_len r)%nat →
  ∀ fuel n s, (length (ahead s) ≤ fuel)%nat →
    repeat_loop (run icase r) lo k (S fuel) n s
    = repeat_loop (run icase r) lo k fuel n s.
Proof.
  intros Hmin. induction fuel as [|fuel IH]; intros n s Hlen.
  - simpl. rewrite (run_ext _ _ _ (λ _, None)), run_fail; [done|].
    intros s' Hs'. lia.
  - change (repeat_loop (run icase r) lo k (S (S fuel)) n s)
      with (match run icase r (repeat_loop (run icase r) lo k (S fuel) (S n)) s with
            | Some x => Some x
            | None => if (lo <=? n)%nat then k s else None
            end).
    rewrite (run_ext _ _ _ (repeat_loop (run icase r) lo k fuel (S n))); [done|].
    intros s' Hs'. apply IH. lia.
Qed.

(** ** The detection loop *)

Arguments lookup_pattern : simpl never.

Lemma matches_of_append type_id e results k :
  matches_of (append type_id e results) k
  = matches_of results k ++ (if decide (type_id = k) then [e] else []).
Proof.
  unfold matches_of, append. rewrite lookup_insert.
  destruct (decide (type_id = k)) as [->|]; simpl; [done|].
  by rewrite app_nil_r.
Qed.

Lemma matches_of_empty k : matches_of ∅ k = [].
Proof. unfold matches_of. by rewrite lookup_empty. Qed.

Lemma scan_matches_reported (P : string → entry → Prop) self type_id v text :
  ∀ ms results results',
    (∀ k e, e ∈ matches_of results k → P k e) →
    (∀ m c, m ∈ ms → confidence_of v m text = Ok c →
            confidence_threshold self ≤ c →
            P type_id (make_entry type_id m text c)) →
    scan_matches self type_id v text ms results = Ok results' →
    ∀ k e, e ∈ matches_of results' k → P k e.
Proof.
  induction ms as [|m ms IH]; intros results results' Hres Hms; simpl.
  - by intros [= <-].
  - fold (confidence_of v m text).
    destruct (confidence_of v m text) as [c|] eqn:Hc; simpl; [|done].
    assert (∀ m' c', m' ∈ ms → confidence_of v m' text = Ok c' →
              confidence_threshold self ≤ c' →
              P type_id (make_entry type_id m' text c')) as Hms'.
    { intros m' c' Hin. apply Hms. by apply elem_of_cons; right. }
    destruct (Z.ltb_spec c (confidence_threshold self)) as [Hlt|Hge].
    + by apply IH.
    + apply IH; [|done]. intros k e. rewrite matches_of_append.
      intros [Hin|Hin]%elem_of_app; [by apply Hres|].
      destruct (decide (type_id = k)) as [<-|]; [|by apply elem_of_nil in Hin].
      apply list_elem_of_singleton in Hin as ->.
      apply Hms; [by apply elem_of_cons; left | done | done].
Qed.

Lemma scan_types_reported self text : ∀ type_ids results results',
  (∀ k e, e ∈ matches_of results k → reported (confidence_threshold self) text k e) →
  scan_types self text type_ids results = Ok results' →
  ∀ k e, e ∈ matches_of results' k → reported (confidence_threshold self) text k e.
Proof.
  induction type_ids as [|type_id rest IH]; intros results results' Hres; simpl.
  - by intros [= <-].
  - destruct (lookup_pattern type_id patterns) as [info|] eqn:Hinfo; [|by apply IH].
    destruct (scan_matches _ _ _ _ _ _) as [results1|] eqn:Hscan; simpl; [|done].
    apply IH.
    eapply scan_matches_reported; [exact Hres| |exact Hscan].
    intros m c Hm Hc Hge. by exists info, m, c.
Qed.

(** Every entry of a result is [reported]. *)
Lemma detect_reported self text info_types results type_id e :
  detect_sensitive_info self text info_types = Ok results →
  e ∈ matches_of results type_id →
  ∃ text', text = Some text'
           ∧ reported (confidence_threshold self) text' type_id e.
Proof.
  unfold detect_sensitive_info.
  assert (∀ k e', e' ∈ matches_of (∅ : gmap string (list entry)) k → False) as Hempty.
  { intros k e'. rewrite matches_of_empty. apply elem_of_nil. }
  destruct text as [text|]; [|intros [= <-] Hin; by apply Hempty in Hin].
  case_bool_decide; [intros [= <-] Hin; by apply Hempty in Hin|].
  intros Hdet Hin. exists text. split; [done|].
  destruct info_types as [info_types|]; simpl in Hdet.
  - destruct (check_type_ids info_types); simpl in Hdet; [|done].
    eapply scan_types_reported; [|exact Hdet|exact Hin].
    intros k e' Hin'. by apply Hempty in Hin'.
  - eapply scan_types_reported; [|exact Hdet|exact Hin].
    intros k e' Hin'. by apply Hempty in Hin'.
Qed.

Lemma scan_matches_complete self type_id v text : ∀ ms results results',
  scan_matches self type_id v text ms results = Ok results' →
  (∀ k e, e ∈ matches_of results k → e ∈ matches_of results' k)
  ∧ (∀ m c, m ∈ ms → confidence_of v m text = Ok c →
            confidence_threshold self ≤ c →
            make_entry type_id m text c ∈ matches_of results' type_id).
Proof.
  induction ms as [|m ms IH]; intros results results'; simpl.
  - intros [= <-]. split; [done|]. intros m c Hin. by apply elem_of_nil in Hin.
  - fold (confidence_of v m text).
    destruct (confidence_of v m text) as [c|] eqn:Hc; simpl; [|done].
    destruct (Z.ltb_spec c (confidence_threshold self)) as [Hlt|Hge]; intros Hscan.
    + destruct (IH _ _ Hscan) as [Hkeep Hnew]. split; [done|].
      intros m' c' [->|Hin]%elem_of_cons Hc' Hge'; [|by eapply Hnew].
      rewrite Hc in Hc'. injection Hc' as <-. lia.
    + destruct (IH _ _ Hscan) as [Hkeep Hnew]. split.
      * intros k e He. apply Hkeep. rewrite matches_of_append.
        apply elem_of_app. by left.
      * intros m' c' [->|Hin]%elem_of_cons Hc' Hge'; [|by eapply Hnew].
        rewrite Hc in Hc'. injection Hc' as <-.
        apply Hkeep. rewrite matches_of_append, decide_True by done.
        apply elem_of_app. right. by apply list_elem_of_singleton.
Qed.

Lemma scan_types_complete self text : ∀ type_ids results results',
  scan_types self text type_ids results = Ok results' →
  (∀ k e, e ∈ matches_of results k → e ∈ matches_of results' k)
  ∧ (∀ type_id info m c,
       type_id ∈ type_ids → lookup_pattern type_id patterns = Some info →
       m ∈ finditer true (pattern info) text →
       confidence_of (validator info) m text = Ok c →
       confidence_threshold self ≤ c →
       make_entry type_id m text c ∈ matches_of results' type_id).
Proof.
  induction type_ids as [|t rest IH]; intros results results'; simpl.
  - intros [= <-]. split; [done|]. intros ? ? ? ? Hin. by apply elem_of_nil in Hin.
  - destruct (lookup_pattern t patterns) as [info|] eqn:Hinfo.
    + destruct (scan_matches _ _ _ _ _ _) as [results1|] eqn:Hscan; simpl; [|done].
      intros Hrest. destruct (IH _ _ Hrest) as [Hkeep Hnew].
      destruct (scan_matches_complete _ _ _ _ _ _ _ Hscan) as [Hkeep1 Hnew1].
      split; [by auto|].
      intros type_id info' m c [->|Hin]%elem_of_cons Hinfo' Hm Hc Hge;
        [|by eapply Hnew].
      rewrite Hinfo in Hinfo'. injection Hinfo' as <-.
      apply Hkeep. by eapply Hnew1.
    + intros Hrest. destruct (IH _ _ Hrest) as [Hkeep Hnew]. split; [done|].
      intros type_id info' m c [->|Hin]%elem_of_cons Hinfo' Hm Hc Hge;
        [congruence|by eapply Hnew].
Qed.

Lemma make_entry_confidence type_id m text c :
  confidence (make_entry type_id m text c) = c.
Proof.
  unfold make_entry.
  destruct (String.eqb type_id "password" && groups m); [|done].
  by destruct (m_span1 m) as [[? ?]|].
Qed.

Lemma matches_of_lookup (results : gmap string (list entry)) type_id es :
  results !! type_id = Some es → matches_of results type_id = es.
Proof. unfold matches_of. by intros ->. Qed.

(** ** Missing and blank text *)

Lemma lstrip_blank text :
  Forall (λ c, Unicode.isspace c = true) text → lstrip text = [].
Proof. induction 1 as [|c text Hc _ IH]; simpl; [done|]. by rewrite Hc. Qed.

Lemma strip_blank text :
  Forall (λ c, Unicode.isspace c = true) text → strip text = [].
Proof. intros H. unfold strip. by rewrite (lstrip_blank _ H). Qed.

Lemma lstrip_split s :
  ∃ sp, s = sp ++ lstrip s ∧ Forall (λ c, Unicode.isspace c = true) sp.
Proof.
  induction s as [|c s (sp & Hs & Hsp)]; simpl; [by exists []|].
  destruct (Unicode.isspace c) eqn:Hc; [|by exists []].
  exists (c :: sp). split; [simpl; congruence|by constructor].
Qed.

Lemma strip_nil_blank s : strip s = [] → Forall (λ c, Unicode.isspace c = true) s.
Proof.
  unfold strip. intros H.
  apply (f_equal reverse) in H. rewrite reverse_involutive in H. simpl in H.
  destruct (lstrip_split (reverse (lstrip s))) as (sp & Hs & Hsp).
  rewrite H, app_nil_r in Hs.
  destruct (lstrip_split s) as (sp' & Hs' & Hsp').
  rewrite Hs'. apply Forall_app. split; [done|].
  apply Forall_reverse. by rewrite Hs.
Qed.


(** C8: whatever the configuration and the requested types, a text that is
    empty or consists of whitespace only gives the empty mapping, and no
    error. *)
Theorem blank_text_gives_empty_mapping self text info_types :
  Forall (λ c, Unicode.isspace c = true) text →
  detect_sensitive_info self (Some text) info_types = Ok ∅.
Proof.
  intros H. unfold detect_sensitive_info.
  by rewrite (strip_blank _ H), bool_decide_eq_true_2.
Qed.

Lemma blank_text_gives_empty_mapping_witness :
  detect_sensitive_info init (Some (u "   ")) (Some ["phone"]) = Ok ∅
  ∧ detect_sensitive_info init (Some (u "")) None = Ok ∅.
Proof.
  split; apply blank_text_gives_empty_mapping.
  - repeat constructor.
  - constructor.
Defined.

(** C10: a missing text ([None]) gives the empty mapping, and no error,
    whatever the configuration and the requested types. *)
Theorem missing_text_gives_empty_mapping self info_types :
  detect_sensitive_info self None info_types = Ok ∅.
Proof. reflexivity. Qed.

(** ** Unknown type identifiers *)

Lemma check_type_ids_first type_ids type_id :
  type_id ∈ type_ids → lookup_pattern type_id patterns = None →
  ∃ pre bad post,
    type_ids = pre ++ bad :: post
    ∧ (∀ k, k ∈ pre → is_Some (lookup_pattern k patterns))
    ∧ lookup_pattern bad patterns = None
    ∧ check_type_ids type_ids = Raise (ValueError_type_id bad).
Proof.
  intros Hin Hnone. induction type_ids as [|t rest IH]; simpl.
  { by apply elem_of_nil in Hin. }
  destruct (lookup_pattern t patterns) eqn:Ht.
  - apply elem_of_cons in Hin as [->|Hin]; [congruence|].
    destruct (IH Hin) as (pre & bad & post & -> & Hpre & Hnb & Hraise).
    exists (t :: pre), bad, post. split_and!; [done| |done|done].
    intros k [->|Hk]%elem_of_cons; [by rewrite Ht|by apply Hpre].
  - exists [], t, rest. split_and!; [done| |done|done].
    intros k Hk. by apply elem_of_nil in Hk.
Qed.

(** C3, as the code has it: when the text is neither empty nor all
    whitespace, a requested list with an identifier that is not registered
    makes [detect_sensitive_info] raise the [ValueError] of the first such
    identifier of the list: every identifier before it is registered.
    [set_enabled_types] raises the same error on that list. *)
Theorem unknown_type_raises self text info_types type_id :
  strip text ≠ [] →
  type_id ∈ info_types → lookup_pattern type_id patterns = None →
  ∃ pre bad post,
    info_types = pre ++ bad :: post
    ∧ (∀ k, k ∈ pre → is_Some (lookup_pattern k patterns))
    ∧ bad ∈ info_types
    ∧ lookup_pattern bad patterns = None
    ∧ detect_sensitive_info self (Some text) (Some info_types)
      = Raise (ValueError_type_id bad)
    ∧ set_enabled_types self info_types = Raise (ValueError_type_id bad).
Proof.
  intros Htext Hin Hnone.
  destruct (check_type_ids_first _ _ Hin Hnone)
    as (pre & bad & post & Hsplit & Hpre & Hnb & Hraise).
  exists pre, bad, post. split_and!; [done | done | | done | |].
  - rewrite Hsplit, elem_of_app. right. by apply elem_of_cons; left.
  - unfold detect_sensitive_info. rewrite bool_decide_eq_false_2 by done.
    simpl. by rewrite Hraise.
  - unfold set_enabled_types. by rewrite Hraise.
Qed.

Lemma unknown_type_raises_witness :
  ∃ pre bad post,
    ["phone"; "ssn"; "email"; "dob"] = pre ++ bad :: post
    ∧ (∀ k, k ∈ pre → is_Some (lookup_pattern k patterns))
    ∧ bad ∈ ["phone"; "ssn"; "email"; "dob"]
    ∧ lookup_pattern bad patterns = None
    ∧ detect_sensitive_info init (Some (u "13812345678"))
        (Some ["phone"; "ssn"; "email"; "dob"])
      = Raise (ValueError_type_id bad)
    ∧ set_enabled_types init ["phone"; "ssn"; "email"; "dob"]
      = Raise (ValueError_type_id bad).
Proof.
  apply (unknown_type_raises init (u "13812345678")
           ["phone"; "ssn"; "email"; "dob"] "dob").
  - vm_compute. discriminate.
  - do 3 (apply elem_of_cons; right). apply elem_of_cons; by left.
  - reflexivity.
Defined.

(** C3 as stated fails on blank text: with the unregistered identifier [ssn]
    requested, a whitespace-only text (and the empty text) gives the empty
    mapping instead of an error. *)
Lemma unknown_type_on_blank_text_no_error :
  lookup_pattern "ssn" patterns = None
  ∧ detect_sensitive_info init (Some (u "   ")) (Some ["ssn"]) = Ok ∅
  ∧ detect_sensitive_info init (Some (u "")) (Some ["ssn"]) = Ok ∅.
Proof. split_and!; reflexivity. Qed.

(** ** The threshold *)

(** C4: every entry of the mapping that [detect_sensitive_info] returns has a
    confidence of at least the detector's threshold. *)
Theorem result_confidence_at_least_threshold self text info_types results type_id es e :
  detect_sensitive_info self text info_types = Ok results →
  results !! type_id = Some es → e ∈ es →
  confidence_threshold self ≤ confidence e.
Proof.
  intros Hdet Hes He. rewrite <- (matches_of_lookup _ _ _ Hes) in He.
  destruct (detect_reported _ _ _ _ _ _ Hdet He)
    as (text' & _ & info & m & c & _ & _ & _ & Hge & ->).
  by rewrite make_entry_confidence.
Qed.

Lemma result_confidence_at_least_threshold_witness :
  confidence_threshold init
  ≤ confidence (Entry (u "13812345678") 0 11 (u "【13812345678】") 80).
Proof.
  apply (result_confidence_at_least_threshold init (Some (u "13812345678"))
           (Some ["phone"])
           {[ "phone" := [Entry (u "13812345678") 0 11 (u "【13812345678】") 80] ]}
           "phone" [Entry (u "13812345678") 0 11 (u "【13812345678】") 80]).
  - vm_compute. reflexivity.
  - reflexivity.
  - apply elem_of_cons. by left.
Defined.

Lemma fewer_refl r : fewer r r.
Proof. destruct r; simpl; [intros; lia | done]. Qed.

Lemma scan_matches_fewer self1 self2 type_id v text :
  confidence_threshold self1 ≤ confidence_threshold self2 →
  ∀ ms a b, fewer (Ok a) (Ok b) →
    fewer (scan_matches self1 type_id v text ms a)
          (scan_matches self2 type_id v text ms b).
Proof.
  intros Hle. induction ms as [|m ms IH]; intros a b Hab; simpl; [done|].
  fold (confidence_of v m text).
  destruct (confidence_of v m text) as [c|]; simpl; [|done].
  destruct (Z.ltb_spec c (confidence_threshold self1)),
           (Z.ltb_spec c (confidence_threshold self2)); try lia.
  - by apply IH.
  - apply IH. intros k. specialize (Hab k). rewrite matches_of_append, length_app. lia.
  - apply IH. intros k. specialize (Hab k).
    rewrite !matches_of_append, !length_app. lia.
Qed.

Lemma scan_types_fewer self1 self2 text :
  confidence_threshold self1 ≤ confidence_threshold self2 →
  ∀ type_ids a b, fewer (Ok a) (Ok b) →
    fewer (scan_types self1 text type_ids a) (scan_types self2 text type_ids b).
Proof.
  intros Hle. induction type_ids as [|type_id rest IH]; intros a b Hab; simpl; [done|].
  destruct (lookup_pattern type_id patterns) as [info|]; [|by apply IH].
  pose proof (scan_matches_fewer self1 self2 type_id (validator info) text Hle
                (finditer true (pattern info) text) a b Hab) as H.
  destruct (scan_matches self1 _ _ _ _ _) as [a'|], (scan_matches self2 _ _ _ _ _) as [b'|];
    simpl; try done.
  by apply IH.
Qed.

(** C5: for a fixed text and fixed types, two thresholds [t1 <= t2] in
    0..100 give either the same exception or two mappings, and then every
    type has at most as many entries at [t2] as at [t1]. *)
Theorem threshold_monotone types text info_types t1 t2 :
  0 ≤ t1 → t1 ≤ t2 → t2 ≤ 100 →
  match detect_sensitive_info (Detector types t1) text info_types,
        detect_sensitive_info (Detector types t2) text info_types with
  | Ok r1, Ok r2 =>
      ∀ type_id,
        (length (matches_of r2 type_id) ≤ length (matches_of r1 type_id))%nat
  | Raise e1, Raise e2 => e1 = e2
  | _, _ => False
  end.
Proof.
  intros _ Hle _. change (fewer (detect_sensitive_info (Detector types t1) text info_types)
                                (detect_sensitive_info (Detector types t2) text info_types)).
  unfold detect_sensitive_info.
  destruct text as [text|]; [|apply fewer_refl].
  case_bool_decide; [apply fewer_refl|].
  destruct info_types as [info_types|]; simpl.
  - destruct (check_type_ids info_types); simpl; [|done].
    apply scan_types_fewer; [done|apply (fewer_refl (Ok ∅))].
  - apply scan_types_fewer; [done|apply (fewer_refl (Ok ∅))].
Qed.

Lemma threshold_monotone_witness :
  match detect_sensitive_info (Detector ∅ 50) (Some (u "13812345678 a@b.cd")) (Some ["phone"; "email"]),
        detect_sensitive_info (Detector ∅ 90) (Some (u "13812345678 a@b.cd")) (Some ["phone"; "email"]) with
  | Ok r1, Ok r2 =>
      ∀ type_id,
        (length (matches_of r2 type_id) ≤ length (matches_of r1 type_id))%nat
  | Raise e1, Raise e2 => e1 = e2
  | _, _ => False
  end.
Proof. apply threshold_monotone; lia. Defined.

(** ** Runs of one character class *)

Lemma char_test_exact p c : char_test false p c = p c.
Proof. unfold char_test. simpl. by rewrite orb_false_r. Qed.

Lemma iter_char icase p : ∀ n s s',
  iter (denote icase (Char p)) n s s' →
  ∃ w, consumed s w s' ∧ length w = n
       ∧ Forall (λ c, char_test icase p c = true) w.
Proof.
  induction n as [|n IH]; intros s s'; simpl.
  - intros ->. exists []. split_and!; [apply consumed_nil | done | done].
  - intros (m & (c & rest & Ha & Hp & ->) & Hit).
    apply IH in Hit as (w & Hw & Hlen & Hall).
    exists (c :: w). split_and!.
    + apply (consumed_app _ [c] _ w _ (consumed_advance _ _ _ Ha) Hw).
    + simpl. by rewrite Hlen.
    + by constructor.
Qed.

Lemma denote_times_char icase lo hi p s s' :
  denote icase (times lo hi (Char p)) s s' →
  ∃ w, consumed s w s' ∧ (lo ≤ length w ≤ hi)%nat
       ∧ Forall (λ c, char_test icase p c = true) w.
Proof.
  intros (n & Hlo & Hhi & Hit). apply iter_char in Hit as (w & Hw & <- & Hall).
  exists w. split_and!; [done | done | by apply Hhi | done].
Qed.

(** ** Card numbers *)

(** The format check of [_validate_credit_card]: [^\d{16,19}$]. *)
Lemma card_format card :
  matches (cat [Bol; times 16 19 (Char digit); Eol]) card = true →
  ∃ ds tail, card = ds ++ tail
    ∧ Forall (λ c, Unicode.isdecimal c = true) ds
    ∧ (16 ≤ length ds ≤ 19)%nat
    ∧ (tail = [] ∨ tail = [10]).
Proof.
  unfold matches. destruct (re_match_ _ _ _) as [m|] eqn:Hm; [intros _|done].
  apply re_match_sound in Hm as (s' & Hd & _).
  cbn [cat denote] in Hd.
  destruct Hd as (s1 & [-> _] & s2 & Hrun & s3 & [-> Hend] & _).
  apply denote_times_char in Hrun as (ds & (Ha & _ & _) & Hlen & Hall).
  exists ds, (ahead s2). split_and!; [done | | lia | lia | done].
  eapply Forall_impl; [exact Hall|]. intros c Hc. simpl in Hc.
  by rewrite char_test_exact in Hc.
Qed.

Lemma card_digit_count ds tail :
  Forall (λ c, Unicode.isdecimal c = true) ds → tail = [] ∨ tail = [10] →
  length (filter (λ c, Unicode.isdecimal c = true) (ds ++ tail)) = length ds.
Proof.
  intros Hds Htail. rewrite filter_app, length_app.
  assert (filter (λ c, Unicode.isdecimal c = true) ds = ds) as ->.
  { induction Hds as [|c ds Hc _ IH]; [done|].
    rewrite filter_cons_True by done. by rewrite IH. }
  destruct Htail as [->| ->]; simpl; lia.
Qed.

Lemma lookup_credit_card :
  lookup_pattern "credit_card" patterns
  = Some (PatternInfo (u "银行卡号") credit_card_pattern
            (u "16-19位数字，可能有空格分隔") (Some _validate_credit_card)).
Proof. reflexivity. Qed.

(** A card match that the validator scores above 0 has passed the format
    check. *)
Lemma credit_card_positive m text c :
  _validate_credit_card m text = Ok c → 1 ≤ c →
  matches (cat [Bol; times 16 19 (Char digit); Eol])
          (remove_char 45 (remove_char 32 (group m))) = true.
Proof.
  unfold _validate_credit_card. cbv zeta.
  destruct (matches _ _); [done|]. simpl. intros [= <-]. lia.
Qed.

(** C9: with a threshold of at least 1, every entry reported under
    [credit_card] has, once spaces and hyphens are removed from its value,
    between 16 and 19 digits (digits as [\d] has them): what is left is a
    run of 16 to 19 digits, followed by nothing or by one newline. *)
Theorem credit_card_entries_have_16_to_19_digits
    self text info_types results es e :
  1 ≤ confidence_threshold self →
  detect_sensitive_info self text info_types = Ok results →
  results !! "credit_card" = Some es → e ∈ es →
  let card := remove_char 45 (remove_char 32 (value e)) in
  (16 ≤ length (filter (λ c, Unicode.isdecimal c = true) card) ≤ 19)%nat
  ∧ ∃ ds tail, card = ds ++ tail
      ∧ Forall (λ c, Unicode.isdecimal c = true) ds
      ∧ (16 ≤ length ds ≤ 19)%nat
      ∧ (tail = [] ∨ tail = [10]).
Proof.
  intros Ht Hdet Hes He. rewrite <- (matches_of_lookup _ _ _ Hes) in He.
  destruct (detect_reported _ _ _ _ _ _ Hdet He)
    as (text' & _ & info & m & c & Hinfo & _ & Hc & Hge & ->).
  rewrite lookup_credit_card in Hinfo. injection Hinfo as <-.
  cbn [validator confidence_of] in Hc.
  change (value (make_entry "credit_card" m text' c)) with (group m).
  cbv zeta.
  destruct (card_format _ (credit_card_positive _ _ _ Hc ltac:(lia)))
    as (ds & tail & Hcard & Hds & Hlen & Htail).
  split; [|by exists ds, tail].
  rewrite Hcard, card_digit_count by done. done.
Qed.

Lemma credit_card_entries_have_16_to_19_digits_witness :
  let card :=
    remove_char 45 (remove_char 32
      (value (Entry (u "4111 1111 1111 1111") 0 19 (u "【4111 1111 1111 1111】") 80))) in
  (16 ≤ length (filter (λ c, Unicode.isdecimal c = true) card) ≤ 19)%nat
  ∧ ∃ ds tail, card = ds ++ tail
      ∧ Forall (λ c, Unicode.isdecimal c = true) ds
      ∧ (16 ≤ length ds ≤ 19)%nat
      ∧ (tail = [] ∨ tail = [10]).
Proof.
  apply (credit_card_entries_have_16_to_19_digits init
           (Some (u "4111 1111 1111 1111")) (Some ["credit_card"])
           {[ "credit_card" :=
                [Entry (u "4111 1111 1111 1111") 0 19 (u "【4111 1111 1111 1111】") 80] ]}
           [Entry (u "4111 1111 1111 1111") 0 19 (u "【4111 1111 1111 1111】") 80]
           (Entry (u "4111 1111 1111 1111") 0 19 (u "【4111 1111 1111 1111】") 80)).
  - simpl. lia.
  - vm_compute. reflexivity.
  - reflexivity.
  - apply elem_of_cons. by left.
Defined.

(** ** Keyword search *)

Lemma startswith_spec s p : startswith s p = true ↔ ∃ rest, s = p ++ rest.
Proof.
  revert s. induction p as [|c p IH]; intros s.
  - destruct s; simpl; (split; [intros _; by eexists|done]).
  - destruct s as [|d s]; simpl; [split; [done|by intros [? ?]]|].
    rewrite andb_true_iff, Z.eqb_eq, IH. split.
    + intros [-> [rest ->]]. by exists rest.
    + intros [rest [= -> ->]]. eauto.
Qed.

Arguments startswith : simpl never.

Lemma occurs_spec w s : occurs w s = true ↔ contains s w.
Proof.
  unfold contains. induction s as [|c s IH]; simpl.
  - rewrite orb_false_r, startswith_spec. split.
    + intros [rest H]. by exists [], rest.
    + intros (a & b & H). symmetry in H.
      apply app_eq_nil in H as [-> [-> ->]%app_eq_nil]. by exists [].
  - rewrite orb_true_iff, startswith_spec, IH. split.
    + intros [[rest ->]|(a & b & ->)]; [by exists [], rest|by exists (c :: a), b].
    + intros ([|c' a] & b & H); simpl in H; [left; by exists b|].
      injection H as -> ->. right. by exists a, b.
Qed.

(** A literal pattern, matched exactly, consumes its own text. *)
Lemma denote_text_exact w : ∀ s s', denote false (text w) s s' → consumed s w s'.
Proof.
  induction w as [|c w IH]; intros s s'; simpl.
  - intros ->. apply consumed_nil.
  - intros (m & (c' & rest & Ha & Hp & ->) & Hw).
    rewrite char_test_exact in Hp. apply Z.eqb_eq in Hp as <-.
    apply (consumed_app _ [c] _ w _ (consumed_advance _ _ _ Ha) (IH _ _ Hw)).
Qed.

Lemma denote_words icase ws s s' :
  denote icase (words ws) s s' → ∃ w, w ∈ ws ∧ denote icase (lits w) s s'.
Proof.
  unfold words. induction ws as [|w ws IH]; simpl.
  - intros (c & rest & _ & Hp & _). unfold char_test in Hp.
    by destruct icase.
  - intros [H|H].
    + exists w. split; [by apply elem_of_cons; left|done].
    + destruct (IH H) as (w' & Hin & Hw'). exists w'.
      split; [by apply elem_of_cons; right|done].
Qed.

Lemma run_text w : ∀ {A} (k : cursor → option A) s rest,
  ahead s = w ++ rest →
  run false (text w) k s
  = k (Cursor (reverse w ++ behind s) rest (pos s + len w) (span1 s)).
Proof.
  induction w as [|c w IH]; intros A k s rest Ha; simpl.
  - f_equal. destruct s as [b a p g]. simpl in *. subst a. f_equal. unfold len. simpl. lia.
  - rewrite Ha. simpl. rewrite char_test_exact, Z.eqb_refl.
    rewrite (IH _ _ _ rest) by done. f_equal. simpl.
    rewrite reverse_cons, <- (assoc_L (++)). simpl. f_equal.
    unfold len. simpl. lia.
Qed.

Lemma run_words_none ws {A} (k : cursor → option A) s :
  run false (words ws) k s = None →
  ∀ w rest, w ∈ ws → ahead s = u w ++ rest →
    k (Cursor (reverse (u w) ++ behind s) rest (pos s + len (u w)) (span1 s)) = None.
Proof.
  unfold words. induction ws as [|w0 ws IH]; simpl.
  - intros _ w rest Hin. by apply elem_of_nil in Hin.
  - destruct (run false (lits w0) k s) eqn:H0; [done|]. intros Hrest w rest Hin Ha.
    apply elem_of_cons in Hin as [->|Hin]; [|by apply IH].
    unfold lits in H0. by rewrite (run_text _ _ _ rest) in H0.
Qed.

Lemma match_here_keyword ws string s :
  match_here false (Group (words ws)) string s = None →
  existsb (λ kw, startswith (ahead s) (u kw)) ws = false.
Proof.
  unfold match_here. simpl. intros Hnone.
  apply not_true_is_false. intros (kw & Hin & [rest Hs]%startswith_spec)%existsb_exists.
  apply list_elem_of_In in Hin.
  by pose proof (run_words_none _ _ _ Hnone kw rest Hin Hs).
Qed.

Lemma keyword_match_here ws string s m :
  match_here false (Group (words ws)) string s = Some m →
  existsb (λ kw, startswith (ahead s) (u kw)) ws = true.
Proof.
  intros (s' & (m' & Hw & _) & _)%match_here_sound.
  apply denote_words in Hw as (kw & Hin & Hkw).
  apply denote_text_exact in Hkw as (Ha & _).
  apply existsb_exists. exists kw. split; [by apply list_elem_of_In|].
  apply startswith_spec. eauto.
Qed.

Lemma existsb_orb {X} (f g : X → bool) l :
  existsb (λ x, f x || g x) l = existsb f l || existsb g l.
Proof.
  induction l as [|x l IH]; simpl; [done|]. rewrite IH.
  destruct (f x), (g x), (existsb f l); done.
Qed.

Lemma search_at_keyword ws string : ∀ after before at_,
  match search_at false (Group (words ws)) string before at_ after with
  | Some _ => true
  | None => false
  end = mentions ws after.
Proof.
  unfold mentions.
  induction after as [|c rest IH]; intros before at_; simpl.
  - rewrite existsb_orb.
    destruct (match_here _ _ _ _) eqn:Hm.
    + apply keyword_match_here in Hm. simpl in Hm. by rewrite Hm.
    + apply match_here_keyword in Hm. simpl in Hm. rewrite Hm. simpl.
      clear Hm. induction ws as [|w ws IHws]; simpl; done.
  - rewrite existsb_orb.
    destruct (match_here _ _ _ _) eqn:Hm.
    + apply keyword_match_here in Hm. simpl in Hm. by rewrite Hm.
    + apply match_here_keyword in Hm. simpl in Hm. rewrite Hm. simpl. apply IH.
Qed.

(** The keyword search of the validators is the substring test. *)
Lemma has_keyword_mentions ws context : has_keyword ws context = mentions ws context.
Proof. unfold has_keyword, search. apply search_at_keyword. Qed.

(** ** The placeholder phone number *)

Lemma finditer_string icase r text m :
  m ∈ finditer icase r text → m_string m = text.
Proof. intros (i & s' & _ & _ & ->)%finditer_sound. done. Qed.

Lemma lookup_phone :
  lookup_pattern "phone" patterns
  = Some (PatternInfo (u "手机号码") phone_pattern
            (u "11位数字，以1开头，第二位是3-9，可能带有+86前缀") (Some _validate_phone)).
Proof. reflexivity. Qed.

Lemma validate_phone_placeholder m text :
  group m = u "13800138000" →
  mentions ["手机"; "电话"; "联系"; "拨打"; "号码"]
           (_get_context_text text (m_start m) (m_end m) 20) = false →
  _validate_phone m text = Ok 0.
Proof.
  intros Hgroup Hkw. unfold _validate_phone. cbv zeta.
  rewrite has_keyword_mentions, Hkw, Hgroup. reflexivity.
Qed.

(** C2, as the code has it: for a threshold from 1 to 50, a phone match
    whose text is the placeholder 13800138000 and whose 20-character window
    holds none of the phone keywords gets confidence 0 from the validator,
    and no entry of the result lies at that match. *)
Theorem placeholder_phone_excluded self text info_types m :
  1 ≤ confidence_threshold self → confidence_threshold self ≤ 50 →
  m ∈ finditer true phone_pattern text →
  group m = u "13800138000" →
  mentions ["手机"; "电话"; "联系"; "拨打"; "号码"]
           (_get_context_text text (m_start m) (m_end m) 20) = false →
  _validate_phone m text = Ok 0
  ∧ ∀ results e,
      detect_sensitive_info self (Some text) info_types = Ok results →
      e ∈ matches_of results "phone" →
      (start e, end_ e) ≠ (m_start m, m_end m).
Proof.
  intros Hlo _ Hm Hgroup Hkw. split; [by apply validate_phone_placeholder|].
  intros results e Hdet He [= Hs He'].
  destruct (detect_reported _ _ _ _ _ _ Hdet He)
    as (text' & [= <-] & info & m' & c & Hinfo & Hm' & Hc & Hge & ->).
  rewrite lookup_phone in Hinfo. injection Hinfo as <-.
  cbn [validator pattern confidence_of] in Hc, Hm'.
  change (m_start m' = m_start m) in Hs. change (m_end m' = m_end m) in He'.
  assert (group m' = u "13800138000") as Hgroup'.
  { rewrite <- Hgroup. unfold group.
    by rewrite (finditer_string _ _ _ _ Hm), (finditer_string _ _ _ _ Hm'), Hs, He'. }
  rewrite validate_phone_placeholder in Hc by (by rewrite ?Hs, ?He').
  injection Hc as <-. lia.
Qed.

Lemma placeholder_phone_excluded_witness :
  _validate_phone (ReMatch (u "13800138000") 0 11 None 0) (u "13800138000") = Ok 0
  ∧ ∀ results e,
      detect_sensitive_info init (Some (u "13800138000")) (Some ["phone"]) = Ok results →
      e ∈ matches_of results "phone" →
      (start e, end_ e) ≠ (0, 11).
Proof.
  apply (placeholder_phone_excluded init (u "13800138000") (Some ["phone"])
           (ReMatch (u "13800138000") 0 11 None 0)).
  - simpl. lia.
  - simpl. lia.
  - vm_compute. apply elem_of_cons. by left.
  - reflexivity.
  - reflexivity.
Defined.

(** C2 as stated fails at threshold 0: the placeholder, alone in the text
    and so without any keyword, gets confidence 0 and is reported. *)
Lemma placeholder_phone_reported_at_threshold_0 :
  0 ≤ confidence_threshold (Detector ∅ 0) ≤ 50
  ∧ ReMatch (u "13800138000") 0 11 None 0 ∈ finditer true phone_pattern (u "13800138000")
  ∧ mentions ["手机"; "电话"; "联系"; "拨打"; "号码"]
             (_get_context_text (u "13800138000") 0 11 20) = false
  ∧ _validate_phone (ReMatch (u "13800138000") 0 11 None 0) (u "13800138000") = Ok 0
  ∧ detect_sensitive_info (Detector ∅ 0) (Some (u "13800138000")) (Some ["phone"])
    = Ok {[ "phone" := [Entry (u "13800138000") 0 11 (u "【13800138000】") 0] ]}.
Proof.
  split_and!.
  - simpl. lia.
  - simpl. lia.
  - vm_compute. apply elem_of_cons. by left.
  - reflexivity.
  - reflexivity.
  - vm_compute. reflexivity.
Qed.

(** ** The Luhn check *)












Lemma slice_middle (pre w post : str) :
  slice (pre ++ w ++ post) (len pre) (len pre + len w) = w.
Proof.
  unfold slice, len.
  replace (Z.to_nat (Z.of_nat (length pre) + Z.of_nat (length w) - Z.of_nat (length pre)))
    with (length w) by lia.
  rewrite Nat2Z.id, drop_app_length. apply take_app_length.
Qed.






(** ** Case-insensitive literals *)

Lemma casefold_no_letter c : no_letter (Unicode.casefold c) → Unicode.casefold c = c.
Proof. unfold no_letter, Unicode.casefold. case_bools; lia. Qed.

Lemma ascii_upper_no_letter y : no_letter (Unicode.ascii_upper y) → Unicode.ascii_upper y = y.
Proof. unfold no_letter, Unicode.ascii_upper. case_bools; lia. Qed.

(** A set without ASCII letters matches the same characters with and
    without [re.IGNORECASE]. *)
Lemma char_test_caseless p c :
  (∀ x, p x = true → no_letter x) →
  char_test true p c = true → p c = true.
Proof.
  intros Hp. unfold char_test. simpl.
  destruct (p c) eqn:Hc; [done|]. simpl.
  destruct (p (Unicode.casefold c)) eqn:Hf; simpl.
  { apply Hp in Hf as Hn. apply casefold_no_letter in Hn. congruence. }
  intros Hu. apply Hp in Hu as Hn. apply ascii_upper_no_letter in Hn as Hy.
  rewrite Hy in Hu. congruence.
Qed.

Lemma casefold_folded x : folded x → Unicode.casefold x = x.
Proof. unfold folded, Unicode.casefold. case_bools; lia. Qed.

(** A folded literal matches, ignoring case, the characters that fold to it. *)
Lemma char_test_folded x c :
  folded x → char_test true (Z.eqb x) c = true → Unicode.casefold c = x.
Proof.
  intros Hx. unfold char_test. simpl.
  rewrite !orb_true_iff, !Z.eqb_eq. intros [<-|[<-|Hu]].
  - by apply casefold_folded.
  - done.
  - revert Hu Hx. generalize (Unicode.casefold c). intros y ->.
    unfold folded, Unicode.ascii_upper. case_bools; lia.
Qed.

Lemma denote_text_icase w : ∀ s s',
  Forall folded w → denote true (text w) s s' →
  ∃ w', consumed s w' s' ∧ map Unicode.casefold w' = w.
Proof.
  induction w as [|x w IH]; intros s s' Hw; simpl.
  - intros ->. exists []. split; [apply consumed_nil|done].
  - apply Forall_cons in Hw as [Hx Hw].
    intros (m & (c & rest & Ha & Hp & ->) & Hd).
    apply (char_test_folded _ _ Hx) in Hp.
    destruct (IH _ _ Hw Hd) as (w' & Hc & Hmap).
    exists (c :: w'). split; [|simpl; congruence].
    apply (consumed_app _ [c] _ w' _ (consumed_advance _ _ _ Ha) Hc).
Qed.

(** ** Password matches *)

Lemma lookup_password :
  lookup_pattern "password" patterns
  = Some (PatternInfo (u "密码") password_pattern
            (u "密码标识后跟随的6-20位字符") (Some _validate_password)).
Proof. reflexivity. Qed.

Lemma password_labels_folded w :
  w ∈ ["密码"; "password"; "pwd"] → Forall folded (u w).
Proof.
  intros Hin. repeat (apply elem_of_cons in Hin as [->|Hin]);
    [| | |by apply elem_of_nil in Hin];
    eval_u; repeat (apply Forall_cons; split; [unfold folded; lia|]);
    by apply Forall_nil.
Qed.

Lemma one_of_spec cs c : one_of cs c = true ↔ c ∈ u cs.
Proof.
  unfold one_of. rewrite existsb_exists. split.
  - intros (x & Hin & ->%Z.eqb_eq). by apply list_elem_of_In.
  - intros H. exists c. split; [by apply list_elem_of_In|apply Z.eqb_refl].
Qed.

Lemma separator_chars c : c ∈ u "：:" → c = 65306 ∨ c = 58.
Proof.
  change (u "：:") with [65306; 58].
  intros [->|H]%elem_of_cons; [by left|].
  apply list_elem_of_singleton in H as ->. by right.
Qed.

Lemma separator_caseless c :
  char_test true (one_of "：:") c = true → c = 65306 ∨ c = 58.
Proof.
  intros H. apply separator_chars, one_of_spec. revert H.
  apply char_test_caseless.
  intros x [-> | ->]%one_of_spec%separator_chars; unfold no_letter; lia.
Qed.

Lemma in_ranges_spec rs c :
  Unicode.in_ranges rs c = true → Exists (λ r, fst r ≤ c ≤ snd r) rs.
Proof.
  unfold Unicode.in_ranges. intros (r & Hin & Hr)%existsb_exists.
  apply Exists_exists. exists r. split; [by apply list_elem_of_In|].
  apply andb_true_iff in Hr as [?%Z.leb_le ?%Z.leb_le]. lia.
Qed.

Lemma space_no_letter x : Unicode.isspace x = true → no_letter x.
Proof.
  intros H%in_ranges_spec. unfold no_letter.
  repeat (apply Exists_cons in H as [H|H]; [simpl in H; lia|]).
  by apply Exists_nil in H.
Qed.

Lemma space_caseless c : char_test true space c = true → Unicode.isspace c = true.
Proof. apply char_test_caseless, space_no_letter. Qed.

(** The shape of a match of the password pattern: a label, a separator,
    optional whitespace and the credential, which is group 1. *)
Lemma password_match_shape text m :
  m ∈ finditer true password_pattern text →
  ∃ pre label sep spaces cred post,
    text = pre ++ label ++ [sep] ++ spaces ++ cred ++ post
    ∧ map Unicode.casefold label ∈ [u "密码"; u "password"; u "pwd"]
    ∧ (sep = 65306 ∨ sep = 58)
    ∧ Forall (λ c, Unicode.isspace c = true) spaces
    ∧ (6 ≤ length cred ≤ 20)%nat
    ∧ Forall credential_char cred
    ∧ m_string m = text
    ∧ m_start m = len pre
    ∧ m_end m = len (pre ++ label ++ [sep] ++ spaces) + len cred
    ∧ m_span1 m = Some (len (pre ++ label ++ [sep] ++ spaces),
                        len (pre ++ label ++ [sep] ++ spaces) + len cred)
    ∧ groups m = true.
Proof.
  intros (i & s' & Hi & Hd & ->)%finditer_sound.
  cbn [password_pattern cat denote] in Hd.
  destruct Hd as (s1 & Hlabel & s2 & (sep & rest & Ha & Hsep & ->) & s3 & Hsp
                  & s4 & (s5 & Hcred & ->) & ->).
  apply denote_words in Hlabel as (w & Hw & Hlabel).
  apply (denote_text_icase _ _ _ (password_labels_folded _ Hw)) in Hlabel
    as (label & Hc1 & Hfold).
  apply consumed_advance in Ha as Hc2.
  destruct Hsp as (n & _ & _ & Hsp).
  apply iter_char in Hsp as (spaces & Hc3 & _ & Hspaces).
  apply denote_times_char in Hcred as (cred & Hc4 & Hlen & Hcredok).
  pose proof (consumed_app _ _ _ _ _ Hc1 Hc2) as H12.
  pose proof (consumed_app _ _ _ _ _ H12 Hc3) as H123.
  pose proof (consumed_app _ _ _ _ _ H123 Hc4) as H1234.
  destruct (consumed_sits_at _ _ _ _ _ Hi (sits_at_cursor_at text i) H1234)
    as (_ & Hdrop & _).
  destruct H123 as (_ & _ & Hp3). destruct Hc4 as (_ & _ & Hp4).
  simpl in Hp3.
  exists (take i text), label, sep, spaces, cred,
    (drop (i + length (((label ++ [sep]) ++ spaces) ++ cred)) text).
  assert (Z.of_nat i = len (take i text)) as Hpre.
  { unfold len. rewrite length_take. lia. }
  assert (len (take i text ++ label ++ [sep] ++ spaces) = pos s3) as Hpos3.
  { rewrite Hp3. unfold len in *. rewrite !length_app in *. simpl. lia. }
  split_and!.
  - rewrite <- (take_drop i text) at 1. rewrite Hdrop.
    by rewrite <- !(assoc_L (++)).
  - rewrite Hfold.
    change [u "密码"; u "password"; u "pwd"] with (u <$> ["密码"; "password"; "pwd"]).
    by apply list_elem_of_fmap_2.
  - by apply separator_caseless.
  - eapply Forall_impl; [exact Hspaces|]. intros c. apply space_caseless.
  - lia.
  - lia.
  - done.
  - done.
  - done.
  - cbn [m_end pos set_span1]. by rewrite Hpos3, Hp4.
  - cbn [m_span1 span1 set_span1]. by rewrite Hpos3, Hp4.
  - reflexivity.
Qed.

Lemma make_entry_password m text c start1 end1 :
  groups m = true → m_span1 m = Some (start1, end1) →
  make_entry "password" m text c
  = Entry (slice (m_string m) start1 end1) start1 end1
          (_get_context text start1 end1 20) c.
Proof. unfold make_entry. by intros -> ->. Qed.

(** ** Phone matches and the country code *)

Lemma char_test_false_exact icase p c : char_test icase p c = false → p c = false.
Proof. unfold char_test. by intros [? _]%orb_false_elim. Qed.

Lemma reverse_take_S {X} (l : list X) j c :
  l !! j = Some c → reverse (take (S j) l) = c :: reverse (take j l).
Proof. intros H. by rewrite (take_S_r _ _ _ H), reverse_snoc. Qed.

(** The optional country code of the phone pattern never takes part in a
    match: after [86] the assertion [(?<!\d)] sees the digit 6.  So a phone
    match is the 11 characters of the number, and the character before it,
    if there is one, is no digit. *)
Lemma phone_match_shape text m :
  m ∈ finditer true phone_pattern text →
  m_end m = m_start m + 11
  ∧ (0 < m_start m →
     ∃ c, text !! Z.to_nat (m_start m - 1) = Some c ∧ Unicode.isdecimal c = false).
Proof.
  intros (i & s' & Hi & Hd & ->)%finditer_sound.
  cbn [phone_pattern cat denote opt] in Hd.
  destruct Hd as (s1 & (n & _ & Hn & Hpre) & s2 & [-> Hbehind] & s3 & Hone
                  & s4 & (c2 & rest2 & Ha2 & _ & ->) & s5 & Hnine
                  & s6 & [-> _] & ->).
  specialize (Hn 1%nat eq_refl).
  assert (s1 = cursor_at text i) as ->.
  { destruct n as [|[|n]]; [done| |lia]. exfalso.
    destruct Hpre as (m & (a & _ & b & H86 & ->) & ->).
    apply denote_text_icase in H86 as (w & (_ & Hb & _) & Hw).
    2:{ eval_u. repeat (apply Forall_cons; split; [unfold folded; lia|]).
        by apply Forall_nil. }
    revert Hw. eval_u. destruct w as [|c1 [|c6 [|? ?]]]; try done.
    intros [= _ H6]. rewrite casefold_no_letter in H6
      by (rewrite H6; unfold no_letter; lia).
    subst c6. rewrite Hb in Hbehind. by vm_compute in Hbehind. }
  apply denote_text_icase in Hone as (w1 & (_ & _ & Hp1) & Hw1).
  2:{ eval_u. apply Forall_cons; split; [unfold folded; lia|by apply Forall_nil]. }
  apply (f_equal length) in Hw1. rewrite length_map in Hw1.
  apply denote_times_char in Hnine as (w9 & (_ & _ & Hp9) & Hlen9 & _).
  cbn [m_start m_end pos advance] in *. unfold len in *. split.
  - change (length (u "1")) with 1%nat in Hw1. cbn [cursor_at pos] in Hp1. lia.
  - intros Hpos. cbn [cursor_at behind] in Hbehind.
    destruct i as [|j]; [lia|].
    destruct (lookup_lt_is_Some_2 text j ltac:(lia)) as [c Hc].
    rewrite (reverse_take_S _ _ _ Hc) in Hbehind.
    exists c. split.
    + replace (Z.to_nat (Z.of_nat (S j) - 1)) with j by lia. done.
    + by apply char_test_false_exact in Hbehind.
Qed.

(** So no phone entry ever holds a country code: an entry is 11 characters
    long, and a number that follows [86] or any other digit is not reported. *)
Lemma phone_entry_shape self text info_types results e :
  detect_sensitive_info self (Some text) info_types = Ok results →
  e ∈ matches_of results "phone" →
  end_ e = start e + 11
  ∧ (0 < start e →
     ∃ c, text !! Z.to_nat (start e - 1) = Some c ∧ Unicode.isdecimal c = false).
Proof.
  intros Hdet He.
  destruct (detect_reported _ _ _ _ _ _ Hdet He)
    as (text' & [= <-] & info & m & c & Hinfo & Hm & _ & _ & ->).
  rewrite lookup_phone in Hinfo. injection Hinfo as <-.
  apply (phone_match_shape text m Hm).
Qed.

(** C1 on the code: the numbers of the claim, written with the country
    code, give no phone entry at all, with the default threshold and
    [phone] requested; the same number without the code is reported with
    confidence 80.  The validator itself would accept the prefixed number,
    had the pattern matched it. *)
Theorem phone_with_country_code_not_reported :
  detect_sensitive_info init (Some (u "+8613812345678")) (Some ["phone"]) = Ok ∅
  ∧ detect_sensitive_info init (Some (u "8613812345678")) (Some ["phone"]) = Ok ∅
  ∧ detect_sensitive_info init (Some (u "国际手机号：+8618321019580")) (Some ["phone"])
    = Ok ∅
  ∧ detect_sensitive_info init (Some (u "13812345678")) (Some ["phone"])
    = Ok {[ "phone" := [Entry (u "13812345678") 0 11 (u "【13812345678】") 80] ]}
  ∧ _validate_phone (ReMatch (u "+8613812345678") 0 14 None 0) (u "+8613812345678")
    = Ok 80.
Proof. split_and!; vm_compute; reflexivity. Qed.

(** ** What a call returns *)

Lemma matches_of_extend type_id es : ∀ results k,
  matches_of (extend type_id es results) k
  = matches_of results k ++ (if decide (type_id = k) then es else []).
Proof.
  unfold extend. induction es as [|e es IH]; intros results k; simpl.
  - destruct (decide _); by rewrite app_nil_r.
  - rewrite IH, matches_of_append.
    destruct (decide (type_id = k)); simpl; by rewrite <- ?(assoc_L (++)), ?app_nil_r.
Qed.

Lemma scan_matches_kept self type_id v text : ∀ ms results,
  scan_matches self type_id v text ms results
  = es ← kept (confidence_threshold self) type_id v text ms;
    Ok (extend type_id es results).
Proof.
  induction ms as [|m ms IH]; intros results; simpl; [done|].
  fold (confidence_of v m text).
  destruct (confidence_of v m text) as [c|]; simpl; [|done].
  destruct (c <? confidence_threshold self).
  - rewrite IH. by destruct (kept _ _ _ _ ms).
  - rewrite IH. by destruct (kept _ _ _ _ ms).
Qed.

Lemma scan_types_cons self text type_id rest results :
  scan_types self text (type_id :: rest) results
  = es ← found (confidence_threshold self) text type_id;
    scan_types self text rest (extend type_id es results).
Proof.
  simpl. unfold found. destruct (lookup_pattern type_id patterns) as [info|]; [|done].
  rewrite scan_matches_kept. by destruct (kept _ _ _ _ _).
Qed.

Lemma times_requested_not_in (k : string) type_ids :
  k ∉ type_ids → filter (λ x, x = k) type_ids = [].
Proof.
  induction type_ids as [|x l IH]; [done|]. intros Hk.
  rewrite filter_cons_False by (intros ->; apply Hk; by apply elem_of_cons; left).
  apply IH. intros ?. apply Hk. by apply elem_of_cons; right.
Qed.

Lemma scan_types_exact self text : ∀ type_ids results results',
  scan_types self text type_ids results = Ok results' →
  ∀ k,
    (k ∈ type_ids →
     ∃ es, found (confidence_threshold self) text k = Ok es
           ∧ matches_of results' k
             = matches_of results k
               ++ concat (replicate (times_requested k type_ids) es))
    ∧ (k ∉ type_ids → matches_of results' k = matches_of results k).
Proof.
  induction type_ids as [|type_id rest IH]; intros results results'.
  - intros [= <-] k. split; [intros Hin; by apply elem_of_nil in Hin|done].
  - rewrite scan_types_cons.
    destruct (found _ text type_id) as [es|] eqn:Hfound; simpl; [|done].
    intros Hrest k. destruct (IH _ _ Hrest k) as [Hin Hout].
    unfold times_requested. destruct (decide (type_id = k)) as [->|Hne].
    + split; [intros _|intros Hk; exfalso; apply Hk; by apply elem_of_cons; left].
      rewrite filter_cons_True by done. simpl.
      exists es. split; [done|].
      destruct (decide (k ∈ rest)) as [Hk|Hk].
      * destruct (Hin Hk) as (es' & Hes' & ->).
        rewrite Hfound in Hes'. injection Hes' as <-.
        rewrite matches_of_extend, decide_True by done.
        by rewrite <- (assoc_L (++)).
      * rewrite (Hout Hk), matches_of_extend, decide_True by done.
        by rewrite (times_requested_not_in _ _ Hk), app_nil_r.
    + rewrite filter_cons_False by done.
      split.
      * intros [?|Hk]%elem_of_cons; [congruence|].
        destruct (Hin Hk) as (es' & Hes' & ->). exists es'. split; [done|].
        by rewrite matches_of_extend, decide_False, app_nil_r by done.
      * intros Hk. rewrite Hout by (intros ?; apply Hk; by apply elem_of_cons; right).
        by rewrite matches_of_extend, decide_False, app_nil_r by done.
Qed.

Lemma append_no_empty_list type_id e results :
  no_empty_list results → no_empty_list (append type_id e results).
Proof.
  intros H k l. unfold append. rewrite lookup_insert.
  destruct (decide (type_id = k)); [|by apply H].
  intros [= <-]. by destruct (default [] _).
Qed.

Lemma extend_no_empty_list type_id es : ∀ results,
  no_empty_list results → no_empty_list (extend type_id es results).
Proof.
  unfold extend. induction es as [|e es IH]; intros results H; simpl; [done|].
  by apply IH, append_no_empty_list.
Qed.

Lemma scan_types_no_empty_list self text : ∀ type_ids results results',
  no_empty_list results →
  scan_types self text type_ids results = Ok results' → no_empty_list results'.
Proof.
  induction type_ids as [|type_id rest IH]; intros results results' H.
  - by intros [= <-].
  - rewrite scan_types_cons. destruct (found _ _ _) as [es|]; simpl; [|done].
    apply IH. by apply extend_no_empty_list.
Qed.

Lemma matches_of_nil results k :
  no_empty_list results → matches_of results k = [] → results !! k = None.
Proof.
  unfold matches_of. intros H. destruct (results !! k) as [l|] eqn:Hl; [|done].
  simpl. intros ->. by apply H in Hl.
Qed.

Lemma blank_text_no_scan self text info_types :
  Forall (λ c, Unicode.isspace c = true) text →
  detect_sensitive_info self (Some text) info_types = Ok ∅.
Proof.
  intros Hb. unfold detect_sensitive_info.
  by rewrite (strip_blank _ Hb), bool_decide_eq_true_2.
Qed.

Lemma detect_scan self text info_types results :
  detect_sensitive_info self (Some text) info_types = Ok results →
  ¬ Forall (λ c, Unicode.isspace c = true) text →
  scan_types self text (requested self info_types) ∅ = Ok results.
Proof.
  unfold detect_sensitive_info. intros Hdet Hblank.
  case_bool_decide as Hstrip; [by apply strip_nil_blank in Hstrip|].
  destruct info_types as [info_types|]; simpl in *; [|done].
  by destruct (check_type_ids info_types).
Qed.

(** The loops of a call on a text that is not blank. *)
Lemma detect_scan_exact self text info_types results :
  detect_sensitive_info self (Some text) info_types = Ok results →
  ¬ Forall (λ c, Unicode.isspace c = true) text →
  no_empty_list results
  ∧ ∀ k,
      (k ∈ requested self info_types →
       ∃ es, found (confidence_threshold self) text k = Ok es
             ∧ matches_of results k
               = concat (replicate (times_requested k (requested self info_types)) es))
      ∧ (k ∉ requested self info_types → matches_of results k = []).
Proof.
  intros Hdet Hblank. apply (detect_scan _ _ _ _ Hdet) in Hblank as Hscan.
  split.
  { eapply scan_types_no_empty_list; [|exact Hscan]. intros ? ?. by rewrite lookup_empty. }
  intros k. destruct (scan_types_exact _ _ _ _ _ Hscan k) as [Hin Hout].
  rewrite matches_of_empty in Hin, Hout. done.
Qed.

(** A key of a result is a registered type. *)
Lemma result_key_registered self text info_types results k l :
  detect_sensitive_info self text info_types = Ok results →
  results !! k = Some l → l ≠ [] ∧ is_Some (lookup_pattern k patterns).
Proof.
  intros Hdet Hl.
  assert (∃ text', text = Some text'
            ∧ ¬ Forall (λ c, Unicode.isspace c = true) text') as (text' & -> & Hblank).
  { destruct text as [text'|]; [|injection Hdet as <-; by rewrite lookup_empty in Hl].
    exists text'. split; [done|]. intros Hb.
    rewrite (blank_text_no_scan _ _ _ Hb) in Hdet.
    injection Hdet as <-. by rewrite lookup_empty in Hl. }
  destruct (detect_scan_exact _ _ _ _ Hdet Hblank) as [Hne _].
  pose proof (Hne _ _ Hl) as Hl'. split; [done|].
  destruct l as [|e l]; [done|].
  assert (e ∈ matches_of results k) as He.
  { unfold matches_of. rewrite Hl. by apply elem_of_cons; left. }
  destruct (detect_reported _ _ _ _ _ _ Hdet He) as (? & _ & info & ? & ? & Hinfo & _).
  by exists info.
Qed.

(** X1: what a call returns.  For a text that is not blank, the entries of a
    requested type are those its matches keep, in the order of the matches,
    once for every time the type is requested; a type that is not
    requested, and a type without kept match, is no key of the result. *)
Theorem detect_exact self text info_types results :
  detect_sensitive_info self (Some text) info_types = Ok results →
  ¬ Forall (λ c, Unicode.isspace c = true) text →
  ∀ k,
    (k ∈ requested self info_types →
     ∃ es, found (confidence_threshold self) text k = Ok es
           ∧ matches_of results k
             = concat (replicate (times_requested k (requested self info_types)) es))
    ∧ (k ∉ requested self info_types → results !! k = None)
    ∧ (matches_of results k = [] → results !! k = None).
Proof.
  intros Hdet Hblank k.
  destruct (detect_scan_exact _ _ _ _ Hdet Hblank) as [Hne Hk].
  destruct (Hk k) as [Hin Hout]. split_and!.
  - intros Hreq. destruct (Hin Hreq) as (es & ? & ?). by exists es.
  - intros Hreq. apply matches_of_nil; [done|by apply Hout].
  - by apply matches_of_nil.
Qed.

Lemma detect_exact_witness :
  ("phone" ∈ requested init (Some ["phone"]) →
   ∃ es, found (confidence_threshold init) (u "13812345678") "phone" = Ok es
         ∧ matches_of {[ "phone" := [Entry (u "13812345678") 0 11 (u "【13812345678】") 80] ]}
             "phone"
           = concat (replicate (times_requested "phone" (requested init (Some ["phone"]))) es))
  ∧ ("phone" ∉ requested init (Some ["phone"]) →
     ({[ "phone" := [Entry (u "13812345678") 0 11 (u "【13812345678】") 80] ]}
        : gmap string (list entry)) !! "phone" = None)
  ∧ (matches_of {[ "phone" := [Entry (u "13812345678") 0 11 (u "【13812345678】") 80] ]}
       "phone" = [] →
     ({[ "phone" := [Entry (u "13812345678") 0 11 (u "【13812345678】") 80] ]}
        : gmap string (list entry)) !! "phone" = None).
Proof.
  refine (detect_exact init (u "13812345678") (Some ["phone"])
            {[ "phone" := [Entry (u "13812345678") 0 11 (u "【13812345678】") 80] ]}
            _ _ "phone").
  - vm_compute. reflexivity.
  - intros H. apply Forall_cons in H as [H _]. vm_compute in H. discriminate H.
Defined.

(** X2: the keys of a result.  A key has at least one entry, is requested and
    is registered. *)
Theorem result_keys self text info_types results k l :
  detect_sensitive_info self text info_types = Ok results →
  results !! k = Some l →
  l ≠ [] ∧ k ∈ requested self info_types
  ∧ ∃ info, lookup_pattern k patterns = Some info.
Proof.
  intros Hdet Hl.
  destruct (result_key_registered _ _ _ _ _ _ Hdet Hl) as [Hne [info Hinfo]].
  split_and!; [done| |by exists info].
  destruct text as [text|]; [|injection Hdet as <-; by rewrite lookup_empty in Hl].
  destruct (decide (Forall (λ c, Unicode.isspace c = true) text)) as [Hb|Hb].
  { rewrite (blank_text_no_scan _ _ _ Hb) in Hdet.
    injection Hdet as <-. by rewrite lookup_empty in Hl. }
  destruct (detect_scan_exact _ _ _ _ Hdet Hb) as [_ Hk].
  destruct (decide (k ∈ requested self info_types)) as [|Hreq]; [done|].
  apply (proj2 (Hk k)) in Hreq. unfold matches_of in Hreq. rewrite Hl in Hreq.
  simpl in Hreq. by subst l.
Qed.

Lemma result_keys_witness :
  [Entry (u "13812345678") 0 11 (u "【13812345678】") 80] ≠ []
  ∧ "phone" ∈ requested init (Some ["phone"])
  ∧ ∃ info, lookup_pattern "phone" patterns = Some info.
Proof.
  refine (result_keys init (Some (u "13812345678")) (Some ["phone"])
            {[ "phone" := [Entry (u "13812345678") 0 11 (u "【13812345678】") 80] ]}
            "phone" [Entry (u "13812345678") 0 11 (u "【13812345678】") 80] _ _).
  - vm_compute. reflexivity.
  - reflexivity.
Defined.

(** ** Where matches and entries lie *)

Lemma is_match_bounds icase r string m :
  is_match icase r string m →
  m_string m = string ∧ 0 ≤ m_start m ∧ m_start m ≤ m_end m ∧ m_end m ≤ len string.
Proof.
  intros (i & s' & Hi & Hd & ->). cbn [m_string m_start m_end].
  apply denote_consumes in Hd as [w Hw].
  destruct (consumed_sits_at _ _ _ _ _ Hi (sits_at_cursor_at string i) Hw)
    as ((_ & _ & Hp) & _ & Hle).
  unfold len. split_and!; [done|lia..].
Qed.

(** The matches of [finditer] come in the order of the text and do not
    overlap. *)
Lemma finditer_at_sorted icase r string : ∀ after i skip,
  (i ≤ length string)%nat → after = drop i string →
  Forall (λ m, Z.of_nat i + Z.of_nat skip ≤ m_start m)
         (finditer_at icase r string (reverse (take i string)) (Z.of_nat i) after skip)
  ∧ StronglySorted (λ m1 m2, m_end m1 ≤ m_start m2)
         (finditer_at icase r string (reverse (take i string)) (Z.of_nat i) after skip).
Proof.
  assert (∀ c rest i, drop i string = c :: rest →
            c :: reverse (take i string) = reverse (take (S i) string)
            ∧ Z.of_nat i + 1 = Z.of_nat (S i) ∧ rest = drop (S i) string
            ∧ (S i ≤ length string)%nat) as Hstep.
  { intros c rest i Hd. apply drop_cons_inv in Hd as (Ht & Hd & Hlt).
    rewrite Ht, reverse_snoc. split_and!; [done | lia | done | lia]. }
  induction after as [|c rest IH]; intros i skip Hi Hafter.
  - destruct skip as [|skip]; simpl; [|split; constructor].
    rewrite Hafter. fold (cursor_at string i).
    destruct (match_here _ _ _ _) as [m|] eqn:Hm; [|split; constructor].
    apply match_here_sound in Hm as (s' & _ & ->).
    split; repeat constructor. simpl. lia.
  - symmetry in Hafter. pose proof (Hstep _ _ _ Hafter) as (Hb & Hz & Hr & Hle).
    destruct skip as [|skip]; simpl; rewrite Hb, Hz.
    + rewrite <- Hafter. fold (cursor_at string i).
      destruct (match_here _ _ _ _) as [m|] eqn:Hm.
      * destruct (IH (S i) (Z.to_nat (m_end m - Z.of_nat i) - 1)%nat Hle Hr)
          as [Hall Hsorted].
        pose proof (match_here_is_match _ _ _ i _ Hi Hm) as Hbounds%is_match_bounds.
        apply match_here_sound in Hm as (s' & _ & Hmeq).
        assert (m_start m = Z.of_nat i) as Hstart by (by rewrite Hmeq).
        split.
        -- constructor; [lia|]. eapply Forall_impl; [exact Hall|].
           intros m'. simpl. lia.
        -- constructor; [done|]. eapply Forall_impl; [exact Hall|].
           intros m'. simpl. lia.
      * destruct (IH (S i) O Hle Hr) as [Hall Hsorted]. split; [|done].
        eapply Forall_impl; [exact Hall|]. intros m'. simpl. lia.
    + destruct (IH (S i) skip Hle Hr) as [Hall Hsorted]. split; [|done].
      eapply Forall_impl; [exact Hall|]. intros m'. simpl. lia.
Qed.

Lemma finditer_sorted icase r string :
  StronglySorted (λ m1 m2, m_end m1 ≤ m_start m2) (finditer icase r string).
Proof.
  unfold finditer. apply (finditer_at_sorted icase r string string O O); [lia|done].
Qed.

Lemma slice_length (s : str) i j :
  0 ≤ i → i ≤ j → j ≤ len s → len (slice s i j) = j - i.
Proof.
  unfold slice, len. intros ? ? ?. rewrite length_take, length_drop. lia.
Qed.

(** The entry built for a match of a registered pattern: it lies inside the
    match, is not empty, and its value is the text between its offsets. *)
Lemma entry_span k info text m c :
  lookup_pattern k patterns = Some info →
  m ∈ finditer true (pattern info) text →
  value (make_entry k m text c)
  = slice text (start (make_entry k m text c)) (end_ (make_entry k m text c))
  ∧ context (make_entry k m text c)
    = _get_context text (start (make_entry k m text c)) (end_ (make_entry k m text c)) 20
  ∧ 0 ≤ m_start m
  ∧ m_start m ≤ start (make_entry k m text c)
  ∧ start (make_entry k m text c) < end_ (make_entry k m text c)
  ∧ end_ (make_entry k m text c) ≤ m_end m
  ∧ m_end m ≤ len text.
Proof.
  intros Hinfo Hm.
  pose proof (finditer_sound _ _ _ _ Hm) as (Hstring & H0 & _ & Hlen)%is_match_bounds.
  pose proof (finditer_not_empty _ _ _ _ Hinfo Hm) as Hne.
  destruct (String.eqb_spec k "password") as [->|Hk].
  - rewrite lookup_password in Hinfo. injection Hinfo as <-.
    cbn [pattern] in Hm.
    destruct (password_match_shape _ _ Hm)
      as (pre & label & sep & spaces & cred & post & Htext & _ & _ & _
          & Hcred & _ & _ & Hstart & Hend & Hspan & Hgroups).
    rewrite (make_entry_password _ _ _ _ _ Hgroups Hspan), Hstring.
    cbn [value start end_ context]. unfold len in *.
    rewrite !length_app in *. simpl in *. split_and!; [done|done|lia..].
  - unfold make_entry. apply String.eqb_neq in Hk. rewrite Hk. simpl.
    unfold group. rewrite Hstring. split_and!; [done|done|lia..].
Qed.

Lemma kept_elem t k v text : ∀ ms es e,
  kept t k v text ms = Ok es → e ∈ es →
  ∃ m c, m ∈ ms ∧ e = make_entry k m text c.
Proof.
  induction ms as [|m ms IH]; intros es e; simpl.
  - intros [= <-] He. by apply elem_of_nil in He.
  - destruct (confidence_of v m text) as [c|]; simpl; [|done].
    destruct (kept t k v text ms) as [es'|]; simpl; [|done].
    intros [= <-] He.
    assert (e = make_entry k m text c ∨ e ∈ es') as [->|He'].
    { destruct (c <? t); [by right|]. by apply elem_of_cons in He. }
    + exists m, c. split; [by apply elem_of_cons; left|done].
    + destruct (IH _ _ eq_refl He') as (m' & c' & Hm' & ->).
      exists m', c'. split; [by apply elem_of_cons; right|done].
Qed.

Lemma kept_sorted t k v text : ∀ ms es,
  (∀ m c, m ∈ ms →
     m_start m ≤ start (make_entry k m text c)
     ∧ end_ (make_entry k m text c) ≤ m_end m) →
  StronglySorted (λ m1 m2, m_end m1 ≤ m_start m2) ms →
  kept t k v text ms = Ok es →
  StronglySorted (λ e1 e2, end_ e1 ≤ start e2) es.
Proof.
  induction ms as [|m ms IH]; intros es Hspan Hsorted; simpl.
  - intros [= <-]. constructor.
  - destruct (confidence_of v m text) as [c|]; simpl; [|done].
    destruct (kept t k v text ms) as [es'|] eqn:Hkept; simpl; [|done].
    intros [= <-]. apply StronglySorted_inv in Hsorted as [Hsorted Hall].
    assert (StronglySorted (λ e1 e2, end_ e1 ≤ start e2) es') as Hes'.
    { apply (IH es'); [|done|done]. intros m' c' Hm'. apply Hspan.
      by apply elem_of_cons; right. }
    destruct (c <? t); [done|]. constructor; [done|].
    apply Forall_forall. intros e' He'.
    destruct (kept_elem _ _ _ _ _ _ _ Hkept He') as (m' & c' & Hm' & ->).
    pose proof (proj1 (Forall_forall _ _) Hall _ Hm') as Hmm'. simpl in Hmm'.
    destruct (Hspan m c ltac:(by apply elem_of_cons; left)) as [_ ?].
    destruct (Hspan m' c' ltac:(by apply elem_of_cons; right)) as [? _].
    lia.
Qed.

Lemma found_sorted t text k es :
  found t text k = Ok es →
  StronglySorted (λ e1 e2, end_ e1 ≤ start e2) es.
Proof.
  unfold found. destruct (lookup_pattern k patterns) as [info|] eqn:Hinfo.
  - apply kept_sorted; [|apply finditer_sorted].
    intros m c Hm. pose proof (entry_span k info text m c Hinfo Hm). lia.
  - intros [= <-]. constructor.
Qed.

Lemma times_requested_NoDup (k : string) type_ids :
  NoDup type_ids → k ∈ type_ids → times_requested k type_ids = 1%nat.
Proof.
  unfold times_requested. induction 1 as [|x l Hx _ IH]; [intros H; by apply elem_of_nil in H|].
  intros [->|Hk]%elem_of_cons.
  - rewrite filter_cons_True by done. simpl.
    by rewrite (times_requested_not_in _ _ Hx).
  - rewrite filter_cons_False by (intros ->; done). by apply IH.
Qed.

(** X3: every entry lies in the text.  Its offsets are in bounds and not
    empty, its value is the text between them, and its context is the
    window around them. *)
Theorem entries_lie_in_text self text info_types results k l e :
  detect_sensitive_info self (Some text) info_types = Ok results →
  results !! k = Some l → e ∈ l →
  0 ≤ start e ∧ start e < end_ e ∧ end_ e ≤ len text
  ∧ value e = slice text (start e) (end_ e)
  ∧ len (value e) = end_ e - start e
  ∧ context e = _get_context text (start e) (end_ e) 20.
Proof.
  intros Hdet Hl He. rewrite <- (matches_of_lookup _ _ _ Hl) in He.
  destruct (detect_reported _ _ _ _ _ _ Hdet He)
    as (text' & [= <-] & info & m & c & Hinfo & Hm & _ & _ & ->).
  destruct (entry_span k info text m c Hinfo Hm) as (Hv & Hc & ? & ? & ? & ? & ?).
  split_and!; [lia|lia|lia|done| |done].
  rewrite Hv at 1. apply slice_length; lia.
Qed.

Lemma entries_lie_in_text_witness :
  0 ≤ 0 ∧ 0 < 11 ∧ 11 ≤ len (u "13812345678")
  ∧ u "13812345678" = slice (u "13812345678") 0 11
  ∧ len (u "13812345678") = 11 - 0
  ∧ u "【13812345678】" = _get_context (u "13812345678") 0 11 20.
Proof.
  refine (entries_lie_in_text init (u "13812345678") (Some ["phone"])
            {[ "phone" := [Entry (u "13812345678") 0 11 (u "【13812345678】") 80] ]}
            "phone" [Entry (u "13812345678") 0 11 (u "【13812345678】") 80]
            (Entry (u "13812345678") 0 11 (u "【13812345678】") 80) _ _ _).
  - vm_compute. reflexivity.
  - reflexivity.
  - apply elem_of_cons. by left.
Defined.

(** X4: when no type is requested twice, the entries of every type stand in
    the order of the text and do not overlap. *)
Theorem entries_in_text_order self text info_types results k :
  NoDup (requested self info_types) →
  detect_sensitive_info self (Some text) info_types = Ok results →
  StronglySorted (λ e1 e2, end_ e1 ≤ start e2) (matches_of results k).
Proof.
  intros Hnodup Hdet.
  destruct (decide (Forall (λ c, Unicode.isspace c = true) text)) as [Hb|Hb].
  { rewrite (blank_text_no_scan _ _ _ Hb) in Hdet. injection Hdet as <-.
    rewrite matches_of_empty. constructor. }
  destruct (detect_scan_exact _ _ _ _ Hdet Hb) as [_ Hall].
  destruct (Hall k) as [Hin Hout].
  destruct (decide (k ∈ requested self info_types)) as [Hk|Hk].
  - destruct (Hin Hk) as (es & Hfound & ->).
    rewrite (times_requested_NoDup _ _ Hnodup Hk). simpl. rewrite app_nil_r.
    by eapply found_sorted.
  - rewrite (Hout Hk). constructor.
Qed.

Lemma entries_in_text_order_witness :
  StronglySorted (λ e1 e2, end_ e1 ≤ start e2)
    (matches_of
       {[ "phone" :=
            [Entry (u "13812345678") 0 11 (u "【13812345678】,13711112222") 80;
             Entry (u "13711112222") 12 23 (u "13812345678,【13711112222】") 80] ]}
       "phone").
Proof.
  refine (entries_in_text_order init (u "13812345678,13711112222") (Some ["phone"])
            {[ "phone" :=
                 [Entry (u "13812345678") 0 11 (u "【13812345678】,13711112222") 80;
                  Entry (u "13711112222") 12 23 (u "13812345678,【13711112222】") 80] ]}
            "phone" _ _).
  - apply NoDup_singleton.
  - vm_compute. reflexivity.
Defined.

(** ** The scores of the validators *)

Lemma lookup_pattern_elem_key type_id l info :
  lookup_pattern type_id l = Some info → (type_id, info) ∈ l.
Proof.
  induction l as [|[k i] l IH]; [done|].
  unfold lookup_pattern; fold lookup_pattern.
  destruct (String.eqb_spec type_id k) as [->|].
  - intros [= ->]. by apply elem_of_cons; left.
  - intros Hin%IH. by apply elem_of_cons; right.
Qed.

Ltac score_cases :=
  unfold mbind, result_bind in *;
  repeat case_match; simplify_eq;
  repeat (first [apply list_elem_of_here | apply list_elem_of_further]).

Lemma validator_scores type_id info m text c :
  lookup_pattern type_id patterns = Some info →
  confidence_of (validator info) m text = Ok c →
  c ∈ scores type_id.
Proof.
  intros Hinfo%lookup_pattern_elem_key. unfold patterns in Hinfo.
  repeat (apply elem_of_cons in Hinfo as [[= -> ->]|Hinfo]);
    [..|by apply elem_of_nil in Hinfo];
    cbn [validator confidence_of]; intros Hc.
  - unfold _validate_phone in Hc. cbv zeta in Hc. score_cases.
  - unfold _validate_landline in Hc. cbv zeta in Hc. score_cases.
  - unfold _validate_id_card in Hc. cbv zeta in Hc. score_cases.
  - unfold _validate_address in Hc. cbv zeta in Hc. score_cases.
  - unfold _validate_email in Hc. cbv zeta in Hc. score_cases.
  - unfold _validate_password in Hc. cbv zeta in Hc. score_cases.
  - unfold _validate_credit_card in Hc. cbv zeta in Hc. score_cases.
  - unfold _validate_ip_address in Hc. cbv zeta in Hc. score_cases.
Qed.

(** X5: the confidence of an entry is one of the scores of its type's
    validator, hence between 0 and 100, and it is at least the threshold. *)
Theorem entry_confidence_is_a_score self text info_types results k l e :
  detect_sensitive_info self text info_types = Ok results →
  results !! k = Some l → e ∈ l →
  confidence e ∈ scores k
  ∧ 0 ≤ confidence e ≤ 100
  ∧ confidence_threshold self ≤ confidence e.
Proof.
  intros Hdet Hl He. rewrite <- (matches_of_lookup _ _ _ Hl) in He.
  destruct (detect_reported _ _ _ _ _ _ Hdet He)
    as (text' & _ & info & m & c & Hinfo & _ & Hc & Hge & ->).
  rewrite make_entry_confidence.
  pose proof (validator_scores _ _ _ _ _ Hinfo Hc) as Hs.
  split_and!; [done| | |done].
  - apply lookup_pattern_elem_key in Hinfo. unfold patterns in Hinfo.
    repeat (apply elem_of_cons in Hinfo as [[= -> ->]|Hinfo]);
      [..|by apply elem_of_nil in Hinfo];
      vm_compute in Hs;
      repeat (apply elem_of_cons in Hs as [->|Hs]; [lia|]);
      by apply elem_of_nil in Hs.
  - apply lookup_pattern_elem_key in Hinfo. unfold patterns in Hinfo.
    repeat (apply elem_of_cons in Hinfo as [[= -> ->]|Hinfo]);
      [..|by apply elem_of_nil in Hinfo];
      vm_compute in Hs;
      repeat (apply elem_of_cons in Hs as [->|Hs]; [lia|]);
      by apply elem_of_nil in Hs.
Qed.

Lemma entry_confidence_is_a_score_witness :
  80 ∈ scores "phone" ∧ 0 ≤ 80 ≤ 100 ∧ confidence_threshold init ≤ 80.
Proof.
  refine (entry_confidence_is_a_score init (Some (u "13812345678")) (Some ["phone"])
            {[ "phone" := [Entry (u "13812345678") 0 11 (u "【13812345678】") 80] ]}
            "phone" [Entry (u "13812345678") 0 11 (u "【13812345678】") 80]
            (Entry (u "13812345678") 0 11 (u "【13812345678】") 80) _ _ _).
  - vm_compute. reflexivity.
  - reflexivity.
  - apply elem_of_cons. by left.
Defined.

(** ** The context windows *)

Lemma slice_app (s : str) a b c :
  0 ≤ a → a ≤ b → b ≤ c → slice s a c = slice s a b ++ slice s b c.
Proof.
  intros ? ? ?. unfold slice.
  replace (Z.to_nat (c - a)) with (Z.to_nat (b - a) + Z.to_nat (c - b))%nat by lia.
  rewrite <- take_take_drop, drop_drop. do 3 f_equal. lia.
Qed.

(** The window of [_get_context_text]: before, at and after the match. *)
Lemma context_text_split text start end_ context_size :
  0 ≤ start → start ≤ end_ → end_ ≤ len text → 0 ≤ context_size →
  _get_context_text text start end_ context_size
  = slice text (Z.max 0 (start - context_size)) start
    ++ slice text start end_
    ++ slice text end_ (Z.min (len text) (end_ + context_size)).
Proof.
  intros H0 Hse Hlen Hsize. unfold _get_context_text. cbv zeta.
  rewrite (slice_app text _ start) by lia.
  by rewrite (slice_app text start end_) by lia.
Qed.

(** X6: the two context functions cut the same window.  For offsets in the
    text, [_get_context] is the window of [_get_context_text] with the
    match between brackets; the window reaches [context_size] characters to
    each side, or to the end of the text where that is nearer. *)
Theorem context_window text start end_ context_size :
  0 ≤ start → start ≤ end_ → end_ ≤ len text → 0 ≤ context_size →
  ∃ prefix suffix,
    _get_context text start end_ context_size
    = prefix ++ u "【" ++ slice text start end_ ++ u "】" ++ suffix
    ∧ _get_context_text text start end_ context_size
      = prefix ++ slice text start end_ ++ suffix
    ∧ len prefix = Z.min start context_size
    ∧ len suffix = Z.min (len text - end_) context_size.
Proof.
  intros H0 Hse Hlen Hsize.
  exists (slice text (Z.max 0 (start - context_size)) start),
         (slice text end_ (Z.min (len text) (end_ + context_size))).
  split_and!.
  - done.
  - by apply context_text_split.
  - rewrite slice_length by lia. lia.
  - rewrite slice_length by lia. lia.
Qed.

Lemma context_window_witness :
  ∃ prefix suffix,
    _get_context (u "tel 13812345678 ok") 4 15 20
    = prefix ++ u "【" ++ slice (u "tel 13812345678 ok") 4 15 ++ u "】" ++ suffix
    ∧ _get_context_text (u "tel 13812345678 ok") 4 15 20
      = prefix ++ slice (u "tel 13812345678 ok") 4 15 ++ suffix
    ∧ len prefix = Z.min 4 20
    ∧ len suffix = Z.min (len (u "tel 13812345678 ok") - 15) 20.
Proof.
  refine (context_window (u "tel 13812345678 ok") 4 15 20 _ _ _ _).
  - lia.
  - lia.
  - vm_compute. discriminate.
  - lia.
Defined.

(** ** Numbers *)

Lemma decimal_value_digit c :
  Unicode.isdecimal c = true → ∃ v, Unicode.decimal_value c = Some v ∧ 0 ≤ v ≤ 9.
Proof.
  unfold Unicode.isdecimal, Unicode.decimal_value.
  induction Unicode.decimal_zeros as [|z zs IH]; simpl; [done|].
  destruct ((z <=? c) && (c <=? z + 9)) eqn:Hz; simpl.
  - intros _. exists (c - z). split; [done|].
    apply andb_true_iff in Hz as [?%Z.leb_le ?%Z.leb_le]. lia.
  - exact IH.
Qed.

Lemma mapM_decimal_value s :
  Forall (λ c, Unicode.isdecimal c = true) s →
  ∃ vs, mapM Unicode.decimal_value s = Some vs
        ∧ Forall2 (λ c v, Unicode.decimal_value c = Some v ∧ 0 ≤ v ≤ 9) s vs.
Proof.
  induction 1 as [|c s Hc _ (vs & Hvs & Hall)]; [by exists []|].
  destruct (decimal_value_digit c Hc) as (v & Hv & ?).
  exists (v :: vs). split; [|by constructor].
  simpl. rewrite Hv. simpl. rewrite Hvs. done.
Qed.

(** [int] accepts every non-empty run of decimal digits. *)
Lemma int_digits s :
  s ≠ [] → Forall (λ c, Unicode.isdecimal c = true) s → ∃ n, int s = Ok n.
Proof.
  intros Hs (vs & Hvs & _)%mapM_decimal_value.
  destruct s as [|c s]; [done|]. unfold int. rewrite Hvs. eauto.
Qed.

Lemma int_newline : int [10] = Raise (ValueError_int [10]).
Proof. reflexivity. Qed.

(** The digits of a card number that passed the format check: the list
    comprehension raises on the newline the check lets through, and on
    nothing else. *)
Lemma comprehension_card ds tail :
  Forall (λ c, Unicode.isdecimal c = true) ds → tail = [] ∨ tail = [10] →
  match comprehension (λ d, int [d]) (ds ++ tail) with
  | Ok _ => tail = []
  | Raise e => tail = [10] ∧ e = ValueError_int [10]
  end.
Proof.
  intros Hds Htail. induction Hds as [|d ds Hd _ IH].
  - destruct Htail as [->| ->]; simpl; done.
  - destruct (int_digits [d]) as [n Hn]; [done|by constructor|].
    change (comprehension (λ d, int [d]) ((d :: ds) ++ tail))
      with (y ← int [d]; ys ← comprehension (λ d, int [d]) (ds ++ tail); Ok (y :: ys)).
    rewrite Hn. simpl.
    destruct (comprehension _ (ds ++ tail)); simpl; done.
Qed.

(** ** Exceptions of the validators *)

(** The card validator raises one exception only: [int] of the newline
    after a number that passed the format check. *)
Lemma validate_credit_card_raises m text e :
  _validate_credit_card m text = Raise e →
  e = ValueError_int [10]
  ∧ ∃ ds, remove_char 45 (remove_char 32 (group m)) = ds ++ [10]
          ∧ Forall (λ c, Unicode.isdecimal c = true) ds
          ∧ (16 ≤ length ds ≤ 19)%nat.
Proof.
  unfold _validate_credit_card. cbv zeta.
  destruct (matches _ _) eqn:Hfmt; simpl; [|done].
  destruct (has_keyword _ _); [done|].
  destruct (card_format _ Hfmt) as (ds & tail & Hcard & Hds & Hlen & Htail).
  pose proof (comprehension_card ds tail Hds Htail) as Hcomp.
  rewrite <- Hcard in Hcomp.
  destruct (comprehension _ _) as [digits|e']; simpl.
  - by destruct (negb _).
  - intros [= <-]. destruct Hcomp as [-> ->]. split; [done|]. by exists ds.
Qed.

Lemma simple_validators_never_raise m text e :
  _validate_phone m text ≠ Raise e
  ∧ _validate_landline m text ≠ Raise e
  ∧ _validate_address m text ≠ Raise e
  ∧ _validate_email m text ≠ Raise e
  ∧ _validate_password m text ≠ Raise e.
Proof.
  unfold _validate_phone, _validate_landline, _validate_address,
    _validate_email, _validate_password.
  cbv zeta. split_and!; intros H; repeat case_match; done.
Qed.

(** ** The matcher finds a match when there is one *)

Lemma repeat_loop_complete {A} (body : (cursor → option A) → cursor → option A)
    (R : cursor → cursor → Prop) lo (k : cursor → option A) s' :
  (∀ k s m, R s m → is_Some (k m) → is_Some (body k s)) →
  is_Some (k s') →
  ∀ j fuel n s,
    iter R j s s' → (lo ≤ n + j)%nat → (j ≤ fuel)%nat →
    is_Some (repeat_loop body lo k fuel n s).
Proof.
  intros Hbody Hk. induction j as [|j IH]; intros fuel n s; simpl.
  - intros -> Hlo _. destruct fuel as [|fuel]; simpl.
    + by rewrite (proj2 (Nat.leb_le lo n)) by lia.
    + destruct (body _ s); [done|]. by rewrite (proj2 (Nat.leb_le lo n)) by lia.
  - intros (m & Hm & Hit) Hlo Hfuel. destruct fuel as [|fuel]; [lia|]. simpl.
    assert (is_Some (body (repeat_loop body lo k fuel (S n)) s)) as [y ->]; [|done].
    apply (Hbody _ _ m Hm). apply IH; [done|lia|lia].
Qed.

Lemma run_complete {A} icase r : ∀ (k : cursor → option A) s s',
  productive r → denote icase r s s' → is_Some (k s') → is_Some (run icase r k s).
Proof.
  induction r as [|p|r1 IH1 r2 IH2|r1 IH1 r2 IH2|lo hi r IH|r IH|p|p| | |];
    intros k s s' Hprod; simpl.
  - by intros ->.
  - intros (c & rest & -> & -> & ->). done.
  - destruct Hprod as [H1 H2]. intros (m & Hd1 & Hd2) Hk.
    apply (IH1 _ _ m H1 Hd1). by apply (IH2 _ _ s').
  - destruct Hprod as [H1 H2]. intros Hd Hk.
    destruct (run icase r1 k s) eqn:Hr1; [done|].
    destruct Hd as [Hd|Hd]; [|by apply (IH2 _ _ s')].
    destruct (IH1 _ _ s' H1 Hd Hk) as [y Hy]. congruence.
  - destruct Hprod as [Hr Hopen]. intros (n & Hlo & Hhi & Hit) Hk.
    apply (repeat_loop_complete _ (denote icase r) lo k s') with (j := n);
      [|done|done|lia|].
    + intros k' s0 m Hm Hk'. by apply (IH _ _ m).
    + destruct hi as [h|]; [by apply Hhi|].
      pose proof (iter_min_len _ _ (denote_min_len icase r) _ _ _ Hit).
      specialize (Hopen eq_refl). nia.
  - intros (m & Hd & ->) Hk. by apply (IH _ _ m).
  - intros [-> Hb]. unfold assert_not in Hb. destruct (behind s); [done|].
    by rewrite Hb.
  - intros [-> Hb]. unfold assert_not in Hb. destruct (ahead s); [done|].
    by rewrite Hb.
  - intros [-> ->]. done.
  - intros [-> ->]. done.
  - intros [-> [-> | ->]]; done.
Qed.

(** ** The characters of a match *)

Lemma iter_leaves (R : cursor → cursor → Prop) (Q : Z → Prop) :
  (∀ s s', R s s' → ∃ w, consumed s w s' ∧ Forall Q w) →
  ∀ n s s', iter R n s s' → ∃ w, consumed s w s' ∧ Forall Q w.
Proof.
  intros HR. induction n as [|n IH]; intros s s'; simpl.
  - intros ->. exists []. split; [apply consumed_nil|done].
  - intros (m & Hm & Hit). apply HR in Hm as (w1 & H1 & HQ1).
    apply IH in Hit as (w2 & H2 & HQ2).
    exists (w1 ++ w2). split; [by eapply consumed_app|by apply Forall_app].
Qed.

Lemma denote_leaves icase Q r : ∀ s s',
  leaves icase Q r → denote icase r s s' → ∃ w, consumed s w s' ∧ Forall Q w.
Proof.
  induction r as [|p|r1 IH1 r2 IH2|r1 IH1 r2 IH2|lo hi r IH|r IH|p|p| | |];
    intros s s' HQ; simpl in *;
    try (intros [-> _]; exists []; split; [apply consumed_nil|done]).
  - intros ->. exists []. split; [apply consumed_nil|done].
  - intros (c & rest & Ha & Hp & ->). exists [c].
    split; [by apply consumed_advance|]. constructor; [by apply HQ|done].
  - destruct HQ as [HQ1 HQ2]. intros (m & H1 & H2).
    apply (IH1 _ _ HQ1) in H1 as (w1 & H1 & ?). apply (IH2 _ _ HQ2) in H2 as (w2 & H2 & ?).
    exists (w1 ++ w2). split; [by eapply consumed_app|by apply Forall_app].
  - destruct HQ as [HQ1 HQ2]. intros [H|H]; [by apply IH1|by apply IH2].
  - intros (n & _ & _ & Hit). eapply iter_leaves; [|exact Hit].
    intros s0 s1. by apply IH.
  - intros (m & H & ->). apply (IH _ _ HQ) in H as (w & H & ?). by exists w.
Qed.

(** The text of a match is what the pattern consumed. *)
Lemma consumed_group string i w s' m :
  (i ≤ length string)%nat →
  consumed (cursor_at string i) w s' →
  m_string m = string → m_start m = Z.of_nat i → m_end m = pos s' →
  group m = w.
Proof.
  intros Hi Hw Hs Hstart Hend.
  destruct (consumed_sits_at _ _ _ _ _ Hi (sits_at_cursor_at string i) Hw)
    as ((_ & _ & Hp) & Hdrop & _).
  unfold group, slice. rewrite Hs, Hstart, Hend, Hp, Nat2Z.id.
  replace (Z.to_nat (Z.of_nat (i + length w) - Z.of_nat i)) with (length w) by lia.
  rewrite Hdrop. apply take_app_length.
Qed.

Lemma finditer_group_leaves icase Q r text m :
  leaves icase Q r → m ∈ finditer icase r text → Forall Q (group m).
Proof.
  intros HQ (i & s' & Hi & Hd & ->)%finditer_sound.
  apply (denote_leaves _ _ _ _ _ HQ) in Hd as (w & Hw & HQw).
  by rewrite (consumed_group text i w s' _ Hi Hw).
Qed.

(** ** Identity card numbers *)

Lemma denote_char_exact p s s' :
  denote false (Char p) s s' → ∃ c, consumed s [c] s' ∧ p c = true.
Proof.
  intros (c & rest & Ha & Hp & ->). rewrite char_test_exact in Hp.
  exists c. split; [by apply consumed_advance|done].
Qed.

Lemma denote_lits_exact w s s' : denote false (lits w) s s' → consumed s (u w) s'.
Proof. apply denote_text_exact. Qed.

Lemma between_spec a b x y c :
  u a = [x] → u b = [y] → between a b c = true → x ≤ c ≤ y.
Proof.
  unfold between. intros -> ->. intros [?%Z.leb_le ?%Z.leb_le]%andb_true_iff. lia.
Qed.

Lemma consumed_ahead s w s' : consumed s w s' → ahead s = w ++ ahead s'.
Proof. by intros (? & _). Qed.

Lemma times_char_exact n p s s' :
  denote false (times n n (Char p)) s s' →
  ∃ w, consumed s w s' ∧ length w = n ∧ Forall (λ c, p c = true) w.
Proof.
  intros (w & Hw & Hlen & Hall)%denote_times_char.
  exists w. split_and!; [done|lia|].
  eapply Forall_impl; [exact Hall|]. intros c Hc. simpl in Hc.
  by rewrite char_test_exact in Hc.
Qed.

(** The format check of [_validate_id_card]: the six digits of the region,
    a year that starts with 19 or 20, a month from 01 to 12 and a day
    from 01 to 31. *)
Lemma id_card_format g :
  matches (cat [Bol; id_card_body; Eol]) g = true →
  ∃ region y1 y2 y3 y4 m1 m2 d1 d2 rest,
    g = region ++ [y1; y2; y3; y4; m1; m2; d1; d2] ++ rest
    ∧ length region = 6%nat
    ∧ ((y1 = 49 ∧ y2 = 57) ∨ (y1 = 50 ∧ y2 = 48))
    ∧ Unicode.isdecimal y3 = true ∧ Unicode.isdecimal y4 = true
    ∧ ((m1 = 48 ∧ 49 ≤ m2 ≤ 57) ∨ (m1 = 49 ∧ 48 ≤ m2 ≤ 50))
    ∧ ((d1 = 48 ∧ 49 ≤ d2 ≤ 57)
       ∨ ((d1 = 49 ∨ d1 = 50) ∧ Unicode.isdecimal d2 = true)
       ∨ (d1 = 51 ∧ (d2 = 48 ∨ d2 = 49))).
Proof.
  unfold matches. destruct (re_match_ _ _ _) as [m|] eqn:Hm; [intros _|done].
  apply re_match_sound in Hm as (s' & Hd & _).
  unfold id_card_body in Hd. cbn [cat alts denote] in Hd.
  destruct Hd as (s0 & [-> _] & s9 & Hbody & _).
  destruct Hbody as (s1 & H0 & s2 & H1 & s3 & H2 & s4 & H3 & s5 & H4 & s6 & H5 & _).
  apply denote_char_exact in H0 as (c0 & H0%consumed_ahead & _).
  apply times_char_exact in H1 as (w5 & H1%consumed_ahead & Hlen5 & _).
  apply times_char_exact in H3 as (w2 & H3%consumed_ahead & Hlen2 & Hw2).
  destruct w2 as [|y3 [|y4 [|? ?]]]; try done.
  apply Forall_cons in Hw2 as [Hy3 [Hy4 _]%Forall_cons].
  assert (∃ y1 y2, ahead s2 = [y1; y2] ++ ahead s3
                   ∧ ((y1 = 49 ∧ y2 = 57) ∨ (y1 = 50 ∧ y2 = 48))) as (y1 & y2 & H2' & Hy).
  { destruct H2 as [H|[H|H]].
    - apply denote_lits_exact, consumed_ahead in H. exists 49, 57. split; [done|by left].
    - apply denote_lits_exact, consumed_ahead in H. exists 50, 48. split; [done|by right].
    - by destruct H as (? & ? & _ & ? & _). }
  assert (∃ m1 m2, ahead s4 = [m1; m2] ++ ahead s5
                   ∧ ((m1 = 48 ∧ 49 ≤ m2 ≤ 57) ∨ (m1 = 49 ∧ 48 ≤ m2 ≤ 50)))
    as (m1 & m2 & H4' & Hmonth).
  { destruct H4 as [H|[H|H]].
    - destruct H as (sa & Ha%denote_lits_exact%consumed_ahead
                     & sb & (c & Hb%consumed_ahead & Hc)%denote_char_exact & ->).
      exists 48, c. split; [by rewrite Ha, Hb|]. left. split; [done|].
      by apply (between_spec "1" "9" 49 57).
    - destruct H as (sa & Ha%denote_lits_exact%consumed_ahead
                     & sb & (c & Hb%consumed_ahead & Hc)%denote_char_exact & ->).
      exists 49, c. split; [by rewrite Ha, Hb|]. right. split; [done|].
      by apply (between_spec "0" "2" 48 50).
    - by destruct H as (? & ? & _ & ? & _). }
  assert (∃ d1 d2, ahead s5 = [d1; d2] ++ ahead s6
                   ∧ ((d1 = 48 ∧ 49 ≤ d2 ≤ 57)
                      ∨ ((d1 = 49 ∨ d1 = 50) ∧ Unicode.isdecimal d2 = true)
                      ∨ (d1 = 51 ∧ (d2 = 48 ∨ d2 = 49))))
    as (d1 & d2 & H5' & Hday).
  { destruct H5 as [H|[H|[H|H]]].
    - destruct H as (sa & Ha%denote_lits_exact%consumed_ahead
                     & sb & (c & Hb%consumed_ahead & Hc)%denote_char_exact & ->).
      exists 48, c. split; [by rewrite Ha, Hb|]. left. split; [done|].
      by apply (between_spec "1" "9" 49 57).
    - destruct H as (sa & (c1 & Ha%consumed_ahead & Hc1)%denote_char_exact
                     & sb & (c & Hb%consumed_ahead & Hc)%denote_char_exact & ->).
      exists c1, c. split; [by rewrite Ha, Hb|]. right. left. split; [|done].
      apply one_of_spec in Hc1. change (u "12") with [49; 50] in Hc1.
      apply elem_of_cons in Hc1 as [->|Hc1]; [auto|].
      apply list_elem_of_singleton in Hc1 as ->. auto.
    - destruct H as (sa & Ha%denote_lits_exact%consumed_ahead
                     & sb & (c & Hb%consumed_ahead & Hc)%denote_char_exact & ->).
      exists 51, c. split; [by rewrite Ha, Hb|]. right. right. split; [done|].
      apply one_of_spec in Hc. change (u "01") with [48; 49] in Hc.
      apply elem_of_cons in Hc as [->|Hc]; [auto|].
      apply list_elem_of_singleton in Hc as ->. auto.
    - by destruct H as (? & ? & _ & ? & _). }
  exists (c0 :: w5), y1, y2, y3, y4, m1, m2, d1, d2, (ahead s6).
  split_and!; try done; [|simpl; lia].
  change (ahead (cursor_at g 0)) with g in H0.
  by rewrite H0, H1, H2', H3, H4', H5'.
Qed.

Lemma int_2 a b va vb :
  Unicode.decimal_value a = Some va → Unicode.decimal_value b = Some vb →
  int [a; b] = Ok (va * 10 + vb).
Proof. intros Ha Hb. unfold int. simpl. rewrite Ha, Hb. done. Qed.

Lemma int_4 a b c d va vb vc vd :
  Unicode.decimal_value a = Some va → Unicode.decimal_value b = Some vb →
  Unicode.decimal_value c = Some vc → Unicode.decimal_value d = Some vd →
  int [a; b; c; d] = Ok (((va * 10 + vb) * 10 + vc) * 10 + vd).
Proof. intros Ha Hb Hc Hd. unfold int. simpl. rewrite Ha, Hb, Hc, Hd. done. Qed.

Lemma decimal_value_ascii c :
  48 ≤ c ≤ 57 → Unicode.decimal_value c = Some (c - 48).
Proof.
  intros Hc. unfold Unicode.decimal_value, Unicode.decimal_zeros. simpl.
  destruct (Z.leb_spec 48 c); [|lia]. destruct (Z.leb_spec c (48 + 9)); [|lia].
  done.
Qed.

(** The dates a formatted identity card number can hold. *)
Lemma id_card_dates g :
  matches (cat [Bol; id_card_body; Eol]) g = true →
  ∃ year month day,
    int (slice g 6 10) = Ok year ∧ int (slice g 10 12) = Ok month
    ∧ int (slice g 12 14) = Ok day
    ∧ 1900 ≤ year ≤ 2099 ∧ 1 ≤ month ≤ 12 ∧ 1 ≤ day ≤ 31.
Proof.
  intros Hfmt.
  destruct (id_card_format _ Hfmt)
    as (region & y1 & y2 & y3 & y4 & m1 & m2 & d1 & d2 & rest
        & -> & Hlen & Hy & Hy3 & Hy4 & Hmonth & Hday).
  destruct region as [|r1 [|r2 [|r3 [|r4 [|r5 [|r6 [|? ?]]]]]]]; try done.
  change (slice _ 6 10) with [y1; y2; y3; y4].
  change (slice _ 10 12) with [m1; m2].
  change (slice _ 12 14) with [d1; d2].
  destruct (decimal_value_digit _ Hy3) as (v3 & Hv3 & ?).
  destruct (decimal_value_digit _ Hy4) as (v4 & Hv4 & ?).
  assert (∃ year, int [y1; y2; y3; y4] = Ok year ∧ 1900 ≤ year ≤ 2099)
    as (year & -> & ?).
  { destruct Hy as [[-> ->]|[-> ->]].
    - rewrite (int_4 _ _ _ _ 1 9 v3 v4) by done. eexists. split; [done|lia].
    - rewrite (int_4 _ _ _ _ 2 0 v3 v4) by done. eexists. split; [done|lia]. }
  assert (∃ month, int [m1; m2] = Ok month ∧ 1 ≤ month ≤ 12) as (month & -> & ?).
  { destruct Hmonth as [[-> ?]|[-> ?]].
    - rewrite (int_2 _ _ 0 (m2 - 48)); [|done|apply decimal_value_ascii; lia].
      eexists. split; [done|lia].
    - rewrite (int_2 _ _ 1 (m2 - 48)); [|done|apply decimal_value_ascii; lia].
      eexists. split; [done|lia]. }
  assert (∃ day, int [d1; d2] = Ok day ∧ 1 ≤ day ≤ 31) as (day & -> & ?).
  { destruct Hday as [[-> ?]|[[[-> | ->] Hd2]|[-> [-> | ->]]]].
    - rewrite (int_2 _ _ 0 (d2 - 48)); [|done|apply decimal_value_ascii; lia].
      eexists. split; [done|lia].
    - destruct (decimal_value_digit _ Hd2) as (v & Hv & ?).
      rewrite (int_2 _ _ 1 v) by done. eexists. split; [done|lia].
    - destruct (decimal_value_digit _ Hd2) as (v & Hv & ?).
      rewrite (int_2 _ _ 2 v) by done. eexists. split; [done|lia].
    - eexists. split; [done|]. vm_compute. split; discriminate.
    - eexists. split; [done|]. vm_compute. split; discriminate. }
  by exists year, month, day.
Qed.

(** The validator on a number that passes its format check. *)
Lemma validate_id_card_formatted m text :
  matches (cat [Bol; id_card_body; Eol]) (group m) = true →
  _validate_id_card m text
  = Ok (if has_keyword ["身份证"; "证件"; "号码"; "身份"; "证号"]
             (_get_context_text text (m_start m) (m_end m) 20)
        then 100 else 90).
Proof.
  intros Hfmt. unfold _validate_id_card. cbv zeta. rewrite Hfmt. cbn [negb].
  destruct (has_keyword _ _); [done|].
  destruct (id_card_dates _ Hfmt) as (year & month & day & -> & -> & -> & ? & ? & ?).
  simpl.
  repeat match goal with
         | |- context [?a <? ?b] => destruct (Z.ltb_spec a b); [lia|]
         end.
  done.
Qed.

Lemma validate_id_card_never_raises m text e : _validate_id_card m text ≠ Raise e.
Proof.
  destruct (matches (cat [Bol; id_card_body; Eol]) (group m)) eqn:Hfmt.
  - by rewrite (validate_id_card_formatted _ _ Hfmt).
  - unfold _validate_id_card. cbv zeta. by rewrite Hfmt.
Qed.

(** X7: the date test of the identity card validator rejects nothing, and
    its calls of [int] raise nothing: the format check before it leaves
    only years from 1900 to 2099, months from 1 to 12 and days from 1 to
    31.  The validator is the format check and the keyword search. *)
Theorem validate_id_card_without_date_test m text :
  _validate_id_card m text
  = Ok (if negb (matches (cat [Bol; id_card_body; Eol]) (group m)) then 0
        else if has_keyword ["身份证"; "证件"; "号码"; "身份"; "证号"]
                  (_get_context_text text (m_start m) (m_end m) 20)
        then 100 else 90).
Proof.
  destruct (matches (cat [Bol; id_card_body; Eol]) (group m)) eqn:Hfmt.
  - by rewrite (validate_id_card_formatted _ _ Hfmt).
  - unfold _validate_id_card. cbv zeta. by rewrite Hfmt.
Qed.

(** ** Patterns that ignore case for nothing *)

Lemma iter_impl (R R' : cursor → cursor → Prop) :
  (∀ s s', R s s' → R' s s') → ∀ n s s', iter R n s s' → iter R' n s s'.
Proof.
  intros HR. induction n as [|n IH]; intros s s'; simpl; [done|].
  intros (m & Hm & Hit). exists m. split; [by apply HR|by apply IH].
Qed.

Lemma assert_not_exact p l : assert_not true p l → assert_not false p l.
Proof.
  destruct l as [|c l]; simpl; [done|].
  intros H%char_test_false_exact. by rewrite char_test_exact.
Qed.

Lemma denote_case_closed r : ∀ s s',
  case_closed r → denote true r s s' → denote false r s s'.
Proof.
  induction r as [|p|r1 IH1 r2 IH2|r1 IH1 r2 IH2|lo hi r IH|r IH|p|p| | |];
    intros s s' Hr; simpl in *; try done.
  - intros (c & rest & Ha & Hp & ->). exists c, rest.
    split_and!; [done| |done]. rewrite char_test_exact. by apply Hr.
  - destruct Hr as [Hr1 Hr2]. intros (m & H1 & H2).
    exists m. split; [by apply IH1|by apply IH2].
  - destruct Hr as [Hr1 Hr2]. intros [H|H]; [left; by apply IH1|right; by apply IH2].
  - intros (n & Hlo & Hhi & Hit). exists n. split_and!; [done..|].
    eapply iter_impl; [|exact Hit]. intros s0 s1. by apply IH.
  - intros (m & H & ->). exists m. split; [by apply IH|done].
  - intros [-> H]. split; [done|by apply assert_not_exact].
  - intros [-> H]. split; [done|by apply assert_not_exact].
Qed.

(** What an anchor-free pattern matches in one place it matches wherever
    the same characters lie ahead. *)
Lemma iter_transport (R : cursor → cursor → Prop) :
  (∀ s s', R s s' →
     ∃ w, consumed s w s'
          ∧ ∀ t rest, ahead t = w ++ rest → ∃ t', R t t' ∧ ahead t' = rest) →
  ∀ n s s', iter R n s s' →
    ∃ w, consumed s w s'
         ∧ ∀ t rest, ahead t = w ++ rest → ∃ t', iter R n t t' ∧ ahead t' = rest.
Proof.
  intros HR. induction n as [|n IH]; intros s s'; simpl.
  - intros ->. exists []. split; [apply consumed_nil|].
    intros t rest Ht. by exists t.
  - intros (m & Hm & Hit). apply HR in Hm as (w1 & Hw1 & H1).
    apply IH in Hit as (w2 & Hw2 & H2).
    exists (w1 ++ w2). split; [by eapply consumed_app|].
    intros t rest Ht. rewrite <- app_assoc in Ht.
    destruct (H1 _ _ Ht) as (t1 & Ht1 & Ha1).
    destruct (H2 _ _ Ha1) as (t' & Ht' & Ha').
    exists t'. split; [|done]. by exists t1.
Qed.

Lemma denote_transport icase r : ∀ s s',
  anchor_free r → denote icase r s s' →
  ∃ w, consumed s w s'
       ∧ ∀ t rest, ahead t = w ++ rest → ∃ t', denote icase r t t' ∧ ahead t' = rest.
Proof.
  induction r as [|p|r1 IH1 r2 IH2|r1 IH1 r2 IH2|lo hi r IH|r IH|p|p| | |];
    intros s s' Hr; simpl in *; try done.
  - intros ->. exists []. split; [apply consumed_nil|].
    intros t rest Ht. by exists t.
  - intros (c & rest & Ha & Hp & ->). exists [c].
    split; [by apply consumed_advance|].
    intros t rest' Ht. exists (advance c rest' t). split; [|done].
    by exists c, rest'.
  - destruct Hr as [Hr1 Hr2]. intros (m & H1 & H2).
    apply (IH1 _ _ Hr1) in H1 as (w1 & Hw1 & H1).
    apply (IH2 _ _ Hr2) in H2 as (w2 & Hw2 & H2).
    exists (w1 ++ w2). split; [by eapply consumed_app|].
    intros t rest Ht. rewrite <- app_assoc in Ht.
    destruct (H1 _ _ Ht) as (t1 & Ht1 & Ha1).
    destruct (H2 _ _ Ha1) as (t' & Ht' & Ha').
    exists t'. split; [|done]. by exists t1.
  - destruct Hr as [Hr1 Hr2]. intros [H|H].
    + apply (IH1 _ _ Hr1) in H as (w & Hw & H). exists w. split; [done|].
      intros t rest Ht. destruct (H _ _ Ht) as (t' & ? & ?). exists t'. auto.
    + apply (IH2 _ _ Hr2) in H as (w & Hw & H). exists w. split; [done|].
      intros t rest Ht. destruct (H _ _ Ht) as (t' & ? & ?). exists t'. auto.
  - intros (n & Hlo & Hhi & Hit).
    apply iter_transport in Hit as (w & Hw & H).
    2:{ intros s0 s1. by apply IH. }
    exists w. split; [done|]. intros t rest Ht.
    destruct (H _ _ Ht) as (t' & ? & ?). exists t'. split; [|done]. by exists n.
  - intros (m & H & ->). apply (IH _ _ Hr) in H as (w & Hw & H).
    exists w. split; [by apply consumed_set_span1|].
    intros t rest Ht. destruct (H _ _ Ht) as (t' & ? & ?).
    exists (set_span1 (pos t, pos t') t'). split; [|done]. by exists t'.
Qed.

(** A format check [^body$] accepts every word that [body] matches
    somewhere. *)
Lemma matches_own_word body s s' w :
  productive body → anchor_free body →
  denote false body s s' → consumed s w s' →
  matches (cat [Bol; body; Eol]) w = true.
Proof.
  intros Hprod Hfree Hd Hw.
  destruct (denote_transport _ _ _ _ Hfree Hd) as (w' & Hw' & H).
  assert (w' = w) as ->.
  { destruct Hw as (Ha & _), Hw' as (Ha' & _). rewrite Ha in Ha'.
    by apply app_inv_tail in Ha'. }
  destruct (H (Cursor [] w 0 None) []) as (t' & Ht' & Ha).
  { simpl. by rewrite app_nil_r. }
  unfold matches, re_match_, match_here.
  set (k := λ s', Some (ReMatch w _ _ _ _)).
  destruct (run_complete false (cat [Bol; body; Eol]) k (Cursor [] w 0 None) t')
    as [m ->]; [| |done|done].
  - simpl. done.
  - simpl. exists (Cursor [] w 0 None). split; [done|].
    exists t'. split; [done|]. exists t'. split; [|done]. split; [done|by left].
Qed.

Lemma isdecimal_no_letter x : Unicode.isdecimal x = true → no_letter x.
Proof.
  unfold Unicode.isdecimal. intros (z & Hin & Hz)%existsb_exists.
  apply andb_true_iff in Hz as [?%Z.leb_le ?%Z.leb_le].
  apply list_elem_of_In in Hin. unfold Unicode.decimal_zeros in Hin.
  unfold no_letter.
  repeat (apply elem_of_cons in Hin as [->|Hin]; [lia|]).
  by apply elem_of_nil in Hin.
Qed.

Lemma digit_closed c : char_test true digit c = true → digit c = true.
Proof. apply char_test_caseless, isdecimal_no_letter. Qed.

Lemma lit_closed k c :
  no_letter k → char_test true (Z.eqb k) c = true → (k =? c) = true.
Proof. intros Hk. apply char_test_caseless. by intros x <-%Z.eqb_eq. Qed.

Lemma between_digits_closed a b x y c :
  u a = [x] → u b = [y] → 48 ≤ x → y ≤ 57 →
  char_test true (between a b) c = true → between a b c = true.
Proof.
  intros Ha Hb Hx Hy. apply char_test_caseless.
  intros z Hz%(between_spec a b x y); [|done..]. unfold no_letter. lia.
Qed.

Lemma dash_or_space_closed c :
  char_test true (union [one_of "-"; space]) c = true →
  union [one_of "-"; space] c = true.
Proof.
  apply char_test_caseless. intros x. unfold union. simpl.
  rewrite orb_false_r. intros [H|H]%orb_true_iff.
  - apply one_of_spec in H. change (u "-") with [45] in H.
    apply list_elem_of_singleton in H as ->. unfold no_letter. lia.
  - by apply space_no_letter.
Qed.

Lemma case_closed_landline_body : case_closed landline_body.
Proof.
  unfold landline_body, lits. eval_u. simpl. split_and!; try done.
  - intros c. apply lit_closed. unfold no_letter. lia.
  - apply digit_closed.
  - apply dash_or_space_closed.
  - intros c. by apply (between_digits_closed "2" "9" 50 57).
  - apply digit_closed.
Qed.

(** A match of [(?<!p)body(?!q)] passes the check [^body$] of its own
    text, when ignoring case makes no difference to [body]. *)
Lemma guarded_match_format p q body text m :
  case_closed body → productive body → anchor_free body →
  m ∈ finditer true (cat [NotBehind p; body; NotAhead q]) text →
  matches (cat [Bol; body; Eol]) (group m) = true.
Proof.
  intros Hclosed Hprod Hfree (i & s' & Hi & Hd & ->)%finditer_sound.
  cbn [cat denote] in Hd.
  destruct Hd as (s1 & [-> _] & s2 & Hbody & s3 & [-> _] & ->).
  apply (denote_case_closed _ _ _ Hclosed) in Hbody.
  destruct (denote_consumes _ _ _ _ Hbody) as (w & Hw).
  rewrite (consumed_group text i w s2 _ Hi Hw) by done.
  by apply (matches_own_word body _ _ w Hprod Hfree Hbody).
Qed.

Lemma landline_match_format text m :
  m ∈ finditer true landline_pattern text →
  matches (cat [Bol; landline_body; Eol]) (group m) = true.
Proof.
  apply guarded_match_format.
  - apply case_closed_landline_body.
  - cbn. repeat split; done.
  - cbn. repeat split; done.
Qed.

(** X8: the format check of the landline validator rejects no match of the
    landline pattern: a match scores 100 with a keyword near it and 70
    without. *)
Theorem landline_match_score text m :
  m ∈ finditer true landline_pattern text →
  _validate_landline m text
  = Ok (if has_keyword ["电话"; "座机"; "分机"; "传真"; "客服"]
             (_get_context_text text (m_start m) (m_end m) 20)
        then 100 else 70).
Proof.
  intros Hm. unfold _validate_landline. cbv zeta.
  rewrite (landline_match_format _ _ Hm). simpl. by destruct (has_keyword _ _).
Qed.

Lemma landline_match_score_witness :
  _validate_landline (ReMatch (u "010-62345678") 0 12 None 0) (u "010-62345678")
  = Ok (if has_keyword ["电话"; "座机"; "分机"; "传真"; "客服"]
             (_get_context_text (u "010-62345678") 0 12 20)
        then 100 else 70).
Proof.
  refine (landline_match_score (u "010-62345678")
            (ReMatch (u "010-62345678") 0 12 None 0) _).
  vm_compute. apply elem_of_cons. by left.
Defined.

Lemma digit_or_x_closed c :
  char_test true (union [digit; one_of "Xx"]) c = true →
  union [digit; one_of "Xx"] c = true.
Proof.
  assert (∀ x, union [digit; one_of "Xx"] x = true
               ↔ Unicode.isdecimal x = true ∨ x = 88 ∨ x = 120) as Hset.
  { intros x. unfold union. simpl. rewrite orb_false_r, orb_true_iff, one_of_spec.
    change (u "Xx") with [88; 120].
    rewrite elem_of_cons, list_elem_of_singleton. done. }
  unfold char_test. cbn [andb]. rewrite !orb_true_iff, !Hset.
  intros [H|[[H|H]|[H|H]]]; [done| | | |].
  - left. apply isdecimal_no_letter in H as Hn.
    by rewrite (casefold_no_letter _ Hn) in H.
  - right. revert H. unfold Unicode.casefold. case_bools; lia.
  - left. apply isdecimal_no_letter in H as Hn.
    rewrite (ascii_upper_no_letter _ Hn) in H. clear Hn.
    apply isdecimal_no_letter in H as Hn.
    by rewrite (casefold_no_letter _ Hn) in H.
  - right. revert H. unfold Unicode.ascii_upper, Unicode.casefold. case_bools; lia.
Qed.

Lemma one_of_digits_closed cs c :
  Forall (λ x, 48 ≤ x ≤ 57) (u cs) →
  char_test true (one_of cs) c = true → one_of cs c = true.
Proof.
  intros Hcs. apply char_test_caseless. intros x Hx%one_of_spec.
  rewrite Forall_forall in Hcs. apply Hcs in Hx. unfold no_letter. lia.
Qed.

Lemma case_closed_id_card_body : case_closed id_card_body.
Proof.
  unfold id_card_body, lits. eval_u. simpl. split_and!; try done;
    try apply digit_closed;
    try (intros c; apply lit_closed; unfold no_letter; lia).
  - intros c. by apply (between_digits_closed "1" "9" 49 57).
  - intros c. by apply (between_digits_closed "1" "9" 49 57).
  - intros c. by apply (between_digits_closed "0" "2" 48 50).
  - intros c. by apply (between_digits_closed "1" "9" 49 57).
  - intros c. apply one_of_digits_closed. by repeat constructor.
  - intros c. apply one_of_digits_closed. by repeat constructor.
  - apply digit_or_x_closed.
Qed.

Lemma id_card_match_format text m :
  m ∈ finditer true id_card_pattern text →
  matches (cat [Bol; id_card_body; Eol]) (group m) = true.
Proof.
  apply guarded_match_format.
  - apply case_closed_id_card_body.
  - cbn. repeat split; done.
  - cbn. repeat split; done.
Qed.

(** X9: neither test of the identity card validator rejects a match of the
    identity card pattern, and its calls of [int] raise nothing: a match
    scores 100 with a keyword near it and 90 without. *)
Theorem id_card_match_score text m :
  m ∈ finditer true id_card_pattern text →
  _validate_id_card m text
  = Ok (if has_keyword ["身份证"; "证件"; "号码"; "身份"; "证号"]
             (_get_context_text text (m_start m) (m_end m) 20)
        then 100 else 90).
Proof.
  intros Hm. apply validate_id_card_formatted. by apply (id_card_match_format text).
Qed.

Lemma id_card_match_score_witness :
  _validate_id_card (ReMatch (u "110101199001011234") 0 18 None 0)
    (u "110101199001011234")
  = Ok (if has_keyword ["身份证"; "证件"; "号码"; "身份"; "证号"]
             (_get_context_text (u "110101199001011234") 0 18 20)
        then 100 else 90).
Proof.
  refine (id_card_match_score (u "110101199001011234")
            (ReMatch (u "110101199001011234") 0 18 None 0) _).
  vm_compute. apply elem_of_cons. by left.
Defined.

(** ** IP addresses *)

Lemma int_ascii w :
  w ≠ [] → Forall (λ c, 48 ≤ c ≤ 57) w →
  int w = Ok (fold_left (λ acc d, acc * 10 + d) (map (λ c, c - 48) w) 0).
Proof.
  intros Hne Hw.
  assert (mapM Unicode.decimal_value w = Some (map (λ c, c - 48) w)) as Hm.
  { clear Hne. induction Hw as [|c w Hc _ IH]; [done|]. simpl.
    rewrite (decimal_value_ascii _ Hc). simpl. by rewrite IH. }
  destruct w as [|c w]; [done|]. unfold int. by rewrite Hm.
Qed.

Lemma case_closed_octet : case_closed octet.
Proof.
  unfold octet, lits. eval_u. simpl. split_and!; try done;
    try (intros c; apply lit_closed; unfold no_letter; lia).
  - intros c. by apply (between_digits_closed "0" "5" 48 53).
  - intros c. by apply (between_digits_closed "0" "4" 48 52).
  - intros c. by apply (between_digits_closed "0" "9" 48 57).
  - intros c. apply one_of_digits_closed. by repeat constructor.
  - intros c. by apply (between_digits_closed "0" "9" 48 57).
  - intros c. by apply (between_digits_closed "0" "9" 48 57).
Qed.

Lemma denote_opt_char p s s' :
  denote false (opt (Char p)) s s' →
  ∃ w, consumed s w s' ∧ (w = [] ∨ ∃ c, w = [c] ∧ p c = true).
Proof.
  intros (w & Hw & Hlen & Hall)%denote_times_char.
  exists w. split; [done|].
  destruct w as [|c [|? ?]]; [by left| |simpl in Hlen; lia].
  right. exists c. split; [done|].
  apply Forall_cons in Hall as [Hc _]. by rewrite char_test_exact in Hc.
Qed.

Lemma octet_word_of_digits w :
  w ≠ [] → Forall (λ c, 48 ≤ c ≤ 57) w →
  fold_left (λ acc d, acc * 10 + d) (map (λ c, c - 48) w) 0 ≤ 255 →
  octet_word w.
Proof.
  intros Hne Hw Hn. split_and!; [done..|].
  eexists. split; [by apply int_ascii|done].
Qed.

Lemma denote_octet s s' :
  denote true octet s s' → ∃ w, consumed s w s' ∧ octet_word w.
Proof.
  intros Hd%(denote_case_closed _ _ _ case_closed_octet).
  unfold octet in Hd. cbn [alts cat denote] in Hd.
  destruct Hd as [H|[H|[H|H]]].
  - destruct H as (sa & Ha%denote_lits_exact
                   & sb & (c & Hb & Hc)%denote_char_exact & ->).
    apply (between_spec "0" "5" 48 53) in Hc; [|done..].
    exists (u "25" ++ [c]). split; [by eapply consumed_app|]. eval_u.
    apply octet_word_of_digits; [done| |simpl; lia].
    repeat (constructor; [lia|]). constructor.
  - destruct H as (sa & Ha%denote_lits_exact
                   & sb & (c1 & Hb & Hc1)%denote_char_exact
                   & sc & (c2 & Hc & Hc2)%denote_char_exact & ->).
    apply (between_spec "0" "4" 48 52) in Hc1; [|done..].
    apply (between_spec "0" "9" 48 57) in Hc2; [|done..].
    exists (u "2" ++ [c1] ++ [c2]). split.
    { eapply consumed_app; [done|]. by eapply consumed_app. }
    eval_u. apply octet_word_of_digits; [done| |simpl; lia].
    repeat (constructor; [lia|]). constructor.
  - destruct H as (sa & (w1 & Ha & Hw1)%denote_opt_char
                   & sb & (c & Hb & Hc)%denote_char_exact
                   & sc & (w2 & Hc' & Hw2)%denote_opt_char & ->).
    apply (between_spec "0" "9" 48 57) in Hc; [|done..].
    exists (w1 ++ [c] ++ w2). split.
    { eapply consumed_app; [done|]. by eapply consumed_app. }
    assert (w1 = [] ∨ w1 = [48] ∨ w1 = [49]) as Hw1'.
    { destruct Hw1 as [->|(c1 & -> & Hc1)]; [by left|right].
      apply one_of_spec in Hc1. change (u "01") with [48; 49] in Hc1.
      apply elem_of_cons in Hc1 as [->|Hc1]; [by left|].
      apply list_elem_of_singleton in Hc1 as ->. by right. }
    assert (w2 = [] ∨ ∃ c2, w2 = [c2] ∧ 48 ≤ c2 ≤ 57) as Hw2'.
    { destruct Hw2 as [->|(c2 & -> & Hc2)]; [by left|right].
      exists c2. split; [done|]. by apply (between_spec "0" "9" 48 57). }
    destruct Hw1' as [->|[->| ->]], Hw2' as [->|(c2 & -> & ?)];
      (apply octet_word_of_digits;
       [done|repeat (constructor; [lia|]); constructor|simpl; lia]).
  - by destruct H as (? & ? & _ & ? & _).
Qed.

Lemma split_dot_part o rest :
  Forall (λ c, 48 ≤ c ≤ 57) o →
  split_dot (o ++ 46 :: rest) = o :: split_dot rest.
Proof.
  induction 1 as [|c o Hc _ IH]; [done|]. simpl.
  destruct (Z.eqb_spec c 46); [lia|]. by rewrite IH.
Qed.

Lemma split_dot_last o :
  Forall (λ c, 48 ≤ c ≤ 57) o → split_dot o = [o].
Proof.
  induction 1 as [|c o Hc _ IH]; [done|]. simpl.
  destruct (Z.eqb_spec c 46); [lia|]. by rewrite IH.
Qed.

Lemma isdecimal_ascii c : 48 ≤ c ≤ 57 → Unicode.isdecimal c = true.
Proof.
  intros Hc. unfold Unicode.isdecimal. apply existsb_exists. exists 48.
  split; [by left|]. apply andb_true_iff. split; apply Z.leb_le; lia.
Qed.

Lemma isdigit_ascii w :
  w ≠ [] → Forall (λ c, 48 ≤ c ≤ 57) w → isdigit w = true.
Proof.
  intros Hne Hw. unfold isdigit. rewrite bool_decide_eq_false_2 by done. simpl.
  apply forallb_forall. intros c Hc%list_elem_of_In.
  rewrite Forall_forall in Hw. apply Hw in Hc.
  unfold Unicode.isdigit. by rewrite isdecimal_ascii.
Qed.

Lemma octets_ok_words parts :
  Forall octet_word parts → octets_ok parts = Ok true.
Proof.
  induction 1 as [|w parts (Hne & Hw & n & Hn & Hle) _ IH]; [done|].
  simpl. rewrite (isdigit_ascii w Hne Hw). simpl. rewrite Hn. simpl.
  destruct (Z.ltb_spec 255 n); [lia|]. done.
Qed.

(** The text of a match of the IP pattern: four octet words with dots
    between them. *)
Lemma ip_match_shape text m :
  m ∈ finditer true ip_address_pattern text →
  ∃ o1 o2 o3 o4,
    group m = o1 ++ 46 :: o2 ++ 46 :: o3 ++ 46 :: o4
    ∧ Forall octet_word [o1; o2; o3; o4].
Proof.
  intros (i & s' & Hi & Hd & ->)%finditer_sound.
  cbn [ip_address_pattern cat denote times] in Hd.
  destruct Hd as (s0 & [-> _] & s3 & (n & Hlo & Hhi & Hit)
                  & s4 & H4 & s5 & [-> _] & ->).
  specialize (Hhi 3%nat eq_refl). assert (n = 3%nat) as -> by lia.
  cbn [iter denote] in Hit.
  destruct Hit as (s1 & (a1 & H1 & b1 & D1 & ->)
                   & s2 & (a2 & H2 & b2 & D2 & ->)
                   & s3' & (a3 & H3 & b3 & D3 & ->) & ->).
  apply denote_octet in H1 as (o1 & C1 & W1), H2 as (o2 & C2 & W2),
    H3 as (o3 & C3 & W3), H4 as (o4 & C4 & W4).
  assert (∀ s t, denote true (lits ".") s t → consumed s [46] t) as Hdot.
  { intros s t H. apply denote_text_exact. apply denote_case_closed; [|done].
    unfold lits. eval_u. simpl. split; [|done].
    intros c. apply lit_closed. unfold no_letter. lia. }
  apply Hdot in D1, D2, D3.
  exists o1, o2, o3, o4. split.
  2:{ repeat (apply Forall_cons; split; [done|]). by apply Forall_nil. }
  apply (consumed_group text i _ s4); [done| |done..].
  eapply consumed_app; [exact C1|].
  eapply (consumed_app _ [46]); [exact D1|].
  eapply consumed_app; [exact C2|].
  eapply (consumed_app _ [46]); [exact D2|].
  eapply consumed_app; [exact C3|].
  eapply (consumed_app _ [46]); [exact D3|]. exact C4.
Qed.

(** The two checks of [_validate_ip_address] on a match of the IP pattern. *)
Lemma ip_match_octets text m :
  m ∈ finditer true ip_address_pattern text →
  (length (split_dot (group m)) =? 4)%nat = true
  ∧ octets_ok (split_dot (group m)) = Ok true.
Proof.
  intros (o1 & o2 & o3 & o4 & Hg & Hall)%ip_match_shape.
  assert (split_dot (group m) = [o1; o2; o3; o4]) as ->.
  { rewrite Hg.
    apply Forall_cons in Hall as [(_ & H1 & _) Hall'].
    apply Forall_cons in Hall' as [(_ & H2 & _) Hall'].
    apply Forall_cons in Hall' as [(_ & H3 & _) Hall'].
    apply Forall_cons in Hall' as [(_ & H4 & _) _].
    rewrite !split_dot_part by done. by rewrite split_dot_last. }
  split; [done|by apply octets_ok_words].
Qed.

(** X10: the checks of the IP validator reject no match of the IP pattern,
    and its calls of [int] raise nothing: a match scores 100 with a keyword
    near it, 50 if it is one of the three special addresses, and 70
    otherwise. *)
Theorem ip_match_score text m :
  m ∈ finditer true ip_address_pattern text →
  _validate_ip_address m text
  = Ok (if has_keyword ["IP"; "地址"; "服务器"; "网络"; "主机"]
             (_get_context_text text (m_start m) (m_end m) 20)
        then 100
        else if bool_decide (group m ∈ [u "127.0.0.1"; u "0.0.0.0"; u "255.255.255.255"])
        then 50 else 70).
Proof.
  intros (Hlen & Hok)%ip_match_octets.
  unfold _validate_ip_address. cbv zeta. rewrite Hlen, Hok. simpl.
  by repeat case_match.
Qed.

Lemma ip_match_score_witness :
  _validate_ip_address (ReMatch (u "10.0.0.1") 0 8 None 0) (u "10.0.0.1")
  = Ok (if has_keyword ["IP"; "地址"; "服务器"; "网络"; "主机"]
             (_get_context_text (u "10.0.0.1") 0 8 20)
        then 100
        else if bool_decide (group (ReMatch (u "10.0.0.1") 0 8 None 0)
                             ∈ [u "127.0.0.1"; u "0.0.0.0"; u "255.255.255.255"])
        then 50 else 70).
Proof.
  refine (ip_match_score (u "10.0.0.1") (ReMatch (u "10.0.0.1") 0 8 None 0) _).
  vm_compute. apply elem_of_cons. by left.
Defined.

(** ** The exceptions of a call *)

Lemma kept_raises t k v text e : ∀ ms,
  kept t k v text ms = Raise e →
  ∃ m, m ∈ ms ∧ confidence_of v m text = Raise e.
Proof.
  induction ms as [|m ms IH]; simpl; [done|].
  destruct (confidence_of v m text) as [c|e'] eqn:Hc; simpl.
  - destruct (kept t k v text ms) as [es|e'']; simpl; [done|].
    intros [= ->]. destruct (IH eq_refl) as (m' & Hm' & He).
    exists m'. split; [by apply elem_of_cons; right|done].
  - intros [= ->]. exists m. split; [by apply elem_of_cons; left|done].
Qed.

Lemma kept_ok t k v text : ∀ ms,
  (∀ m, m ∈ ms → ∃ c, confidence_of v m text = Ok c) →
  ∃ es, kept t k v text ms = Ok es.
Proof.
  induction ms as [|m ms IH]; intros Hms; simpl; [by eexists|].
  destruct (Hms m) as [c ->]; [by apply elem_of_cons; left|]. simpl.
  destruct IH as [es ->]; [|by eexists].
  intros m' Hm'. apply Hms. by apply elem_of_cons; right.
Qed.

(** Only the card validator raises, and only on the newline. *)
Lemma found_raises t text k e :
  found t text k = Raise e →
  k = "credit_card" ∧ e = ValueError_int [10]
  ∧ ∃ m, m ∈ finditer true credit_card_pattern text
         ∧ _validate_credit_card m text = Raise e.
Proof.
  unfold found. destruct (lookup_pattern k patterns) as [info|] eqn:Hinfo; [|done].
  intros (m & Hm & Hc)%kept_raises.
  apply lookup_pattern_elem_key in Hinfo. unfold patterns in Hinfo.
  repeat (apply elem_of_cons in Hinfo as [[= -> ->]|Hinfo]);
    [..|by apply elem_of_nil in Hinfo]; cbn [validator confidence_of pattern] in *.
  - by apply (proj1 (simple_validators_never_raise m text e)) in Hc.
  - by apply (simple_validators_never_raise m text e) in Hc.
  - by apply validate_id_card_never_raises in Hc.
  - by apply (simple_validators_never_raise m text e) in Hc.
  - by apply (simple_validators_never_raise m text e) in Hc.
  - by apply (simple_validators_never_raise m text e) in Hc.
  - destruct (validate_credit_card_raises _ _ _ Hc) as [-> _].
    split_and!; [done|done|]. by exists m.
  - destruct (ip_match_octets _ _ Hm) as [Hlen Hok].
    unfold _validate_ip_address in Hc. cbv zeta in Hc.
    rewrite Hlen, Hok in Hc. simpl in Hc. by repeat case_match.
Qed.

Lemma scan_types_raises self text e : ∀ type_ids results,
  scan_types self text type_ids results = Raise e →
  ∃ k, k ∈ type_ids ∧ found (confidence_threshold self) text k = Raise e.
Proof.
  induction type_ids as [|k rest IH]; intros results; [done|].
  rewrite scan_types_cons.
  destruct (found _ text k) as [es|e'] eqn:Hfound; simpl.
  - intros (k' & Hk' & He)%IH. exists k'. split; [by apply elem_of_cons; right|done].
  - intros [= ->]. exists k. split; [by apply elem_of_cons; left|done].
Qed.

Lemma scan_types_ok self text : ∀ type_ids results,
  (∀ k, k ∈ type_ids → ∃ es, found (confidence_threshold self) text k = Ok es) →
  ∃ results', scan_types self text type_ids results = Ok results'.
Proof.
  induction type_ids as [|k rest IH]; intros results Hall; [by eexists|].
  rewrite scan_types_cons.
  destruct (Hall k) as [es ->]; [by apply elem_of_cons; left|]. simpl.
  apply IH. intros k' Hk'. apply Hall. by apply elem_of_cons; right.
Qed.

Lemma check_type_ids_raises_inv type_ids e :
  check_type_ids type_ids = Raise e →
  ∃ k, e = ValueError_type_id k ∧ k ∈ type_ids ∧ lookup_pattern k patterns = None.
Proof.
  induction type_ids as [|t rest IH]; simpl; [done|].
  destruct (lookup_pattern t patterns) eqn:Ht.
  - intros (k & -> & Hk & Hnone)%IH. exists k.
    split_and!; [done|by apply elem_of_cons; right|done].
  - intros [= <-]. exists t. split_and!; [done|by apply elem_of_cons; left|done].
Qed.

Lemma check_type_ids_ok type_ids :
  check_type_ids type_ids = Ok ()
  ↔ ∀ k, k ∈ type_ids → is_Some (lookup_pattern k patterns).
Proof.
  induction type_ids as [|t rest IH]; simpl.
  - split; [|done]. intros _ k Hk. by apply elem_of_nil in Hk.
  - destruct (lookup_pattern t patterns) eqn:Ht.
    + rewrite IH. split.
      * intros H k [->|Hk]%elem_of_cons; [by rewrite Ht|by apply H].
      * intros H k Hk. apply H. by apply elem_of_cons; right.
    + split; [done|]. intros H.
      destruct (H t) as [? Hs]; [by apply elem_of_cons; left|congruence].
Qed.

(** X11: the two exceptions of a call.  [detect_sensitive_info] raises only
    the [ValueError] of an identifier of [info_types] that is not registered,
    or the [ValueError] of [int] on a newline, when [credit_card] is requested
    and a card number of 16 to 19 digits is followed by a newline. *)
Theorem detect_raises self text info_types e :
  detect_sensitive_info self text info_types = Raise e →
  (∃ k l, e = ValueError_type_id k ∧ info_types = Some l ∧ k ∈ l
          ∧ lookup_pattern k patterns = None)
  ∨ (e = ValueError_int [10]
     ∧ "credit_card" ∈ requested self info_types
     ∧ ∃ text' m ds,
         text = Some text' ∧ m ∈ finditer true credit_card_pattern text'
         ∧ remove_char 45 (remove_char 32 (group m)) = ds ++ [10]
         ∧ Forall (λ c, Unicode.isdecimal c = true) ds
         ∧ (16 ≤ length ds ≤ 19)%nat).
Proof.
  unfold detect_sensitive_info. destruct text as [text|]; [|done].
  case_bool_decide; [done|].
  assert (∀ ids, scan_types self text ids ∅ = Raise e →
            e = ValueError_int [10] ∧ "credit_card" ∈ ids
            ∧ ∃ text' m ds,
                Some text = Some text' ∧ m ∈ finditer true credit_card_pattern text'
                ∧ remove_char 45 (remove_char 32 (group m)) = ds ++ [10]
                ∧ Forall (λ c, Unicode.isdecimal c = true) ds
                ∧ (16 ≤ length ds ≤ 19)%nat) as Hscan.
  { intros ids (k & Hk & (-> & -> & m & Hm & Hv)%found_raises)%scan_types_raises.
    destruct (validate_credit_card_raises _ _ _ Hv) as (_ & ds & Hds & Hall & Hlen).
    split_and!; [done|done|]. by exists text, m, ds. }
  destruct info_types as [l|]; simpl.
  - destruct (check_type_ids l) as [[]|e'] eqn:Hcheck; simpl.
    + intros H'. right. by apply Hscan.
    + intros [= ->]. left.
      destruct (check_type_ids_raises_inv _ _ Hcheck) as (k & -> & Hk & Hnone).
      by exists k, l.
  - intros H'. right. by apply Hscan.
Qed.

Lemma detect_raises_witness :
  (∃ k l, ValueError_int [10] = ValueError_type_id k ∧ Some ["credit_card"] = Some l
          ∧ k ∈ l ∧ lookup_pattern k patterns = None)
  ∨ (ValueError_int [10] = ValueError_int [10]
     ∧ "credit_card" ∈ requested init (Some ["credit_card"])
     ∧ ∃ text' m ds,
         Some (u "4111111111111111" ++ [10]) = Some text'
         ∧ m ∈ finditer true credit_card_pattern text'
         ∧ remove_char 45 (remove_char 32 (group m)) = ds ++ [10]
         ∧ Forall (λ c, Unicode.isdecimal c = true) ds
         ∧ (16 ≤ length ds ≤ 19)%nat).
Proof.
  refine (detect_raises init (Some (u "4111111111111111" ++ [10]))
            (Some ["credit_card"]) (ValueError_int [10]) _).
  vm_compute. reflexivity.
Defined.

Lemma iter_char_intro p : ∀ w s rest,
  Forall (λ c, p c = true) w → ahead s = w ++ rest →
  ∃ s', iter (denote false (Char p)) (length w) s s' ∧ ahead s' = rest.
Proof.
  induction w as [|c w IH]; intros s rest Hw Ha; simpl.
  - by exists s.
  - apply Forall_cons in Hw as [Hc Hw].
    destruct (IH (advance c (w ++ rest) s) rest Hw eq_refl) as (s' & Hit & Hs').
    exists s'. split; [|done]. exists (advance c (w ++ rest) s). split; [|done].
    exists c, (w ++ rest). by rewrite char_test_exact.
Qed.

(** The format check [^\d{16,19}$] lets a newline after the digits through. *)
Lemma card_format_newline ds :
  Forall (λ c, Unicode.isdecimal c = true) ds → (16 ≤ length ds ≤ 19)%nat →
  matches (cat [Bol; times 16 19 (Char digit); Eol]) (ds ++ [10]) = true.
Proof.
  intros Hds Hlen.
  destruct (iter_char_intro digit ds (Cursor [] (ds ++ [10]) 0 None) [10] Hds eq_refl)
    as (s' & Hit & Hs').
  unfold matches, re_match_, match_here.
  set (k := λ s', Some (ReMatch _ _ _ _ _)).
  destruct (run_complete false (cat [Bol; times 16 19 (Char digit); Eol]) k
              (Cursor [] (ds ++ [10]) 0 None) s') as [m ->]; [| |done|done].
  - cbn. repeat split; done.
  - cbn [cat denote times]. exists (Cursor [] (ds ++ [10]) 0 None). split; [done|].
    exists s'. split.
    + exists (length ds). split_and!; [lia| |done]. intros h [= <-]. lia.
    + exists s'. split; [|done]. split; [done|by right].
Qed.

(** X12: when the card validator raises.  [_validate_credit_card] raises,
    with the [ValueError] of [int] on a newline, exactly when the matched
    text without spaces and hyphens is 16 to 19 digits and a newline, and no
    keyword is near the match. *)
Theorem validate_credit_card_raises_iff m text :
  (∃ e, _validate_credit_card m text = Raise e)
  ↔ (∃ ds, remove_char 45 (remove_char 32 (group m)) = ds ++ [10]
           ∧ Forall (λ c, Unicode.isdecimal c = true) ds
           ∧ (16 ≤ length ds ≤ 19)%nat)
    ∧ has_keyword ["银行卡"; "信用卡"; "储蓄卡"; "卡号"; "账号"]
        (_get_context_text text (m_start m) (m_end m) 20) = false.
Proof.
  split.
  - intros [e He]. split; [by apply (validate_credit_card_raises _ _ _ He)|].
    revert He. unfold _validate_credit_card. cbv zeta.
    destruct (matches _ _); simpl; [|done]. by destruct (has_keyword _ _).
  - intros [(ds & Hcard & Hds & Hlen) Hkw]. exists (ValueError_int [10]).
    unfold _validate_credit_card. cbv zeta. rewrite Hcard, Hkw.
    rewrite (card_format_newline ds Hds Hlen). simpl.
    pose proof (comprehension_card ds [10] Hds (or_intror eq_refl)) as Hc.
    destruct (comprehension _ (ds ++ [10])) as [?|e]; [done|].
    by destruct Hc as [_ ->].
Qed.

(** ** The order of the requested types *)

Lemma no_empty_list_eq (r r' : gmap string (list entry)) :
  no_empty_list r → no_empty_list r' →
  (∀ k, matches_of r k = matches_of r' k) → r = r'.
Proof.
  intros Hr Hr' Heq. apply map_eq. intros k. specialize (Heq k).
  unfold matches_of in Heq.
  destruct (r !! k) as [l|] eqn:Hl, (r' !! k) as [l'|] eqn:Hl'; simpl in Heq.
  - by subst.
  - subst. by apply Hr in Hl.
  - subst. by apply Hr' in Hl'.
  - done.
Qed.

Lemma times_requested_perm k (l l' : list string) :
  l ≡ₚ l' → times_requested k l = times_requested k l'.
Proof. intros H. unfold times_requested. by rewrite H. Qed.

Lemma scan_types_perm self text type_ids type_ids' results :
  type_ids ≡ₚ type_ids' →
  scan_types self text type_ids ∅ = Ok results →
  scan_types self text type_ids' ∅ = Ok results.
Proof.
  intros Hperm Hscan.
  assert (no_empty_list (∅ : gmap string (list entry))) as Hempty.
  { intros ? ?. by rewrite lookup_empty. }
  destruct (scan_types_ok self text type_ids' ∅) as [results' Hscan'].
  { intros k Hk. rewrite <- Hperm in Hk.
    destruct (proj1 (scan_types_exact _ _ _ _ _ Hscan k) Hk) as (es & ? & _).
    by exists es. }
  rewrite Hscan'. f_equal. apply no_empty_list_eq.
  - by eapply scan_types_no_empty_list.
  - by eapply scan_types_no_empty_list.
  - intros k.
    destruct (scan_types_exact _ _ _ _ _ Hscan k) as [Hin Hout].
    destruct (scan_types_exact _ _ _ _ _ Hscan' k) as [Hin' Hout'].
    destruct (decide (k ∈ type_ids)) as [Hk|Hk].
    + destruct (Hin Hk) as (es & Hes & ->).
      rewrite Hperm in Hk. destruct (Hin' Hk) as (es' & Hes' & ->).
      rewrite Hes in Hes'. injection Hes' as <-.
      by rewrite (times_requested_perm _ _ _ Hperm).
    + rewrite (Hout Hk). rewrite Hperm in Hk. by rewrite (Hout' Hk).
Qed.

(** X13: the order of the requested types does not matter.  A call that
    returns a result returns the same result when the types are requested
    in another order; so the result of a call without [info_types] does not
    depend on the order in which the set of enabled types is iterated. *)
Theorem detect_order_irrelevant self text info_types info_types' results :
  info_types ≡ₚ info_types' →
  detect_sensitive_info self text (Some info_types) = Ok results →
  detect_sensitive_info self text (Some info_types') = Ok results.
Proof.
  intros Hperm. unfold detect_sensitive_info.
  destruct text as [text|]; [|done]. case_bool_decide; [done|]. simpl.
  destruct (check_type_ids info_types) as [[]|] eqn:Hcheck; simpl; [|done].
  assert (check_type_ids info_types' = Ok ()) as ->.
  { apply check_type_ids_ok. intros k Hk. rewrite <- Hperm in Hk.
    by apply (proj1 (check_type_ids_ok info_types) Hcheck). }
  simpl. by apply scan_types_perm.
Qed.

Lemma detect_order_irrelevant_witness :
  detect_sensitive_info init (Some (u "13812345678")) (Some ["email"; "phone"])
  = Ok {[ "phone" := [Entry (u "13812345678") 0 11 (u "【13812345678】") 80] ]}.
Proof.
  refine (detect_order_irrelevant init (Some (u "13812345678"))
            ["phone"; "email"] ["email"; "phone"] _ _ _).
  - apply perm_swap.
  - vm_compute. reflexivity.
Defined.

(** ** Configured detectors *)

(** X14: what the setters keep.  In a detector made by the constructor and
    the setters, the threshold lies between 0 and 100 and every enabled type
    is registered. *)
Theorem configured_detector_valid self :
  configured self →
  0 ≤ confidence_threshold self ≤ 100
  ∧ ∀ k, k ∈ enabled_types self → is_Some (lookup_pattern k patterns).
Proof.
  induction 1 as [|self ids self' _ [IHt IHe] Hset|self t self' _ [IHt IHe] Hset].
  - split; [simpl; lia|]. intros k Hk. unfold init in Hk. cbn [enabled_types] in Hk.
    apply elem_of_list_to_set in Hk. unfold patterns in Hk at 1. cbn [map fst] in Hk.
    repeat (apply elem_of_cons in Hk as [->|Hk]; [eexists; reflexivity|]).
    by apply elem_of_nil in Hk.
  - unfold set_enabled_types in Hset.
    destruct (check_type_ids ids) as [[]|] eqn:Hcheck; simpl in Hset; [|done].
    injection Hset as <-. split; [done|]. cbn [enabled_types].
    intros k Hk%elem_of_list_to_set. by apply (proj1 (check_type_ids_ok ids) Hcheck).
  - unfold set_confidence_threshold in Hset.
    destruct (Z.ltb_spec t 0), (Z.ltb_spec 100 t); simpl in Hset; try done.
    injection Hset as <-. split; [simpl; lia|done].
Qed.

Lemma configured_detector_valid_witness :
  0 ≤ confidence_threshold (Detector (list_to_set ["phone"; "password"]) 80) ≤ 100
  ∧ ∀ k, k ∈ enabled_types (Detector (list_to_set ["phone"; "password"]) 80) →
         is_Some (lookup_pattern k patterns).
Proof.
  refine (configured_detector_valid _ _).
  apply (configured_threshold (Detector (list_to_set ["phone"; "password"]) 50) 80);
    [|reflexivity].
  apply (configured_types init ["phone"; "password"]); [|reflexivity].
  apply configured_init.
Defined.

(** The loops read the threshold only. *)
Lemma scan_types_enabled self self' text : ∀ type_ids results,
  confidence_threshold self = confidence_threshold self' →
  scan_types self text type_ids results = scan_types self' text type_ids results.
Proof.
  induction type_ids as [|k rest IH]; intros results Ht; [done|].
  rewrite !scan_types_cons, Ht. destruct (found _ text k); simpl; [by apply IH|done].
Qed.

(** X15: enabling types and scanning.  After [set_enabled_types(type_ids)]
    has returned, for identifiers without repetition, a call without
    [info_types] returns what the call with [type_ids] returns. *)
Theorem enabled_types_scan self type_ids self' text results :
  NoDup type_ids →
  set_enabled_types self type_ids = Ok self' →
  detect_sensitive_info self text (Some type_ids) = Ok results →
  detect_sensitive_info self' text None = Ok results.
Proof.
  intros Hnodup Hset. unfold set_enabled_types in Hset.
  destruct (check_type_ids type_ids) as [[]|] eqn:Hcheck; simpl in Hset; [|done].
  injection Hset as <-. unfold detect_sensitive_info.
  destruct text as [text|]; [|done]. case_bool_decide; [done|]. simpl.
  rewrite Hcheck. simpl. cbn [enabled_types].
  intros Hscan.
  assert (scan_types (Detector (list_to_set type_ids) (confidence_threshold self))
            text type_ids ∅ = Ok results) as Hscan'.
  { by rewrite <- (scan_types_enabled self). }
  eapply scan_types_perm; [|exact Hscan'].
  symmetry. by apply elements_list_to_set.
Qed.

Lemma enabled_types_scan_witness :
  detect_sensitive_info (Detector (list_to_set ["phone"]) 50)
    (Some (u "13812345678")) None
  = Ok {[ "phone" := [Entry (u "13812345678") 0 11 (u "【13812345678】") 80] ]}.
Proof.
  refine (enabled_types_scan init ["phone"] (Detector (list_to_set ["phone"]) 50)
            (Some (u "13812345678")) _ _ _ _).
  - apply NoDup_singleton.
  - reflexivity.
  - vm_compute. reflexivity.
Defined.

(** ** The type selection of the command line *)

Lemma lookup_pattern_keys k l :
  k ∈ map fst l ↔ is_Some (lookup_pattern k l).
Proof.
  induction l as [|[k' info] l IH].
  - split; [by intros ?%elem_of_nil|by intros [? ?]].
  - unfold lookup_pattern; fold lookup_pattern. cbn [map fst].
    rewrite elem_of_cons, IH. destruct (String.eqb_spec k k') as [->|Hne].
    + split; [by eexists|by left].
    + split; [by intros [?|?]|by right].
Qed.

Lemma available_types_keys : available_types = map fst patterns.
Proof. unfold available_types, get_available_info_types. by rewrite map_map. Qed.

Lemma available_types_registered k :
  k ∈ available_types ↔ is_Some (lookup_pattern k patterns).
Proof. rewrite available_types_keys. apply lookup_pattern_keys. Qed.

Lemma first_invalid_check types :
  match first_invalid types available_types with
  | Some bad => check_type_ids types = Raise (ValueError_type_id bad)
  | None => check_type_ids types = Ok ()
  end.
Proof.
  induction types as [|t rest IH]; simpl; [done|].
  case_bool_decide as Ht.
  - apply available_types_registered in Ht as [info ->]. exact IH.
  - destruct (lookup_pattern t patterns) as [info|] eqn:Hinfo; [|done].
    exfalso. apply Ht, available_types_registered. by eexists.
Qed.

(** X16: the command line and the detector check identifiers alike.  The
    program exits at an identifier exactly when [detect_sensitive_info]
    would raise the [ValueError] of that identifier, so a list it passes on
    is never rejected; without [--types] it passes the eight registered
    types. *)
Theorem cli_selection_agrees types :
  match select_types types with
  | inl bad =>
      ∃ l, types = Some l ∧ check_type_ids l = Raise (ValueError_type_id bad)
  | inr selected =>
      check_type_ids selected = Ok ()
      ∧ selected ≠ []
      ∧ (∀ l, types = Some l → l ≠ [] → selected = l)
      ∧ (types = None ∨ types = Some [] → selected = map fst patterns)
  end.
Proof.
  assert (check_type_ids available_types = Ok ()) as Hall.
  { apply check_type_ids_ok. intros k. apply available_types_registered. }
  pose proof available_types_keys as Hav.
  destruct types as [[|t rest]|]; cbn [select_types].
  - split_and!; [done|by rewrite Hav|by intros l [= <-] ?|done].
  - pose proof (first_invalid_check (t :: rest)) as H.
    destruct (first_invalid (t :: rest) available_types) as [bad|].
    + by exists (t :: rest).
    + split_and!; [done|done|by intros l [= <-] ?|by intros [?|?]].
  - split_and!; [done|by rewrite Hav|done|done].
Qed.

(** ** The report *)

Arguments u : simpl never.
Arguments str_of_int : simpl never.

Lemma format_items_registered items :
  (∀ k l, (k, l) ∈ items → is_Some (lookup_pattern k patterns)) →
  is_Some (format_items items).
Proof.
  induction items as [|[k l] items IH]; intros Hreg; simpl; [done|].
  assert (is_Some (format_items items)) as [lines Hlines].
  { apply IH. intros k' l' H. apply (Hreg k' l'). by apply elem_of_cons; right. }
  destruct l as [|e l]; [by rewrite Hlines|].
  destruct (Hreg k (e :: l)) as [info ->]; [by apply elem_of_cons; left|].
  by rewrite Hlines.
Qed.

Lemma contains_refl (s : str) : contains s s.
Proof. exists [], []. by rewrite app_nil_r. Qed.

Lemma contains_app_l (a b w : str) : contains a w → contains (a ++ b) w.
Proof.
  intros (x & y & ->). exists x, (y ++ b). by rewrite <- !app_assoc.
Qed.

Lemma contains_app_r (a b w : str) : contains b w → contains (a ++ b) w.
Proof.
  intros (x & y & ->). exists (a ++ x), y. by rewrite <- !app_assoc.
Qed.

Lemma contains_join lines l w :
  l ∈ lines → contains l w → contains (join_lines lines) w.
Proof.
  induction lines as [|l' lines IH]; [by intros ?%elem_of_nil|].
  intros [->|Hin]%elem_of_cons Hw.
  - destruct lines; [done|]. by apply contains_app_l.
  - destruct lines as [|l'' lines]; [by apply elem_of_nil in Hin|].
    change (join_lines (l' :: l'' :: lines))
      with (l' ++ [10] ++ join_lines (l'' :: lines)).
    apply contains_app_r, contains_app_r. by apply IH.
Qed.

Lemma format_matches_shows e : ∀ ms i,
  e ∈ ms →
  ∃ j l1 l2, l1 ∈ format_matches i ms ∧ l2 ∈ format_matches i ms
    ∧ i ≤ j < i + Z.of_nat (length ms)
    ∧ l1 = str_of_int j ++ u ". 值: " ++ value e ++ u " "
           ++ (if confidence e <? 100
               then u "置信度: " ++ str_of_int (confidence e) ++ u "%" else [])
    ∧ l2 = u "   上下文: " ++ context e.
Proof.
  induction ms as [|e' rest IH]; intros i; [by intros ?%elem_of_nil|].
  intros [->|Hin]%elem_of_cons.
  - exists i. eexists _, _. split_and!; [| | |simpl; lia|done|done].
    + simpl. apply list_elem_of_here.
    + simpl. apply list_elem_of_further, list_elem_of_here.
    + lia.
  - destruct (IH (i + 1) Hin) as (j & l1 & l2 & H1 & H2 & Hj & -> & ->).
    exists j. eexists _, _.
    split_and!; [| | |simpl in *; lia|done|done].
    + cbn [format_matches]. apply elem_of_app. by right.
    + cbn [format_matches]. apply elem_of_app. by right.
    + lia.
Qed.

Lemma format_items_shows k info e : ∀ items ms lines,
  (k, ms) ∈ items → e ∈ ms →
  lookup_pattern k patterns = Some info →
  format_items items = Some lines →
  (u "## " ++ name info ++ u "（" ++ str_of_int (Z.of_nat (length ms)) ++ u "项）") ∈ lines
  ∧ ∃ j, 1 ≤ j ≤ Z.of_nat (length ms)
      ∧ (str_of_int j ++ u ". 值: " ++ value e ++ u " "
         ++ (if confidence e <? 100
             then u "置信度: " ++ str_of_int (confidence e) ++ u "%" else []))
        ∈ lines
      ∧ (u "   上下文: " ++ context e) ∈ lines.
Proof.
  induction items as [|[k' l'] items IH]; intros ms lines;
    [by intros ?%elem_of_nil|].
  intros Hin He Hinfo. cbn [format_items].
  assert (∀ lines', format_items items = Some lines' → (k, ms) ∈ items →
            ∀ pre, let all := pre ++ lines' in
            (u "## " ++ name info ++ u "（" ++ str_of_int (Z.of_nat (length ms)) ++ u "项）")
              ∈ all
            ∧ ∃ j, 1 ≤ j ≤ Z.of_nat (length ms)
                ∧ (str_of_int j ++ u ". 值: " ++ value e ++ u " "
                   ++ (if confidence e <? 100
                       then u "置信度: " ++ str_of_int (confidence e) ++ u "%" else []))
                  ∈ all
                ∧ (u "   上下文: " ++ context e) ∈ all) as Hrest.
  { intros lines' Hlines' Hin' pre all.
    destruct (IH ms lines' Hin' He Hinfo Hlines') as (Hh & j & Hj & H1 & H2).
    split; [apply elem_of_app; by right|].
    exists j. split_and!; [lia|lia|apply elem_of_app; by right..]. }
  apply elem_of_cons in Hin as [[= <- <-]|Hin].
  - destruct ms as [|e0 rest]; [by apply elem_of_nil in He|].
    rewrite Hinfo. destruct (format_items items) as [lines'|]; cbn [mbind option_bind]; [|done].
    intros Heq. apply (inj Some) in Heq. subst lines. split; [rewrite elem_of_cons; by left|].
    destruct (format_matches_shows e (e0 :: rest) 1 He)
      as (j & l1 & l2 & H1 & H2 & Hj & -> & ->).
    exists j. split_and!; [lia|lia| |].
    + rewrite elem_of_cons, elem_of_app. right. by left.
    + rewrite elem_of_cons, elem_of_app. right. by left.
  - destruct l' as [|e0 rest].
    + intros Hlines. apply (Hrest lines Hlines Hin []).
    + destruct (lookup_pattern k' patterns) as [info'|]; [|done].
      destruct (format_items items) as [lines'|]; cbn [mbind option_bind]; [|done].
      intros Heq. apply (inj Some) in Heq. subst lines.
      apply (Hrest lines' eq_refl Hin (_ :: format_matches 1 (e0 :: rest))).
Qed.

(** X17: the report of a scan.  [format_results] raises no [KeyError] on the
    result of [detect_sensitive_info], whatever the order of its keys; and
    for every entry the report holds the heading of its type with the
    number of its entries, a numbered line with its value (and its
    confidence if that is below 100) and a line with its context. *)
Theorem report_shows_every_entry self text info_types results items k l e :
  detect_sensitive_info self text info_types = Ok results →
  items ≡ₚ map_to_list results →
  results !! k = Some l → e ∈ l →
  ∃ report info j,
    format_results items = Some report
    ∧ lookup_pattern k patterns = Some info
    ∧ 1 ≤ j ≤ Z.of_nat (length l)
    ∧ contains report
        (u "## " ++ name info ++ u "（" ++ str_of_int (Z.of_nat (length l)) ++ u "项）")
    ∧ contains report
        (str_of_int j ++ u ". 值: " ++ value e ++ u " "
         ++ (if confidence e <? 100
             then u "置信度: " ++ str_of_int (confidence e) ++ u "%" else []))
    ∧ contains report (u "   上下文: " ++ context e).
Proof.
  intros Hdet Hperm Hl He.
  assert (∀ k' l', (k', l') ∈ items → is_Some (lookup_pattern k' patterns)) as Hreg.
  { intros k' l' Hin. rewrite Hperm in Hin. apply elem_of_map_to_list in Hin.
    by destruct (result_key_registered _ _ _ _ _ _ Hdet Hin) as (_ & info & ->). }
  assert ((k, l) ∈ items) as Hin.
  { rewrite Hperm. by apply elem_of_map_to_list. }
  destruct (format_items_registered items Hreg) as [lines Hlines].
  destruct (Hreg k l Hin) as [info Hinfo].
  destruct (format_items_shows k info e items l lines Hin He Hinfo Hlines)
    as (Hh & j & Hj & H1 & H2).
  unfold format_results. destruct items as [|item items]; [by apply elem_of_nil in Hin|].
  rewrite Hlines. cbn [mbind option_bind].
  eexists _, info, j. split_and!; [done|done|lia|lia|..].
  - eapply contains_join; [|apply contains_refl]. rewrite elem_of_cons. by right.
  - eapply contains_join; [|apply contains_refl]. rewrite elem_of_cons. by right.
  - eapply contains_join; [|apply contains_refl]. rewrite elem_of_cons. by right.
Qed.

Lemma report_shows_every_entry_witness :
  ∃ report info j,
    format_results
      [("phone", [Entry (u "13812345678") 0 11 (u "【13812345678】") 80])]
    = Some report
    ∧ lookup_pattern "phone" patterns = Some info
    ∧ 1 ≤ j ≤ Z.of_nat (length [Entry (u "13812345678") 0 11 (u "【13812345678】") 80])
    ∧ contains report
        (u "## " ++ name info ++ u "（"
         ++ str_of_int
              (Z.of_nat (length [Entry (u "13812345678") 0 11 (u "【13812345678】") 80]))
         ++ u "项）")
    ∧ contains report
        (str_of_int j ++ u ". 值: " ++ u "13812345678" ++ u " "
         ++ (if 80 <? 100 then u "置信度: " ++ str_of_int 80 ++ u "%" else []))
    ∧ contains report (u "   上下文: " ++ u "【13812345678】").
Proof.
  refine (report_shows_every_entry init (Some (u "13812345678")) (Some ["phone"])
            {[ "phone" := [Entry (u "13812345678") 0 11 (u "【13812345678】") 80] ]}
            [("phone", [Entry (u "13812345678") 0 11 (u "【13812345678】") 80])]
            "phone" [Entry (u "13812345678") 0 11 (u "【13812345678】") 80]
            (Entry (u "13812345678") 0 11 (u "【13812345678】") 80) _ _ _ _).
  - vm_compute. reflexivity.
  - by rewrite map_to_list_singleton.
  - reflexivity.
  - apply elem_of_cons. by left.
Defined.

(** ** Matches are not blank *)

Lemma denote_needs icase Q r : ∀ s s',
  needs icase Q r → denote icase r s s' → ∃ w, consumed s w s' ∧ Exists Q w.
Proof.
  induction r as [|p|r1 IH1 r2 IH2|r1 IH1 r2 IH2|lo hi r IH|r IH|p|p| | |];
    intros s s' HQ; simpl in *; try done.
  - intros (c & rest & Ha & Hp & ->). exists [c].
    split; [by apply consumed_advance|]. apply Exists_cons. left. by apply HQ.
  - intros (m & H1 & H2). destruct HQ as [HQ|HQ].
    + apply (IH1 _ _ HQ) in H1 as (w1 & H1 & ?).
      apply denote_consumes in H2 as (w2 & H2).
      exists (w1 ++ w2). split; [by eapply consumed_app|].
      apply Exists_app. by left.
    + apply denote_consumes in H1 as (w1 & H1).
      apply (IH2 _ _ HQ) in H2 as (w2 & H2 & ?).
      exists (w1 ++ w2). split; [by eapply consumed_app|].
      apply Exists_app. by right.
  - destruct HQ as [HQ1 HQ2]. intros [H|H]; [by apply IH1|by apply IH2].
  - destruct HQ as [Hlo HQ]. intros (n & Hn & _ & Hit).
    destruct n as [|n]; [lia|]. destruct Hit as (m & H1 & Hit).
    apply (IH _ _ HQ) in H1 as (w1 & H1 & ?).
    assert (∃ w2, consumed m w2 s') as (w2 & H2).
    { eapply iter_consumes; [|exact Hit]. apply denote_consumes. }
    exists (w1 ++ w2). split; [by eapply consumed_app|].
    apply Exists_app. by left.
  - intros (m & H & ->). apply (IH _ _ HQ) in H as (w & H & ?).
    exists w. split; [by apply consumed_set_span1|done].
Qed.

Lemma finditer_needs icase Q r text m :
  needs icase Q r → m ∈ finditer icase r text → Exists Q text.
Proof.
  intros HQ (i & s' & Hi & Hd & ->)%finditer_sound.
  apply (denote_needs _ _ _ _ _ HQ) in Hd as (w & Hw & HQw).
  destruct (consumed_sits_at _ _ _ _ _ Hi (sits_at_cursor_at text i) Hw)
    as (_ & Hdrop & _).
  rewrite <- (take_drop i text), Hdrop. apply Exists_app. right.
  apply Exists_app. by left.
Qed.

Lemma digit_not_space c : 48 ≤ c ≤ 57 → Unicode.isspace c = false.
Proof.
  intros Hc. destruct (Unicode.isspace c) eqn:H; [|done].
  apply in_ranges_spec in H.
  repeat (apply Exists_cons in H as [H|H]; [simpl in H; lia|]).
  by apply Exists_nil in H.
Qed.

Lemma needs_landline :
  needs true (λ c, Unicode.isspace c = false) landline_pattern.
Proof.
  unfold landline_pattern, landline_body. cbn [cat needs]. right. left. right. left.
  intros c Hc%(between_digits_closed "2" "9" 50 57); [|done..].
  apply (between_spec "2" "9" 50 57) in Hc; [|done..]. apply digit_not_space. lia.
Qed.

Lemma needs_id_card :
  needs true (λ c, Unicode.isspace c = false) id_card_pattern.
Proof.
  unfold id_card_pattern, id_card_body. cbn [cat needs]. right. left. left.
  intros c Hc%(between_digits_closed "1" "9" 49 57); [|done..].
  apply (between_spec "1" "9" 49 57) in Hc; [|done..]. apply digit_not_space. lia.
Qed.

Lemma needs_ip_address :
  needs true (λ c, Unicode.isspace c = false) ip_address_pattern.
Proof.
  unfold ip_address_pattern, lits. eval_u. cbn [cat needs times text lit].
  right. left. split; [lia|]. right. left. left.
  intros c Hc%lit_closed; [|unfold no_letter; lia].
  apply Z.eqb_eq in Hc as <-. done.
Qed.

Lemma not_blank text :
  Exists (λ c, Unicode.isspace c = false) text →
  ¬ Forall (λ c, Unicode.isspace c = true) text.
Proof.
  intros (c & Hin & Hc)%Exists_exists Hall.
  rewrite Forall_forall in Hall. apply Hall in Hin. congruence.
Qed.

(** Every match that scores at least the threshold is reported, also when
    the enabled types are scanned. *)
Lemma detect_reports_requested self text info_types results type_id info m c :
  detect_sensitive_info self (Some text) info_types = Ok results →
  type_id ∈ requested self info_types →
  lookup_pattern type_id patterns = Some info →
  m ∈ finditer true (pattern info) text →
  confidence_of (validator info) m text = Ok c →
  confidence_threshold self ≤ c →
  ¬ Forall (λ c, Unicode.isspace c = true) text →
  make_entry type_id m text c ∈ matches_of results type_id.
Proof.
  intros Hdet Hin Hinfo Hm Hc Hge Hblank.
  apply (detect_scan _ _ _ _ Hdet) in Hblank as Hscan.
  by eapply (proj2 (scan_types_complete _ _ _ _ _ Hscan)).
Qed.

Lemma make_entry_plain k m text c :
  k ≠ "password" →
  make_entry k m text c
  = Entry (group m) (m_start m) (m_end m)
          (_get_context text (m_start m) (m_end m) 20) c.
Proof. intros Hk%String.eqb_neq. unfold make_entry. by rewrite Hk. Qed.

(** X18: with a threshold up to 50, the default, every match of the
    landline, the identity card and the IP pattern is reported: the
    validators of these three types give no match a score below 50. *)
Theorem every_match_reported self text info_types results k info m :
  k ∈ ["landline"; "id_card"; "ip_address"] →
  detect_sensitive_info self (Some text) info_types = Ok results →
  k ∈ requested self info_types →
  confidence_threshold self ≤ 50 →
  lookup_pattern k patterns = Some info →
  m ∈ finditer true (pattern info) text →
  ∃ e, e ∈ matches_of results k
       ∧ value e = group m ∧ start e = m_start m ∧ end_ e = m_end m
       ∧ 50 ≤ confidence e.
Proof.
  intros Hk Hdet Hreq Ht Hinfo Hm.
  assert (k ≠ "password" ∧ ∃ c, confidence_of (validator info) m text = Ok c ∧ 50 ≤ c
          ∧ Exists (λ c, Unicode.isspace c = false) text) as (Hpw & c & Hc & Hge & Hnb).
  { repeat (apply elem_of_cons in Hk as [->|Hk]); [..|by apply elem_of_nil in Hk];
      (split; [done|]); injection Hinfo as <-; cbn [pattern validator confidence_of] in *.
    - pose proof (finditer_needs _ _ _ _ _ needs_landline Hm) as Hnb.
      unfold _validate_landline. cbv zeta. rewrite (landline_match_format _ _ Hm).
      cbn [negb]. destruct (has_keyword _ _); eexists; (split; [done|]); by split.
    - rewrite (validate_id_card_formatted _ _ (id_card_match_format _ _ Hm)).
      eexists. split; [done|]. split.
      + by destruct (has_keyword _ _).
      + apply (finditer_needs _ _ _ _ _ needs_id_card Hm).
    - pose proof (finditer_needs _ _ _ _ _ needs_ip_address Hm) as Hnb.
      destruct (ip_match_octets _ _ Hm) as [Hlen Hok].
      unfold _validate_ip_address. cbv zeta. rewrite Hlen, Hok.
      cbn [negb mbind result_bind].
      destruct (has_keyword _ _); [|case_bool_decide];
        eexists; (split; [done|]); by split. }
  exists (make_entry k m text c). split.
  - eapply detect_reports_requested; try done; [lia|by apply not_blank].
  - by rewrite (make_entry_plain _ _ _ _ Hpw).
Qed.

Lemma every_match_reported_witness :
  ∃ e, e ∈ matches_of
             {[ "ip_address" := [Entry (u "10.0.0.1") 0 8 (u "【10.0.0.1】") 70] ]}
             "ip_address"
       ∧ value e = group (ReMatch (u "10.0.0.1") 0 8 None 0)
       ∧ start e = 0 ∧ end_ e = 8 ∧ 50 ≤ confidence e.
Proof.
  refine (every_match_reported init (u "10.0.0.1") (Some ["ip_address"])
            {[ "ip_address" := [Entry (u "10.0.0.1") 0 8 (u "【10.0.0.1】") 70] ]}
            "ip_address"
            (PatternInfo (u "IP地址") ip_address_pattern (u "标准IPv4地址格式")
               (Some _validate_ip_address))
            (ReMatch (u "10.0.0.1") 0 8 None 0) _ _ _ _ _ _).
  - do 2 apply list_elem_of_further. apply list_elem_of_here.
  - vm_compute. reflexivity.
  - apply elem_of_cons. by left.
  - simpl. lia.
  - reflexivity.
  - vm_compute. apply elem_of_cons. by left.
Defined.

(** ** The scan misses no match *)

Lemma finditer_at_covers icase r string :
  productive r →
  ∀ after before n skip,
    before = reverse (take n string) → after = drop n string →
    ∀ i s', (n + skip ≤ i ≤ length string)%nat →
      denote icase r (cursor_at string i) s' →
      ∃ m, m ∈ finditer_at icase r string before (Z.of_nat n) after skip
           ∧ (m_start m = Z.of_nat i ∨ m_start m < Z.of_nat i < m_end m).
Proof.
  intros Hprod. induction after as [|c rest IH]; intros before n skip Hb Ha i s' Hi Hd.
  - assert (length string ≤ n)%nat as Hn.
    { apply (f_equal length) in Ha. rewrite length_drop in Ha. simpl in Ha. lia. }
    assert (i = n ∧ skip = O) as [-> ->] by lia.
    assert (is_Some (match_here icase r string (Cursor before [] (Z.of_nat n) None)))
      as [m Hm].
    { unfold match_here. rewrite Hb, Ha. eapply run_complete; [done|exact Hd|done]. }
    exists m. simpl. rewrite Hm. split; [by apply elem_of_cons; left|].
    apply match_here_sound in Hm as (? & _ & ->). by left.
  - assert (string !! n = Some c) as Hc.
    { pose proof (lookup_drop string n 0) as H0. rewrite <- Ha, Nat.add_0_r in H0.
      by rewrite <- H0. }
    assert (rest = drop (S n) string) as Hrest.
    { pose proof (drop_drop string 1 n) as H1. rewrite <- Ha in H1.
      rewrite Nat.add_1_r in H1. by rewrite <- H1. }
    assert (c :: before = reverse (take (S n) string)) as Hbefore.
    { by rewrite (reverse_take_S _ _ _ Hc), Hb. }
    assert (Z.of_nat n + 1 = Z.of_nat (S n)) as Hpos by lia.
    destruct skip as [|skip]; cbn [finditer_at].
    + destruct (match_here icase r string (Cursor before (c :: rest) (Z.of_nat n) None))
        as [m|] eqn:Hm.
      * apply match_here_sound in Hm as Hsound. destruct Hsound as (s1 & _ & Hmeq).
        destruct (decide (i = n)) as [->|Hne].
        { exists m. split; [by apply elem_of_cons; left|]. left. by rewrite Hmeq. }
        rewrite Hpos.
        destruct (decide (S n + (Z.to_nat (m_end m - Z.of_nat n) - 1) ≤ i)%nat) as [Hle|Hgt].
        -- destruct (IH _ _ (Z.to_nat (m_end m - Z.of_nat n) - 1)%nat
                       Hbefore Hrest i s' ltac:(lia) Hd) as (m' & Hm' & Hcov).
           exists m'. split; [by apply elem_of_cons; right|done].
        -- exists m. split; [by apply elem_of_cons; left|]. right.
           rewrite Hmeq in *. cbn [m_start m_end pos] in *. lia.
      * destruct (decide (i = n)) as [->|Hne].
        { exfalso. unfold match_here in Hm. rewrite Hb, Ha in Hm.
          destruct (run_complete icase r
                      (λ s', Some (ReMatch string (pos (cursor_at string n)) (pos s')
                                     (span1 s') (ngroups r)))
                      (cursor_at string n) s' Hprod Hd) as [x Hx]; [done|].
          unfold cursor_at in Hx. cbn [pos] in *. congruence. }
        rewrite Hpos.
        destruct (IH _ _ O Hbefore Hrest i s' ltac:(lia) Hd) as (m' & Hm' & Hcov).
        by exists m'.
    + rewrite Hpos.
      destruct (IH _ _ skip Hbefore Hrest i s' ltac:(lia) Hd) as (m' & Hm' & Hcov).
      by exists m'.
Qed.

(** The scan of [re.finditer] misses no match.  Where the pattern can
    match, a match of the scan starts, or an earlier match of the scan
    extends over the place. *)
Lemma finditer_covers icase r string i s' :
  productive r → (i ≤ length string)%nat →
  denote icase r (cursor_at string i) s' →
  ∃ m, m ∈ finditer icase r string
       ∧ (m_start m = Z.of_nat i ∨ m_start m < Z.of_nat i < m_end m).
Proof.
  intros Hprod Hi Hd. unfold finditer.
  apply (finditer_at_covers icase r string Hprod string [] O O eq_refl eq_refl i s');
    [lia|done].
Qed.

(** ** Phone numbers *)

Lemma char_test_digit_false c :
  Unicode.isdecimal c = false → char_test true digit c = false.
Proof.
  intros Hc. destruct (char_test true digit c) eqn:H; [|done].
  apply digit_closed in H. unfold digit in H. congruence.
Qed.

Lemma char_test_holds icase p c : p c = true → char_test icase p c = true.
Proof. unfold char_test. by intros ->. Qed.

Lemma iter_chars_intro icase p : ∀ w s rest,
  Forall (λ c, p c = true) w → ahead s = w ++ rest →
  ∃ s', iter (denote icase (Char p)) (length w) s s' ∧ ahead s' = rest.
Proof.
  induction w as [|c w IH]; intros s rest Hw Ha; simpl.
  - by exists s.
  - apply Forall_cons in Hw as [Hc Hw].
    destruct (IH (advance c (w ++ rest) s) rest Hw eq_refl) as (s' & Hit & Hs').
    exists s'. split; [|done]. exists (advance c (w ++ rest) s). split; [|done].
    exists c, (w ++ rest). split_and!; [done|by apply char_test_holds|done].
Qed.

(** The text of a phone match is a mobile number. *)
Lemma phone_match_word text m :
  m ∈ finditer true phone_pattern text → phone_number (group m).
Proof.
  intros (i & s' & Hi & Hd & ->)%finditer_sound.
  cbn [phone_pattern cat denote opt] in Hd.
  destruct Hd as (s1 & (n & _ & Hn & Hpre) & s2 & [-> Hbehind] & s3 & Hone
                  & s4 & (c2 & rest2 & Ha2 & Hc2 & ->) & s5 & Hnine
                  & s6 & [-> _] & ->).
  specialize (Hn 1%nat eq_refl).
  assert (s1 = cursor_at text i) as ->.
  { destruct n as [|[|n]]; [done| |lia]. exfalso.
    destruct Hpre as (m & (a & _ & b & H86 & ->) & ->).
    apply denote_text_icase in H86 as (w & (_ & Hb & _) & Hw).
    2:{ eval_u. repeat (apply Forall_cons; split; [unfold folded; lia|]).
        by apply Forall_nil. }
    revert Hw. eval_u. destruct w as [|c1 [|c6 [|? ?]]]; try done.
    intros [= _ H6]. rewrite casefold_no_letter in H6
      by (rewrite H6; unfold no_letter; lia).
    subst c6. rewrite Hb in Hbehind. by vm_compute in Hbehind. }
  assert (consumed (cursor_at text i) [49] s3) as C1.
  { apply denote_text_exact, denote_case_closed; [|exact Hone].
    eval_u. simpl. split; [|done]. intros c. apply lit_closed. unfold no_letter. lia. }
  apply (between_digits_closed "3" "9" 51 57) in Hc2; [|done..].
  apply (between_spec "3" "9" 51 57) in Hc2; [|done..].
  apply denote_times_char in Hnine as (w9 & C9 & Hlen9 & Hall9).
  exists c2, w9. split_and!; [|lia|lia|lia|].
  - apply (consumed_group text i (49 :: c2 :: w9) s5); [done| |done..].
    apply (consumed_app _ [49] _ (c2 :: w9) _ C1).
    apply (consumed_app _ [c2] _ w9 _ (consumed_advance _ _ _ Ha2) C9).
  - eapply Forall_impl; [exact Hall9|]. intros c. apply digit_closed.
Qed.

Lemma isdecimal_isdigit c : Unicode.isdecimal c = true → Unicode.isdigit c = true.
Proof. unfold Unicode.isdigit. by intros ->. Qed.

Lemma phone_number_digits w :
  phone_number w →
  length w = 11%nat ∧ Forall (λ c, Unicode.isdecimal c = true) w.
Proof.
  intros (c2 & rest & -> & Hc2 & Hlen & Hall). split; [simpl; lia|].
  apply Forall_cons; split; [by apply isdecimal_ascii|].
  apply Forall_cons; split; [apply isdecimal_ascii; lia|done].
Qed.

(** The format check of [_validate_phone] accepts a mobile number. *)
Lemma phone_format w :
  phone_number w →
  matches (cat [Bol; lits "1"; Char (between "3" "9"); times 9 9 (Char digit); Eol]) w
  = true.
Proof.
  intros (c2 & rest & -> & Hc2 & Hlen & Hall).
  set (s0 := Cursor [] (49 :: c2 :: rest) 0 None).
  destruct (iter_chars_intro false digit rest
              (advance c2 rest (advance 49 (c2 :: rest) s0)) [] Hall)
    as (s' & Hit & Hs'); [by rewrite app_nil_r|].
  unfold matches, re_match_, match_here. fold s0.
  set (k := λ s', Some (ReMatch _ _ _ _ _)).
  destruct (run_complete false
              (cat [Bol; lits "1"; Char (between "3" "9"); times 9 9 (Char digit); Eol])
              k s0 s') as [m ->]; [| |done|done].
  - unfold lits. eval_u. cbn. repeat split; done.
  - unfold lits. eval_u. cbn [cat text lit denote times].
    exists s0. split; [done|].
    exists (advance 49 (c2 :: rest) s0). split.
    { exists (advance 49 (c2 :: rest) s0). split; [|done].
      exists 49, (c2 :: rest). done. }
    exists (advance c2 rest (advance 49 (c2 :: rest) s0)). split.
    { exists c2, rest. split_and!; [done| |done]. apply char_test_holds.
      unfold between. eval_u. apply andb_true_iff. split; apply Z.leb_le; lia. }
    exists s'. split.
    { exists 9%nat. split_and!; [lia| |by rewrite <- Hlen]. intros h [= <-]. lia. }
    exists s'. split; [|done]. split; [done|by left].
Qed.

(** The validator on a match whose text is a mobile number. *)
Lemma validate_phone_number text m :
  phone_number (group m) →
  _validate_phone m text
  = Ok (if has_keyword ["手机"; "电话"; "联系"; "拨打"; "号码"]
             (_get_context_text text (m_start m) (m_end m) 20)
        then 100
        else if bool_decide (group m ∈ [u "12345678910"; u "13800138000"; u "13912345678"])
        then 0 else 80).
Proof.
  intros Hw. unfold _validate_phone. cbv zeta.
  destruct (phone_number_digits _ Hw) as [Hlen Hall].
  assert (filter (λ c, Unicode.isdigit c = true) (group m) = group m) as ->.
  { clear Hlen Hw. induction Hall as [|c w Hc _ IH]; [done|].
    rewrite filter_cons_True by (by apply isdecimal_isdigit). by rewrite IH. }
  assert ((11 <? len (group m)) = false) as ->.
  { apply Z.ltb_ge. unfold len. lia. }
  cbn [andb]. rewrite (phone_format _ Hw). cbn [negb].
  by repeat case_match.
Qed.

(** X19: the format check of the phone validator rejects no match of the
    phone pattern, and the country code it would remove is never there: a
    match scores 100 with a keyword near it, 0 if it is one of the three
    placeholder numbers, and 80 otherwise. *)
Theorem phone_match_score text m :
  m ∈ finditer true phone_pattern text →
  _validate_phone m text
  = Ok (if has_keyword ["手机"; "电话"; "联系"; "拨打"; "号码"]
             (_get_context_text text (m_start m) (m_end m) 20)
        then 100
        else if bool_decide (group m ∈ [u "12345678910"; u "13800138000"; u "13912345678"])
        then 0 else 80).
Proof.
  intros Hw%phone_match_word. revert Hw. apply validate_phone_number.
Qed.

Lemma phone_match_score_witness :
  _validate_phone (ReMatch (u "13812345678") 0 11 None 0) (u "13812345678")
  = Ok (if has_keyword ["手机"; "电话"; "联系"; "拨打"; "号码"]
             (_get_context_text (u "13812345678") 0 11 20)
        then 100
        else if bool_decide (group (ReMatch (u "13812345678") 0 11 None 0)
                             ∈ [u "12345678910"; u "13800138000"; u "13912345678"])
        then 0 else 80).
Proof.
  refine (phone_match_score (u "13812345678")
            (ReMatch (u "13812345678") 0 11 None 0) _).
  vm_compute. apply elem_of_cons. by left.
Defined.

Lemma slice_lookup (s : str) a b j :
  0 ≤ a → (j < Z.to_nat (b - a))%nat → slice s a b !! j = s !! (Z.to_nat a + j)%nat.
Proof.
  intros Ha Hj. unfold slice. by rewrite lookup_take_lt, lookup_drop by done.
Qed.

(** The phone pattern matches at a mobile number that no digit touches. *)
Lemma phone_pattern_matches pre num post :
  phone_number num →
  (∀ c, last pre = Some c → Unicode.isdecimal c = false) →
  (∀ c, head post = Some c → Unicode.isdecimal c = false) →
  ∃ s', denote true phone_pattern (cursor_at (pre ++ num ++ post) (length pre)) s'.
Proof.
  intros (c2 & rest & -> & Hc2 & Hlen & Hall) Hpre Hpost.
  set (text := pre ++ (49 :: c2 :: rest) ++ post).
  set (s0 := cursor_at text (length pre)).
  assert (ahead s0 = 49 :: c2 :: rest ++ post) as Ha0.
  { unfold s0, cursor_at, text. cbn [ahead]. by rewrite drop_app_length. }
  assert (behind s0 = reverse pre) as Hb0.
  { unfold s0, cursor_at, text. cbn [behind]. by rewrite take_app_length. }
  set (s1 := advance 49 (c2 :: rest ++ post) s0).
  set (s2 := advance c2 (rest ++ post) s1).
  destruct (iter_chars_intro true digit rest s2 post Hall eq_refl) as (s3 & Hit & Ha3).
  exists s3. unfold phone_pattern, lits. eval_u. cbn [cat text lit denote opt times].
  exists s0. split.
  { exists O. split_and!; [lia|intros; lia|done]. }
  exists s0. split.
  { split; [done|]. rewrite Hb0. unfold assert_not.
    destruct (reverse pre) as [|c l] eqn:Hrev; [done|].
    apply char_test_digit_false, Hpre.
    rewrite <- (reverse_involutive pre), Hrev, reverse_cons. apply last_snoc. }
  exists s1. split.
  { exists s1. split; [|done]. exists 49, (c2 :: rest ++ post).
    split_and!; [done|by apply char_test_holds|done]. }
  exists s2. split.
  { exists c2, (rest ++ post). split_and!; [done| |done]. apply char_test_holds.
    unfold between. eval_u. apply andb_true_iff. split; apply Z.leb_le; lia. }
  exists s3. split.
  { exists 9%nat. split_and!; [lia| |by rewrite <- Hlen]. intros h [= <-]. lia. }
  exists s3. split; [|done]. split; [done|]. rewrite Ha3. unfold assert_not.
  destruct post as [|c l]; [done|]. by apply char_test_digit_false, Hpost.
Qed.

(** A mobile number that no digit touches is found.  If the text holds
    [1], a digit from 3 to 9 and nine more digits, with no digit right
    before and none right after, the scan with the phone pattern has a match
    at exactly that number. *)
Lemma phone_number_found pre num post :
  phone_number num →
  (∀ c, last pre = Some c → Unicode.isdecimal c = false) →
  (∀ c, head post = Some c → Unicode.isdecimal c = false) →
  ∃ m, m ∈ finditer true phone_pattern (pre ++ num ++ post)
       ∧ m_start m = len pre ∧ m_end m = len pre + 11 ∧ group m = num.
Proof.
  intros Hnum Hpre Hpost.
  destruct (phone_pattern_matches pre num post Hnum Hpre Hpost) as (s' & Hd).
  destruct (phone_number_digits _ Hnum) as [Hlen _].
  destruct (finditer_covers true phone_pattern (pre ++ num ++ post) (length pre) s')
    as (m & Hm & Hcov); [| |done|].
  { unfold phone_pattern, lits. eval_u. cbn. repeat split; done. }
  { rewrite length_app. lia. }
  pose proof (phone_match_shape _ _ Hm) as [Hend _].
  pose proof (finditer_string _ _ _ _ Hm) as Hstring.
  pose proof (finditer_sound _ _ _ _ Hm) as (_ & H0 & _ & _)%is_match_bounds.
  assert (m_start m = len pre) as Hstart.
  { destruct Hcov as [?|[Hlt Hgt]]; [done|]. exfalso.
    destruct (phone_number_digits _ (phone_match_word _ _ Hm)) as [_ Hall].
    destruct pre as [|c0 pre0] using rev_ind; [simpl in *; lia|]. clear IHpre0.
    rewrite length_app in Hlt, Hgt. simpl in Hlt, Hgt.
    assert (group m !! (length pre0 - Z.to_nat (m_start m))%nat = Some c0) as Hc0.
    { unfold group. rewrite slice_lookup, Hstring by lia.
      replace (Z.to_nat (m_start m) + (length pre0 - Z.to_nat (m_start m)))%nat
        with (length pre0) by lia.
      rewrite <- !app_assoc. rewrite lookup_app_r by lia.
      by rewrite Nat.sub_diag. }
    rewrite Forall_forall in Hall.
    specialize (Hpre c0 (last_snoc _ _)).
    rewrite (Hall c0) in Hpre; [done|by eapply list_elem_of_lookup_2]. }
  exists m. split_and!; [done|done|lia|].
  unfold group. rewrite Hstring, Hend, Hstart.
  replace 11 with (len num) by (unfold len; lia). apply slice_middle.
Qed.

(** X20: a mobile number that no digit touches is reported.  If the text
    holds [1], a digit from 3 to 9 and nine more digits, with no digit right
    before and none right after, then with [phone] requested and a threshold
    up to 80 the result has an entry with the number's text and offsets,
    unless it is the placeholder 13800138000 or 13912345678; the confidence
    is 80, or 100 with a keyword near. *)
Theorem phone_number_reported self pre num post info_types results :
  phone_number num →
  (∀ c, last pre = Some c → Unicode.isdecimal c = false) →
  (∀ c, head post = Some c → Unicode.isdecimal c = false) →
  num ∉ [u "13800138000"; u "13912345678"] →
  detect_sensitive_info self (Some (pre ++ num ++ post)) info_types = Ok results →
  "phone" ∈ requested self info_types →
  confidence_threshold self ≤ 80 →
  ∃ e, e ∈ matches_of results "phone"
       ∧ value e = num ∧ start e = len pre ∧ end_ e = len pre + 11
       ∧ (confidence e = 80 ∨ confidence e = 100).
Proof.
  intros Hnum Hpre Hpost Hplace Hdet Hreq Ht.
  destruct (phone_number_found pre num post Hnum Hpre Hpost)
    as (m & Hm & Hstart & Hend & Hgroup).
  pose proof (validate_phone_number (pre ++ num ++ post) m) as Hscore.
  rewrite Hgroup in Hscore. specialize (Hscore Hnum).
  rewrite bool_decide_eq_false_2 in Hscore.
  2:{ intros [Hbad|Hin]%elem_of_cons; [|done].
      destruct Hnum as (c2 & rest & -> & Hc2 & _). revert Hbad. eval_u.
      intros [= -> _]. lia. }
  set (c := if has_keyword _ _ then 100 else 80) in Hscore.
  exists (make_entry "phone" m (pre ++ num ++ post) c). split.
  - apply (detect_reports_requested self _ info_types results "phone" _ m c
             Hdet Hreq lookup_phone Hm Hscore).
    { subst c. case_match; lia. }
    apply not_blank, Exists_app. right. apply Exists_app. left.
    destruct Hnum as (c2 & rest & -> & _). apply Exists_cons. by left.
  - rewrite make_entry_plain by done. cbn [value start end_ confidence].
    split_and!; [done..|]. subst c. case_match; auto.
Qed.

Lemma phone_number_reported_witness :
  ∃ e, e ∈ matches_of
             {[ "phone" := [Entry (u "13812345678") 4 15 (u "tel 【13812345678】 ok") 80] ]}
             "phone"
       ∧ value e = u "13812345678" ∧ start e = len (u "tel ")
       ∧ end_ e = len (u "tel ") + 11
       ∧ (confidence e = 80 ∨ confidence e = 100).
Proof.
  refine (phone_number_reported init (u "tel ") (u "13812345678") (u " ok")
            (Some ["phone"])
            {[ "phone" := [Entry (u "13812345678") 4 15 (u "tel 【13812345678】 ok") 80] ]}
            _ _ _ _ _ _ _).
  - exists 51, (u "812345678"). split_and!; [reflexivity|lia|lia|reflexivity|].
    eval_u. repeat (apply Forall_cons; split; [reflexivity|]). by apply Forall_nil.
  - intros c H. vm_compute in H. injection H as <-. reflexivity.
  - intros c H. vm_compute in H. injection H as <-. reflexivity.
  - vm_compute. intros H. apply elem_of_cons in H as [H|H]; [discriminate H|].
    apply elem_of_cons in H as [H|H]; [discriminate H|]. by apply elem_of_nil in H.
  - vm_compute. reflexivity.
  - apply elem_of_cons. by left.
  - simpl. lia.
Defined.

(** ** The label of a password *)

Lemma mentions_contains kws kw s :
  kw ∈ kws → contains s (u kw) → mentions kws s = true.
Proof.
  intros Hin Hc. unfold mentions. apply existsb_exists. exists kw.
  split; [by apply list_elem_of_In|by apply occurs_spec].
Qed.

Lemma contains_trans (a b c : str) : contains a b → contains b c → contains a c.
Proof.
  intros (x & y & ->) (x' & y' & ->). exists (x ++ x'), (y' ++ y).
  by rewrite <- !app_assoc.
Qed.

(** The window of a match holds the match. *)
Lemma window_contains_match text m :
  0 ≤ m_start m → m_start m ≤ m_end m → m_end m ≤ len text → m_string m = text →
  contains (_get_context_text text (m_start m) (m_end m) 20) (group m).
Proof.
  intros H0 Hse Hlen Hstring.
  rewrite (context_text_split text (m_start m) (m_end m) 20 H0 Hse Hlen) by lia.
  unfold group. rewrite Hstring. by eexists _, _.
Qed.

(** X21: a password whose label is written as the validator spells it
    scores 100.  The label of a match is 密码, password or pwd in any case;
    when it is in lower case, it is itself a keyword in the window of the
    match, so the score 90 is left to labels with a capital letter. *)
Theorem password_label_scores text m :
  m ∈ finditer true password_pattern text →
  ∃ label rest,
    group m = label ++ rest
    ∧ map Unicode.casefold label ∈ [u "密码"; u "password"; u "pwd"]
    ∧ (map Unicode.casefold label = label → _validate_password m text = Ok 100).
Proof.
  intros Hm.
  destruct (password_match_shape _ _ Hm)
    as (pre & label & sep & spaces & cred & post & Htext & Hlabel & _ & _ & _ & _
        & Hstring & Hstart & Hend & _ & _).
  pose proof (finditer_sound _ _ _ _ Hm) as (_ & H0 & Hse & Hlen)%is_match_bounds.
  assert (group m = label ++ [sep] ++ spaces ++ cred) as Hgroup.
  { unfold group. rewrite Hstring, Hstart, Hend, Htext.
    replace (len (pre ++ label ++ [sep] ++ spaces) + len cred)
      with (len pre + len (label ++ [sep] ++ spaces ++ cred))
      by (unfold len; rewrite !length_app; simpl; lia).
    replace (pre ++ label ++ [sep] ++ spaces ++ cred ++ post)
      with (pre ++ (label ++ [sep] ++ spaces ++ cred) ++ post)
      by (by rewrite <- !app_assoc).
    apply slice_middle. }
  exists label, ([sep] ++ spaces ++ cred). split_and!; [done|done|].
  intros Hexact. rewrite Hexact in Hlabel.
  unfold _validate_password. cbv zeta. rewrite has_keyword_mentions.
  assert (∃ kw, kw ∈ ["密码"; "password"; "pwd"] ∧ label = u kw) as (kw & Hkw & ->).
  { repeat (apply elem_of_cons in Hlabel as [->|Hlabel]);
      [eexists; split; [|done]..|by apply elem_of_nil in Hlabel].
    - apply elem_of_cons. by left.
    - do 1 apply list_elem_of_further. apply list_elem_of_here.
    - do 2 apply list_elem_of_further. apply list_elem_of_here. }
  rewrite (mentions_contains _ kw); [done| |].
  - repeat (apply elem_of_cons in Hkw as [->|Hkw]); [..|by apply elem_of_nil in Hkw].
    + apply elem_of_cons. by left.
    + do 2 apply list_elem_of_further. apply list_elem_of_here.
    + do 3 apply list_elem_of_further. apply list_elem_of_here.
  - eapply contains_trans; [by apply window_contains_match|].
    rewrite Hgroup. exists [], ([sep] ++ spaces ++ cred). done.
Qed.

Lemma password_label_scores_witness :
  ∃ label rest,
    group (ReMatch (u "pwd:secret1") 0 11 (Some (4, 11)) 1) = label ++ rest
    ∧ map Unicode.casefold label ∈ [u "密码"; u "password"; u "pwd"]
    ∧ (map Unicode.casefold label = label →
       _validate_password (ReMatch (u "pwd:secret1") 0 11 (Some (4, 11)) 1)
         (u "pwd:secret1") = Ok 100).
Proof.
  refine (password_label_scores (u "pwd:secret1")
            (ReMatch (u "pwd:secret1") 0 11 (Some (4, 11)) 1) _).
  vm_compute. apply elem_of_cons. by left.
Defined.

(** ** The first match the matcher tries *)























(** ** The card pattern on four groups of four digits *)







(** ** The password pattern at a label and a credential *)








(** ** Where no earlier match can start *)





(** ** When a call returns *)


(** ** The two card values in a text *)







(** ** The password after its label *)





